(** * The memtable and its write-ahead log (memtable.go)

    A shallow embedding of badger's [memtable.go]: the record codec
    ([encodeEntry], [decodeEntry]), the log file ([writeEntry], [bootstrap],
    [reset], [generateIV]), the replay iterator ([iterate]), the memtable
    ([Put], [UpdateSkipList], [IncrRef], [DecrRef]) and directory recovery
    ([openMemTables], [newMemTable]).

    Go's fixed-width integers are values of [Z] with the wrap-around written
    out ([uint32], [int32], [int64]); byte slices are [list byte]; a Go
    function that can return an error or panic returns a [result]. *)

From Stdlib Require Import Strings.String Strings.Ascii Strings.Byte.
From Stdlib Require Import ZArith List Lia Bool.
From Stdlib Require Import Sorting.Permutation Sorting.Sorted.
Import ListNotations.

Local Open Scope Z_scope.

(** ** Machine integers *)

Definition uint32 (x : Z) : Z := x mod 2 ^ 32.
Definition uint64 (x : Z) : Z := x mod 2 ^ 64.

(** Two's complement: the signed value of the low [w] bits of [x]. *)
Definition sint (w : Z) (x : Z) : Z :=
  (x + 2 ^ (w - 1)) mod 2 ^ w - 2 ^ (w - 1).

Definition int32 (x : Z) : Z := sint 32 x.
(** Go's [int] and [int64] on a 64-bit platform. *)
Definition int64 (x : Z) : Z := sint 64 x.

Definition MaxUint64 : Z := 2 ^ 64 - 1.
Definition MaxInt64 : Z := 2 ^ 63 - 1.
Definition MinInt64 : Z := - 2 ^ 63.

(** ** Bytes *)

Definition byte_to_Z (b : byte) : Z := Z.of_N (Byte.to_N b).

(** Go's conversion [byte(x)]: the low eight bits. *)
Definition byte_of_Z (z : Z) : byte :=
  match Byte.of_N (Z.to_N (z mod 256)) with
  | Some b => b
  | None => x00
  end.

Definition len {A : Type} (l : list A) : Z := Z.of_nat (length l).

(** ** Go's results: a value, a returned error, or a panic *)

Inductive result (E A : Type) : Type :=
| Ok (a : A)
| Err (e : E)
| Panic.
Arguments Ok {E A} a.
Arguments Err {E A} e.
Arguments Panic {E A}.

(** Go slice expressions [s[lo:hi]] and [s[lo:]]; out-of-range bounds panic,
    which is [None] here. *)
Definition slice {A : Type} (s : list A) (lo hi : Z) : option (list A) :=
  if (0 <=? lo) && (lo <=? hi) && (hi <=? len s)
  then Some (firstn (Z.to_nat (hi - lo)) (skipn (Z.to_nat lo) s))
  else None.

Definition slice_from {A : Type} (s : list A) (lo : Z) : option (list A) :=
  if (0 <=? lo) && (lo <=? len s)
  then Some (skipn (Z.to_nat lo) s)
  else None.

(** Go's built-in [copy(dst, src)]: overwrites the first
    [min(len dst, len src)] elements of [dst] and returns how many. *)
Definition copy {A : Type} (dst src : list A) : list A * Z :=
  let n := Nat.min (length dst) (length src) in
  (firstn n src ++ skipn n dst, Z.of_nat n).

(** ** encoding/binary *)

Module binary.

(** [binary.BigEndian.PutUint32] and [PutUint64]: [n] bytes, most
    significant first. *)
Fixpoint be_bytes (n : nat) (x : Z) : list byte :=
  match n with
  | O => []
  | S n' => byte_of_Z (Z.shiftr x (8 * Z.of_nat n')) :: be_bytes n' x
  end.

Definition PutUint32 (x : Z) : list byte := be_bytes 4 x.
Definition PutUint64 (x : Z) : list byte := be_bytes 8 x.

(** [binary.BigEndian.Uint32] and [Uint64]. *)
Definition be_value (bs : list byte) : Z :=
  fold_left (fun acc b => Z.lor (Z.shiftl acc 8) (byte_to_Z b)) bs 0.

(** [binary.PutUvarint]: seven bits per byte, least significant group
    first, the high bit set on every byte but the last. *)
Fixpoint put_uvarint (fuel : nat) (x : Z) : list byte :=
  match fuel with
  | O => [byte_of_Z x]
  | S fuel' =>
      if 128 <=? x
      then byte_of_Z (Z.lor x 128) :: put_uvarint fuel' (Z.shiftr x 7)
      else [byte_of_Z x]
  end.

(** A [uint64] needs at most ten groups. *)
Definition PutUvarint (x : Z) : list byte := put_uvarint 9 x.

Definition MaxVarintLen64 : Z := 10.

(** [binary.Uvarint]: the value and the number of bytes read; [None]
    where Go returns a count [<= 0] (buffer too small, or overflow of 64
    bits). [i] counts the bytes consumed and [s] the shift so far. *)
Fixpoint uvarint (buf : list byte) (x : Z) (s : Z) (i : Z) : option (Z * Z) :=
  match buf with
  | [] => None
  | b :: rest =>
      if i =? MaxVarintLen64 then None
      else if byte_to_Z b <? 128 then
        if (i =? MaxVarintLen64 - 1) && (1 <? byte_to_Z b) then None
        else Some (Z.lor x (Z.shiftl (byte_to_Z b) s), i + 1)
      else uvarint rest (Z.lor x (Z.shiftl (Z.land (byte_to_Z b) 127) s)) (s + 7) (i + 1)
  end.

Definition Uvarint (buf : list byte) : option (Z * Z) := uvarint buf 0 0 0.

End binary.

(** ** hash/crc32 with the Castagnoli polynomial *)

Module crc32.

Definition Castagnoli : Z := 0x82f63b78.
Definition Size : Z := 4.

(** One entry of [crc32.MakeTable]: eight shift-and-conditionally-xor
    steps on the index. *)
Fixpoint table_steps (n : nat) (poly crc : Z) : Z :=
  match n with
  | O => crc
  | S n' =>
      table_steps n' poly
        (if Z.testbit crc 0 then Z.lxor (Z.shiftr crc 1) poly
         else Z.shiftr crc 1)
  end.

Definition table_entry (poly : Z) (i : Z) : Z := table_steps 8 poly i.

(** [y.CastagnoliCrcTable = crc32.MakeTable(crc32.Castagnoli)]. *)
Definition CastagnoliCrcTable (i : Z) : Z := table_entry Castagnoli i.

Definition not32 (x : Z) : Z := Z.lxor x 0xffffffff.

(** The byte loop of [crc32.simpleUpdate], on the complemented sum. *)
Definition update_loop (tab : Z -> Z) (crc : Z) (p : list byte) : Z :=
  fold_left
    (fun crc v => Z.lxor (tab (Z.lxor (Z.land crc 255) (byte_to_Z v)))
                        (Z.shiftr crc 8))
    p crc.

(** [crc32.Update(crc, tab, p)]. *)
Definition Update (crc : Z) (tab : Z -> Z) (p : list byte) : Z :=
  not32 (update_loop tab (not32 crc) p).

(** [crc32.Checksum(data, tab)]. *)
Definition Checksum (data : list byte) (tab : Z -> Z) : Z :=
  Update 0 tab data.

(** The running digest returned by [crc32.New]: [Write] updates the sum,
    [Sum32] reads it. *)
Record digest : Type := { crc : Z; tab : Z -> Z }.

Definition New (t : Z -> Z) : digest := {| crc := 0; tab := t |}.

Definition Write (d : digest) (p : list byte) : digest :=
  {| crc := Update (crc d) (tab d) p; tab := tab d |}.

Definition Sum32 (d : digest) : Z := crc d.

End crc32.

Definition ascii_bytes (s : string) : list byte := list_byte_of_string s.

(** ** strconv, base 10 and 64 bits *)

Module strconv.

(** The cutoff of [ParseUint]: the smallest [n] with [n * 10 > MaxUint64]. *)
Definition cutoff : Z := MaxUint64 / 10 + 1.

(** The digit loop of [strconv.ParseUint(s, 10, 64)]; [None] is a syntax
    or range error. *)
Fixpoint parse_digits (cs : list byte) (n : Z) : option Z :=
  match cs with
  | [] => Some n
  | c :: rest =>
      let c := byte_to_Z c in
      if (48 <=? c) && (c <=? 57) then
        let d := c - 48 in
        if cutoff <=? n then None
        else
          let n := uint64 (n * 10) in
          let n1 := uint64 (n + d) in
          if (n1 <? n) || (MaxUint64 <? n1) then None
          else parse_digits rest n1
      else None
  end.

Definition ParseUint (s : list byte) : option Z :=
  match s with
  | [] => None
  | _ => parse_digits s 0
  end.

(** [strconv.ParseInt(s, 10, 64)]: an optional sign, then [ParseUint] and
    the range check of a signed 64-bit integer. *)
Definition ParseInt (s : list byte) : option Z :=
  match s with
  | [] => None
  | c :: rest =>
      let neg := Byte.eqb c x2d in
      let s' := if Byte.eqb c x2b || neg then rest else s in
      match ParseUint s' with
      | None => None
      | Some un =>
          let cutoff := 2 ^ 63 in
          if negb neg && (cutoff <=? un) then None
          else if neg && (cutoff <? un) then None
          else Some (if neg then int64 (- int64 un) else int64 un)
      end
  end.

(** [strconv.FormatUint(n, 10)]: the decimal digits, most significant
    first. Twenty digits hold any [uint64]. *)
Fixpoint format_digits (fuel : nat) (n : Z) (acc : list byte) : list byte :=
  match fuel with
  | O => acc
  | S fuel' =>
      let acc' := byte_of_Z (48 + n mod 10) :: acc in
      if n <? 10 then acc' else format_digits fuel' (n / 10) acc'
  end.

Definition FormatUint (n : Z) : list byte := format_digits 20 n [].

End strconv.

(** ** Errors *)

Inductive error : Type :=
| io_EOF
| io_ErrUnexpectedEOF
| errTruncate
| errStop
| KeySizeError                         (* aes.NewCipher on a bad key length *)
| z_NewFile                            (* z.NewFile: the file was created *)
| OtherError (msg : string)            (* any other error value *)
| Wrapped (msg : string) (cause : error).  (* errors.Wrapf, y.Wrapf, errFile *)

(** Go's [err == target] on these error values. *)
Fixpoint error_eqb (a b : error) : bool :=
  match a, b with
  | io_EOF, io_EOF => true
  | io_ErrUnexpectedEOF, io_ErrUnexpectedEOF => true
  | errTruncate, errTruncate => true
  | errStop, errStop => true
  | KeySizeError, KeySizeError => true
  | z_NewFile, z_NewFile => true
  | OtherError m, OtherError m' => String.eqb m m'
  | Wrapped m c, Wrapped m' c' => String.eqb m m' && error_eqb c c'
  | _, _ => false
  end.

Definition Wrapf (err : error) (msg : string) : error := Wrapped msg err.

(** Modelled from the spec: [errFile] is declared outside memtable.go; the
    error is wrapped with the file's path and the message. *)
Definition errFile (err : error) (path : string) (msg : string) : error :=
  Wrapped (msg ++ " " ++ path) err.

(** ** Data model *)

(** The key id (8 bytes) and the base IV (12 bytes) that open a log file. *)
Definition vlogHeaderSize : Z := 20.

Module header.
Record t : Type := {
  klen : Z;        (* uint32 *)
  vlen : Z;        (* uint32 *)
  expiresAt : Z;   (* uint64 *)
  meta : byte;
  userMeta : byte
}.
End header.

Record Entry : Type := {
  Key : list byte;
  Value : list byte;
  UserMeta : byte;
  ExpiresAt : Z;     (* uint64 *)
  meta : byte;
  offset : Z;        (* uint32 *)
  hlen : Z           (* int: length of the header as read *)
}.

Module ValueStruct.
Record t : Type := {
  Meta : byte;
  UserMeta : byte;
  ExpiresAt : Z;
  Value : list byte
}.
End ValueStruct.

Module valuePointer.
Record t : Type := { Fid : Z; Len : Z; Offset : Z }.
End valuePointer.

Module DataKey.
Record t : Type := { KeyId : Z; Data : list byte }.
End DataKey.

(** Calls on the mapped file that leave this package (package [z], [os]
    and the parts of [logFile] kept in other files). *)
Inductive fileCall : Type :=
| CallMsync
| CallMunmap
| CallFdTruncate (size : Z)
| CallInit
| CallTruncate (size : Z)      (* z.MmapFile.Truncate *)
| CallDelete.                  (* z.MmapFile.Delete *)

(** [z.MmapFile]: the mapped bytes, the file's name and the calls made on
    the file so far, oldest first. *)
Module MmapFile.
Record t : Type := {
  Data : list byte;
  Name : string;
  calls : list fileCall
}.
End MmapFile.

(** The key registry, out of scope here, is the pair of its two lookups. *)
Module KeyRegistry.
Record t : Type := {
  latestDataKey : result error (option DataKey.t);
  dataKey : Z -> result error (option DataKey.t)
}.
End KeyRegistry.

Inductive FileLoadingMode : Type := FileIO | MemoryMap.

Record logFile : Type := {
  mf : MmapFile.t;
  path : string;
  fid : Z;                       (* uint32 *)
  size : Z;                      (* uint32 *)
  loadingMode : FileLoadingMode;
  dataKey : option DataKey.t;
  baseIV : list byte;
  registry : KeyRegistry.t;
  writeAt : Z                    (* uint32 *)
}.

Definition lfData (lf : logFile) : list byte := MmapFile.Data (mf lf).

Definition set_Data (lf : logFile) (d : list byte) : logFile :=
  {| mf := {| MmapFile.Data := d; MmapFile.Name := MmapFile.Name (mf lf);
              MmapFile.calls := MmapFile.calls (mf lf) |};
     path := path lf; fid := fid lf; size := size lf;
     loadingMode := loadingMode lf; dataKey := dataKey lf;
     baseIV := baseIV lf; registry := registry lf; writeAt := writeAt lf |}.

Definition set_writeAt (lf : logFile) (w : Z) : logFile :=
  {| mf := mf lf; path := path lf; fid := fid lf; size := size lf;
     loadingMode := loadingMode lf;
     dataKey := dataKey lf; baseIV := baseIV lf; registry := registry lf;
     writeAt := w |}.

Definition set_mf (lf : logFile) (m : MmapFile.t) : logFile :=
  {| mf := m; path := path lf; fid := fid lf; size := size lf;
     loadingMode := loadingMode lf; dataKey := dataKey lf; baseIV := baseIV lf; registry := registry lf;
     writeAt := writeAt lf |}.

Definition set_key (lf : logFile) (dk : option DataKey.t) (iv : list byte) : logFile :=
  {| mf := mf lf; path := path lf; fid := fid lf; size := size lf;
     loadingMode := loadingMode lf; dataKey := dk; baseIV := iv; registry := registry lf;
     writeAt := writeAt lf |}.

(** The sorted map is out of scope: it is represented by the calls made on
    it, oldest first. *)
Inductive sklCall : Type :=
| SklPut (key : list byte) (v : ValueStruct.t)
| SklReclaimMem.

Definition Skiplist : Type := list sklCall.

Module skl.
Definition NewSkiplist : Skiplist := [].
Definition Put (s : Skiplist) (key : list byte) (v : ValueStruct.t) : Skiplist :=
  s ++ [SklPut key v].
Definition ReclaimMem (s : Skiplist) : Skiplist := s ++ [SklReclaimMem].
End skl.

(** What one call of [safeRead.Entry] returns: the Go pair [(e, err)]. *)
Definition readResult : Type := option Entry * option error.

(** ** Collaborators kept outside memtable.go

    The block cipher, the meta bits, the timestamp parser of package [y],
    the zero test on entries and the record reader of the value log are
    declared in other files; the development is parametric in them. *)
Class Collaborators : Type := {
  (** The meta bits that mark a transaction's entries and its end. *)
  bitTxn : byte;
  bitFinTxn : byte;
  (** AES in counter mode ([crypto/aes], [crypto/cipher]): byte [i] of the
      key stream under a key and a 16-byte IV. *)
  keystream : list byte -> list byte -> nat -> byte;
  (** [y.ParseTs]: the timestamp carried by a key. *)
  ParseTs : list byte -> Z;
  (** [Entry.isZero] on an entry that was read. *)
  isZero : Entry -> bool;
  (** [bufio.NewReader(lf.NewReader(offset))] read through
      [safeRead.Entry]: what the successive reads of the log file from
      [offset] return. Each entry's [offset] field is filled in by
      [safeRead_Entry] below. *)
  NewReader : logFile -> Z -> list readResult;
  (** The error, if any, that a call on a mapped file returns, given the
      file and the calls made on it before. *)
  callErr : MmapFile.t -> fileCall -> option error;
  (** The file system and the random source behind [ioutil.ReadDir],
      [z.OpenMmapFile], [os.Remove] and [cryptorand.Read]. *)
  World : Type;
  ReadDir : World -> string -> result error (list string);
  OpenMmapFile : World -> string -> Z -> World * (MmapFile.t * option error);
  os_Remove : World -> string -> World;
  cryptorand_Read : World -> World * result error (list byte)
}.

(** ** Record codec *)

(** Modelled from the spec: [header.Encode] is declared outside memtable.go.
    The header encodes, in order, key length, value length and expires-at as
    variable-length integers, then meta and user-meta as single bytes. The
    result is the slice [headerEnc[:sz]] of the source. *)
Definition header_Encode (h : header.t) : list byte :=
  binary.PutUvarint (header.klen h) ++
  binary.PutUvarint (header.vlen h) ++
  binary.PutUvarint (header.expiresAt h) ++
  [header.meta h; header.userMeta h].

(** Modelled from the spec: [header.Decode] is declared outside memtable.go.
    It parses the fields in the order [header_Encode] writes them and returns
    the header with the number of bytes read; [None] on a header that does
    not parse. *)
Definition header_Decode (buf : list byte) : option (header.t * Z) :=
  match binary.Uvarint buf with
  | None => None
  | Some (kl, n1) =>
      let buf1 := skipn (Z.to_nat n1) buf in
      match binary.Uvarint buf1 with
      | None => None
      | Some (vl, n2) =>
          let buf2 := skipn (Z.to_nat n2) buf1 in
          match binary.Uvarint buf2 with
          | None => None
          | Some (ex, n3) =>
              match skipn (Z.to_nat n3) buf2 with
              | m :: um :: _ =>
                  Some ({| header.klen := uint32 kl; header.vlen := uint32 vl;
                           header.expiresAt := ex; header.meta := m;
                           header.userMeta := um |},
                        n1 + n2 + n3 + 2)
              | _ => None
              end
          end
      end
  end.

(** Exclusive or of two bytes, bit by bit. *)
Definition xor_byte (a b : byte) : byte :=
  let '(a0, (a1, (a2, (a3, (a4, (a5, (a6, a7))))))) := Byte.to_bits a in
  let '(b0, (b1, (b2, (b3, (b4, (b5, (b6, b7))))))) := Byte.to_bits b in
  Byte.of_bits (xorb a0 b0, (xorb a1 b1, (xorb a2 b2, (xorb a3 b3,
               (xorb a4 b4, (xorb a5 b5, (xorb a6 b6, xorb a7 b7))))))).

(** [aes.NewCipher] accepts keys of 16, 24 or 32 bytes. *)
Definition aes_key_ok (key : list byte) : bool :=
  (len key =? 16) || (len key =? 24) || (len key =? 32).

Section Codec.
Context `{Collaborators}.

(** [cipher.Stream.XORKeyStream] of a CTR stream, from position [i]. *)
Fixpoint XORKeyStream (key iv : list byte) (i : nat) (src : list byte) : list byte :=
  match src with
  | [] => []
  | b :: rest => xor_byte b (keystream key iv i) :: XORKeyStream key iv (S i) rest
  end.

(** Modelled from the spec: [y.XORBlockAllocate] is declared in package
    [y]. It returns a fresh slice holding [src] under the AES-CTR key stream
    of the key and IV, or the error of [aes.NewCipher]. *)
Definition XORBlockAllocate (src key iv : list byte) : result error (list byte) :=
  if aes_key_ok key then Ok (XORKeyStream key iv 0 src) else Err KeySizeError.

Definition encryptionEnabled (lf : logFile) : bool :=
  match dataKey lf with Some _ => true | None => false end.

Definition keyID (lf : logFile) : Z :=
  match dataKey lf with
  | None => 0
  | Some dk => DataKey.KeyId dk
  end.

(** [generateIV]: the 12 bytes of the base IV, then the offset, big
    endian. The assertion on [copy] fails ([None]) when the base IV is
    shorter than 12 bytes. *)
Definition generateIV (lf : logFile) (offset : Z) : option (list byte) :=
  let iv := repeat x00 16 in
  let '(iv12, n) := copy (firstn 12 iv) (baseIV lf) in
  if 12 =? n then Some (iv12 ++ binary.PutUint32 offset) else None.

(** [io.MultiWriter(buf, hash)]: every write goes to the buffer and to
    the running checksum. *)
Definition multiWriter : Type := (list byte * crc32.digest)%type.

Definition mw_Write (w : multiWriter) (p : list byte) : multiWriter :=
  (fst w ++ p, crc32.Write (snd w) p).

(** Modelled from the spec: [y.XORBlockStream] is declared in package [y].
    It writes [src] under the AES-CTR key stream of the key and IV to [w],
    or returns the error of [aes.NewCipher]. *)
Definition XORBlockStream (w : multiWriter) (src key iv : list byte)
  : multiWriter * option error :=
  if aes_key_ok key then (mw_Write w (XORKeyStream key iv 0 src), None)
  else (w, Some KeySizeError).

(** [encodeEntry]: appends header, key, value and checksum to [buf]. The
    buffer is passed by pointer, so what was written before an error
    stays in it: the first component is the buffer afterwards. *)
Definition encodeEntry (lf : logFile) (buf : list byte) (e : Entry) (offset : Z)
  : list byte * result error Z :=
  let h := {| header.klen := uint32 (len (Key e));
              header.vlen := uint32 (len (Value e));
              header.expiresAt := ExpiresAt e;
              header.meta := meta e;
              header.userMeta := UserMeta e |} in
  let hash := crc32.New crc32.CastagnoliCrcTable in
  let writer : multiWriter := (buf, hash) in
  let headerEnc := header_Encode h in
  let writer := mw_Write writer headerEnc in
  let finish (writer : multiWriter) :=
    let crcBuf := binary.PutUint32 (crc32.Sum32 (snd writer)) in
    (fst writer ++ crcBuf,
     Ok (len headerEnc + len (Key e) + len (Value e) + len crcBuf)) in
  match dataKey lf with
  | Some dk =>
      let eBuf := Key e ++ Value e in
      match generateIV lf offset with
      | None => (fst writer, Panic)
      | Some iv =>
          match XORBlockStream writer eBuf (DataKey.Data dk) iv with
          | (writer, Some err) =>
              (fst writer, Err (Wrapf err "Error while encoding entry for vlog."))
          | (writer, None) => finish writer
          end
      end
  | None =>
      let writer := mw_Write writer (Key e) in
      let writer := mw_Write writer (Value e) in
      finish writer
  end.

Definition decryptKV (lf : logFile) (dk : DataKey.t) (buf : list byte) (offset : Z)
  : result error (list byte) :=
  match generateIV lf offset with
  | None => Panic
  | Some iv => XORBlockAllocate buf (DataKey.Data dk) iv
  end.

(** [decodeEntry]. A slice's capacity is taken to be its length, which is
    exact for the freshly allocated plaintext of the encrypted path. *)
Definition decodeEntry (lf : logFile) (buf : list byte) (offset : Z)
  : result error Entry :=
  match header_Decode buf with
  | None => Panic
  | Some (h, hlen) =>
      match slice_from buf hlen with
      | None => Panic
      | Some kv =>
          let build (kv : list byte) : result error Entry :=
            match slice kv 0 (header.klen h),
                  slice kv (header.klen h) (uint32 (header.klen h + header.vlen h)) with
            | Some k, Some v =>
                Ok {| meta := header.meta h;
                      UserMeta := header.userMeta h;
                      ExpiresAt := header.expiresAt h;
                      offset := offset;
                      Key := k;
                      Value := v;
                      hlen := 0 |}
            | _, _ => Panic
            end in
          match dataKey lf with
          | Some dk =>
              match decryptKV lf dk kv offset with
              | Ok kv => build kv
              | Err err => Err err
              | Panic => Panic
              end
          | None => build kv
          end
      end
  end.

(** [writeEntry]: resets the scratch buffer, encodes at [writeAt], copies
    into the mapped bytes and advances [writeAt]. Returns the log file and
    the buffer afterwards with the outcome. A failed assertion ends the
    process, which is [Panic]. *)
Definition writeEntry (lf : logFile) (buf : list byte) (e : Entry)
  : logFile * list byte * result error unit :=
  let buf := @nil byte in
  match encodeEntry lf buf e (writeAt lf) with
  | (buf, Err err) => (lf, buf, Err err)
  | (buf, Panic) => (lf, buf, Panic)
  | (buf, Ok plen) =>
      match slice_from (lfData lf) (writeAt lf) with
      | None => (lf, buf, Panic)
      | Some dst =>
          let '(dst', n) := copy dst buf in
          let lf := set_Data lf (firstn (Z.to_nat (writeAt lf)) (lfData lf) ++ dst') in
          if plen =? n
          then (set_writeAt lf (uint32 (writeAt lf + uint32 plen)), buf, Ok tt)
          else (lf, buf, Panic)
      end
  end.

(** [z.ZeroOut(dst, start, end)] of ristretto: zeroes the bytes in
    [[start, end)], clipped to the slice; nothing when [start] is out of
    range or the range is empty. *)
Definition ZeroOut (dst : list byte) (start end_ : Z) : list byte :=
  if (start <? 0) || (len dst <=? start) then dst
  else
    let end_ := if len dst <=? end_ then len dst else end_ in
    if end_ - start <=? 0 then dst
    else firstn (Z.to_nat start) dst
           ++ repeat x00 (Z.to_nat (end_ - start))
           ++ skipn (Z.to_nat end_) dst.

(** [reset]; a nil log file is left alone. *)
Definition reset (lf : option logFile) : option logFile :=
  match lf with
  | None => None
  | Some lf =>
      let lf := set_Data lf (ZeroOut (lfData lf) vlogHeaderSize (writeAt lf)) in
      Some (set_writeAt lf vlogHeaderSize)
  end.

(** [bootstrap]: the latest data key, the key id and a fresh base IV in
    the first [vlogHeaderSize] bytes. [rnd] is what [cryptorand.Read]
    delivers: the random bytes, or its error. *)
Definition bootstrap (lf : logFile) (rnd : result error (list byte))
  : logFile * result error unit :=
  match KeyRegistry.latestDataKey (registry lf) with
  | Err err =>
      (lf, Err (Wrapf err "Error while retrieving datakey in logFile.bootstarp"))
  | Panic => (lf, Panic)
  | Ok dk =>
      let lf := set_key lf dk (baseIV lf) in
      let buf := repeat x00 (Z.to_nat vlogHeaderSize) in
      let buf := binary.PutUint64 (keyID lf) ++ skipn 8 buf in
      match rnd with
      | Err err =>
          (lf, Err (Wrapf err "Error while creating base IV, while creating logfile"))
      | Panic => (lf, Panic)
      | Ok r =>
          let buf := firstn 8 buf ++ fst (copy (skipn 8 buf) r) in
          let lf := set_key lf dk (skipn 8 buf) in
          if len (baseIV lf) =? 12 then
            let '(d, n) := copy (lfData lf) buf in
            let lf := set_Data lf d in
            if vlogHeaderSize =? n then (lf, Ok tt) else (lf, Panic)
          else (lf, Panic)
      end
  end.

End Codec.

(** ** Replay iterator *)

(** The callback type [logEntry], with the state [S] the callback works
    on passed through. *)
Definition logEntry (S : Type) : Type :=
  Entry -> valuePointer.t -> S -> S * result error unit.

(** The local variables of [iterate] that live across the loop, and the
    callback's state. *)
Record iterState (S : Type) : Type := {
  recordOffset : Z;
  lastCommit : Z;
  validEndOffset : Z;
  entries : list Entry;
  vptrs : list valuePointer.t;
  cbState : S
}.
Arguments recordOffset {S} _.
Arguments lastCommit {S} _.
Arguments validEndOffset {S} _.
Arguments entries {S} _.
Arguments vptrs {S} _.
Arguments cbState {S} _.

(** How one pass through the loop body ends. *)
Inductive flow (S : Type) : Type :=
| Continue (st : iterState S)            (* next iteration *)
| BreakLoop (st : iterState S)           (* break loop *)
| Return (s : S) (r : result error Z).   (* return from iterate *)
Arguments Continue {S} st.
Arguments BreakLoop {S} st.
Arguments Return {S} s r.

(** An entry with its [offset] field set. *)
Definition with_offset (e : Entry) (off : Z) : Entry :=
  {| Key := Key e; Value := Value e; UserMeta := UserMeta e;
     ExpiresAt := ExpiresAt e; meta := meta e;
     offset := off; hlen := hlen e |}.

Section Iterate.
Context `{Collaborators}.

(** Modelled from the spec: [safeRead.Entry] is declared outside
    memtable.go. It returns the next record of the reader, the entry
    remembering the byte offset at which the record began; a reader with
    nothing left reports [io.EOF]. *)
Definition safeRead_Entry (recordOffset : Z) (reader : list readResult)
  : readResult * list readResult :=
  match reader with
  | [] => ((None, Some io_EOF), [])
  | (e, err) :: rest =>
      ((option_map (fun e => with_offset e recordOffset) e, err), rest)
  end.

(** Modelled from the spec: [e.isZero()] on the pointer [read.Entry]
    returned. [Entry.isZero] is declared outside memtable.go; the spec stops
    the replay on a zero header and handles read errors by their kind, so a
    nil entry, which comes with an error or an empty read, is not taken to
    be a zero entry. *)
Definition isZero_ptr (e : option Entry) : bool :=
  match e with
  | Some e => isZero e
  | None => false
  end.

Definition err_is (err : option error) (target : error) : bool :=
  match err with
  | Some err => error_eqb err target
  | None => false
  end.

Definition has_bit (m bit : byte) : bool :=
  Z.land (byte_to_Z m) (byte_to_Z bit) >? 0.

(** The [for i, e := range entries] loop of the FIN_TXN case: [errStop]
    breaks out of this loop, any other error is returned. *)
Fixpoint deliver {S : Type} (fn : logEntry S) (lfpath : string)
         (es : list Entry) (vps : list valuePointer.t) (s : S)
  : S * result error unit :=
  match es with
  | [] => (s, Ok tt)
  | e :: es' =>
      match vps with
      | [] => (s, Panic)
      | vp :: vps' =>
          match fn e vp s with
          | (s, Ok _) => deliver fn lfpath es' vps' s
          | (s, Err err) =>
              if error_eqb err errStop then (s, Ok tt)
              else (s, Err (errFile err lfpath "Iteration function"))
          | (s, Panic) => (s, Panic)
          end
      end
  end.

(** The body of the loop, on the result of [read.Entry]. *)
Definition iterate_body {S : Type} (lf : logFile) (fn : logEntry S)
           (st : iterState S) (r : readResult) : flow S :=
  let '(e, err) := r in
  if err_is err io_EOF || isZero_ptr e then BreakLoop st
  else if err_is err io_ErrUnexpectedEOF || err_is err errTruncate then BreakLoop st
  else
    match err with
    | Some err => Return (cbState st) (Err err)
    | None =>
        match e with
        | None => Continue st
        | Some e =>
            let vpLen := uint32 (hlen e + len (Key e) + len (Value e) + crc32.Size) in
            let recordOffset' := uint32 (recordOffset st + vpLen) in
            let vp := {| valuePointer.Fid := fid lf;
                         valuePointer.Len := vpLen;
                         valuePointer.Offset := offset e |} in
            if has_bit (meta e) bitTxn then
              let txnTs := ParseTs (Key e) in
              let lastCommit' :=
                if lastCommit st =? 0 then txnTs else lastCommit st in
              if negb (lastCommit' =? txnTs) then
                BreakLoop {| recordOffset := recordOffset';
                             lastCommit := lastCommit';
                             validEndOffset := validEndOffset st;
                             entries := entries st; vptrs := vptrs st;
                             cbState := cbState st |}
              else
                Continue {| recordOffset := recordOffset';
                            lastCommit := lastCommit';
                            validEndOffset := validEndOffset st;
                            entries := entries st ++ [e];
                            vptrs := vptrs st ++ [vp];
                            cbState := cbState st |}
            else if has_bit (meta e) bitFinTxn then
              match strconv.ParseUint (Value e) with
              | None =>
                  BreakLoop {| recordOffset := recordOffset';
                               lastCommit := lastCommit st;
                               validEndOffset := validEndOffset st;
                               entries := entries st; vptrs := vptrs st;
                               cbState := cbState st |}
              | Some txnTs =>
                  if negb (lastCommit st =? txnTs) then
                    BreakLoop {| recordOffset := recordOffset';
                                 lastCommit := lastCommit st;
                                 validEndOffset := validEndOffset st;
                                 entries := entries st; vptrs := vptrs st;
                                 cbState := cbState st |}
                  else
                    match deliver fn (path lf) (entries st) (vptrs st) (cbState st) with
                    | (s, Ok _) =>
                        Continue {| recordOffset := recordOffset';
                                    lastCommit := 0;
                                    validEndOffset := recordOffset';
                                    entries := []; vptrs := [];
                                    cbState := s |}
                    | (s, Err err) => Return s (Err err)
                    | (s, Panic) => Return s Panic
                    end
              end
            else
              if negb (lastCommit st =? 0) then
                BreakLoop {| recordOffset := recordOffset';
                             lastCommit := lastCommit st;
                             validEndOffset := validEndOffset st;
                             entries := entries st; vptrs := vptrs st;
                             cbState := cbState st |}
              else
                let next (s : S) :=
                  Continue {| recordOffset := recordOffset';
                              lastCommit := lastCommit st;
                              validEndOffset := recordOffset';
                              entries := entries st; vptrs := vptrs st;
                              cbState := s |} in
                match fn e vp (cbState st) with
                | (s, Ok _) => next s
                | (s, Err err) =>
                    (* [break] leaves the switch, not the loop *)
                    if error_eqb err errStop then next s
                    else Return s (Err (errFile err (path lf) "Iteration function"))
                | (s, Panic) => Return s Panic
                end
        end
    end.

(** The loop: one [read.Entry] per pass, until the body breaks or
    returns. The reader left by [safeRead_Entry] is the tail of the list;
    on the empty reader the read reports [io.EOF] and the body breaks. *)
Fixpoint iterate_loop {S : Type} (lf : logFile) (fn : logEntry S)
         (reader : list readResult) (st : iterState S) : S * result error Z :=
  match iterate_body lf fn st (fst (safeRead_Entry (recordOffset st) reader)) with
  | Continue st' =>
      match reader with
      | [] => (cbState st', Ok (validEndOffset st'))
      | _ :: rest => iterate_loop lf fn rest st'
      end
  | BreakLoop st' => (cbState st', Ok (validEndOffset st'))
  | Return s r => (s, r)
  end.

(** [iterate]; [readOnly] is not used by the source. *)
Definition iterate {S : Type} (lf : logFile) (readOnly : bool) (offset : Z)
           (fn : logEntry S) (s : S) : S * result error Z :=
  let offset := if offset =? 0 then vlogHeaderSize else offset in
  let reader := NewReader lf offset in
  iterate_loop lf fn reader
    {| recordOffset := offset; lastCommit := 0; validEndOffset := offset;
       entries := []; vptrs := []; cbState := s |}.

End Iterate.

(** ** Memtable *)

Record Options : Type := {
  Dir : string;
  ValueLogFileSize : Z   (* int64 *)
}.

Record memTable : Type := {
  sl : option Skiplist;
  wal : option logFile;
  ref : Z;               (* int32 *)
  nextTxnTs : Z;         (* uint64 *)
  opt : Options;
  buf : option (list byte)
}.

Definition set_sl (mt : memTable) (s : option Skiplist) : memTable :=
  {| sl := s; wal := wal mt; ref := ref mt; nextTxnTs := nextTxnTs mt;
     opt := opt mt; buf := buf mt |}.

Definition set_wal (mt : memTable) (lf : option logFile) : memTable :=
  {| sl := sl mt; wal := lf; ref := ref mt; nextTxnTs := nextTxnTs mt;
     opt := opt mt; buf := buf mt |}.

Definition set_ref (mt : memTable) (r : Z) : memTable :=
  {| sl := sl mt; wal := wal mt; ref := r; nextTxnTs := nextTxnTs mt;
     opt := opt mt; buf := buf mt |}.

Definition set_nextTxnTs (mt : memTable) (ts : Z) : memTable :=
  {| sl := sl mt; wal := wal mt; ref := ref mt; nextTxnTs := ts;
     opt := opt mt; buf := buf mt |}.

Definition set_buf (mt : memTable) (b : option (list byte)) : memTable :=
  {| sl := sl mt; wal := wal mt; ref := ref mt; nextTxnTs := nextTxnTs mt;
     opt := opt mt; buf := b |}.

Section MemTable.
Context `{Collaborators}.

(** A call on the mapped file that leaves this package: it is recorded,
    and returns what [callErr] says. *)
Definition call (m : MmapFile.t) (c : fileCall) : MmapFile.t * option error :=
  ({| MmapFile.Data := MmapFile.Data m; MmapFile.Name := MmapFile.Name m;
      MmapFile.calls := MmapFile.calls m ++ [c] |},
   callErr m c).

Definition with_Data (m : MmapFile.t) (d : list byte) : MmapFile.t :=
  {| MmapFile.Data := d; MmapFile.Name := MmapFile.Name m;
     MmapFile.calls := MmapFile.calls m |}.

(** The bytes of a file cut or zero-extended to [n] bytes. *)
Definition resize (d : list byte) (n : Z) : list byte :=
  firstn (Z.to_nat n) d ++ repeat x00 (Z.to_nat n - length d).

(** [z.MmapFile.Truncate(maxSz)] of ristretto: syncs, truncates the file
    and maps it again at the new size. *)
Definition MmapFile_Truncate (m : MmapFile.t) (maxSz : Z)
  : MmapFile.t * option error :=
  match call m (CallTruncate maxSz) with
  | (m, Some err) => (m, Some err)
  | (m, None) => (with_Data m (resize (MmapFile.Data m) maxSz), None)
  end.

(** [z.MmapFile.Delete()] of ristretto: unmaps and removes the file. *)
Definition MmapFile_Delete (m : MmapFile.t) : MmapFile.t * option error :=
  match call m CallDelete with
  | (m, Some err) => (m, Some err)
  | (m, None) => (with_Data m [], None)
  end.

(** [munmap]. *)
Definition munmap (lf : logFile) : logFile * option error :=
  match loadingMode lf with
  | FileIO => (lf, None)
  | MemoryMap =>
      if len (lfData lf) =? 0 then (lf, None)
      else
        match call (mf lf) CallMunmap with
        | (m, Some err) =>
            (set_mf lf m, Some (Wrapf err ("Unable to munmap value log: " ++ path lf)))
        | (m, None) => (set_mf lf (with_Data m []), None)
        end
  end.

(** [doneWriting]: sync, unmap, truncate the file to [offset], map it
    again. Modelled from the spec: [logFile.init] is declared outside
    memtable.go; it maps the entire file again, so the mapped bytes
    afterwards are the file's bytes cut to [offset]. *)
Definition doneWriting (lf : logFile) (offset : Z) : logFile * option error :=
  let bytes := lfData lf in
  match call (mf lf) CallMsync with
  | (m, Some err) =>
      (set_mf lf m, Some (Wrapf err ("Unable to sync value log: " ++ path lf)))
  | (m, None) =>
      match munmap (set_mf lf m) with
      | (lf, Some err) =>
          (lf, Some (Wrapf err ("failed to munmap vlog file " ++ MmapFile.Name (mf lf))))
      | (lf, None) =>
          match call (mf lf) (CallFdTruncate (int64 offset)) with
          | (m, Some err) =>
              (set_mf lf m, Some (Wrapf err ("Unable to truncate file: " ++ path lf)))
          | (m, None) =>
              match call m CallInit with
              | (m, Some err) =>
                  (set_mf lf m,
                   Some (Wrapf err ("failed to initialize file " ++ MmapFile.Name m)))
              | (m, None) => (set_mf lf (with_Data m (resize bytes offset)), None)
              end
          end
      end
  end.

(** [Put]. A nil buffer or log file panics inside [writeEntry], a nil
    skiplist inside [sl.Put]. *)
Definition Put (mt : memTable) (key : list byte) (value : ValueStruct.t)
  : memTable * result error unit :=
  let entry := {| Key := key;
                  Value := ValueStruct.Value value;
                  UserMeta := ValueStruct.UserMeta value;
                  meta := ValueStruct.Meta value;
                  ExpiresAt := ValueStruct.ExpiresAt value;
                  offset := 0; hlen := 0 |} in
  match buf mt, wal mt with
  | Some b, Some lf =>
      match writeEntry lf b entry with
      | (lf, b, Err err) =>
          (set_buf (set_wal mt (Some lf)) (Some b),
           Err (Wrapf err "cannot write entry to WAL file"))
      | (lf, b, Panic) => (set_buf (set_wal mt (Some lf)) (Some b), Panic)
      | (lf, b, Ok _) =>
          let mt := set_buf (set_wal mt (Some lf)) (Some b) in
          match sl mt with
          | None => (mt, Panic)
          | Some s => (set_sl mt (Some (skl.Put s key value)), Ok tt)
          end
      end
  | _, _ => (mt, Panic)
  end.

(** The closure returned by [replayFunction]; it works on the memtable it
    captured. The [first] flag only guards a debug line. *)
Definition replayFunction (o : Options) : logEntry memTable :=
  fun (e : Entry) (_ : valuePointer.t) (mt : memTable) =>
    let ts := ParseTs (Key e) in
    let mt := if ts >? nextTxnTs mt then set_nextTxnTs mt ts else mt in
    let v := {| ValueStruct.Value := Value e;
                ValueStruct.Meta := meta e;
                ValueStruct.UserMeta := UserMeta e;
                ValueStruct.ExpiresAt := ExpiresAt e |} in
    match sl mt with
    | None => (mt, Panic)
    | Some s => (set_sl mt (Some (skl.Put s (Key e) v)), Ok tt)
    end.

(** [UpdateSkipList]. *)
Definition UpdateSkipList (mt : memTable) : memTable * result error unit :=
  match wal mt, sl mt with
  | Some lf, Some _ =>
      match iterate lf true 0 (replayFunction (opt mt)) mt with
      | (mt, Err err) =>
          (mt, Err (Wrapf err ("while iterating wal: " ++ MmapFile.Name (mf lf))))
      | (mt, Panic) => (mt, Panic)
      | (mt, Ok endOff) =>
          match wal mt with
          | None => (mt, Panic)
          | Some lf =>
              match MmapFile_Truncate (mf lf) (int64 endOff) with
              | (m, Some err) => (set_wal mt (Some (set_mf lf m)), Err err)
              | (m, None) => (set_wal mt (Some (set_mf lf m)), Ok tt)
              end
          end
      end
  | _, _ => (mt, Ok tt)
  end.

(** [IncrRef]: [atomic.AddInt32(&mt.ref, 1)]. *)
Definition IncrRef (mt : memTable) : memTable :=
  set_ref mt (int32 (ref mt + 1)).

(** [DecrRef]: [atomic.AddInt32(&mt.ref, -1)], then the release when the
    new count is not positive. The second component tells whether the
    call panicked on a nil skiplist or log file. *)
Definition DecrRef (mt : memTable) : memTable * result error unit :=
  let newRef := int32 (ref mt - 1) in
  let mt := set_ref mt newRef in
  if newRef >? 0 then (mt, Ok tt)
  else
    match sl mt with
    | None => (mt, Panic)
    | Some s =>
        let mt := set_sl mt (Some (skl.ReclaimMem s)) in
        match wal mt with
        | None => (mt, Panic)
        | Some lf =>
            (set_wal mt (Some (set_mf lf (fst (MmapFile_Delete (mf lf))))), Ok tt)
        end
    end.

End MemTable.

(** ** Directory recovery *)

Definition memFileExt : string := ".mem".

Record DB : Type := {
  db_opt : Options;
  db_registry : KeyRegistry.t;
  imm : list memTable;
  nextMemFid : Z         (* int *)
}.

Definition set_imm (db : DB) (l : list memTable) : DB :=
  {| db_opt := db_opt db; db_registry := db_registry db; imm := l;
     nextMemFid := nextMemFid db |}.

Definition set_nextMemFid (db : DB) (n : Z) : DB :=
  {| db_opt := db_opt db; db_registry := db_registry db; imm := imm db;
     nextMemFid := n |}.

(** [strings.HasSuffix]. *)
Definition HasSuffix (s suffix : string) : bool :=
  (String.length suffix <=? String.length s)%nat &&
  String.eqb
    (substring (String.length s - String.length suffix) (String.length suffix) s)
    suffix.

(** [sort.Slice(fids, func(i, j) bool { return fids[i] < fids[j] })]: the
    integers in ascending order. *)
Fixpoint insert_sorted (x : Z) (l : list Z) : list Z :=
  match l with
  | [] => [x]
  | y :: l' => if x <=? y then x :: l else y :: insert_sorted x l'
  end.

Definition sort_ints (l : list Z) : list Z := fold_right insert_sorted [] l.

(** [fmt.Sprintf("%05d", fid)]: the decimal digits padded with zeros to
    width five, the sign counting in the width. *)
Definition Sprintf_05d (fid : Z) : string :=
  let digits := strconv.FormatUint (Z.abs fid) in
  let width := if fid <? 0 then 4%nat else 5%nat in
  string_of_list_byte
    ((if fid <? 0 then [x2d] else []) ++
     repeat x30 (width - length digits) ++ digits).

(** The names of the directory that end in [memFileExt], parsed to file
    ids; the first name that does not parse is returned as the error. *)
Fixpoint parse_fids (files : list string) (fids : list Z)
  : result error (list Z) :=
  match files with
  | [] => Ok fids
  | name :: rest =>
      if negb (HasSuffix name memFileExt) then parse_fids rest fids
      else
        let fsz := String.length name in
        match strconv.ParseInt
                (ascii_bytes (substring 0 (fsz - String.length memFileExt) name)) with
        | None =>
            Err (errFile (OtherError "strconv.ParseInt") name "Unable to parse log id.")
        | Some fid => parse_fids rest (fids ++ [int64 fid])
        end
  end.

(** Package [path] of the Go library: slash-separated paths. *)
Module path.

(** The elements of a path, the pieces between its slashes. *)
Fixpoint split (p : string) : list string :=
  match p with
  | EmptyString => [EmptyString]
  | String c p' =>
      if Ascii.eqb c "/" then EmptyString :: split p'
      else match split p' with
           | h :: t => String c h :: t
           | [] => [String c EmptyString]
           end
  end.

(** One element in [Clean], [kept] being the elements kept so far, the
    last first: an empty element and [.] are dropped; [..] removes the
    element before it, is dropped at the root and is kept where there is
    nothing to remove. *)
Definition clean_step (rooted : bool) (kept : list string) (elem : string)
  : list string :=
  if String.eqb elem EmptyString || String.eqb elem "." then kept
  else if String.eqb elem ".." then
    match kept with
    | top :: rest => if String.eqb top ".." then elem :: kept else rest
    | [] => if rooted then [] else [elem]
    end
  else elem :: kept.

(** [path.Clean]: the shortest path equivalent to [p] by purely lexical
    processing; [.] when that is the empty string. *)
Definition Clean (p : string) : string :=
  let rooted := match p with
                | String c _ => Ascii.eqb c "/"
                | EmptyString => false
                end in
  let kept := fold_left (clean_step rooted) (split p) [] in
  let out := ((if rooted then "/" else EmptyString) ++ String.concat "/" (rev kept))%string in
  if String.eqb out EmptyString then "."%string else out.

(** [path.Join]: empty elements are ignored, the others joined by slashes
    and the result cleaned; the empty string when every element is
    empty. *)
Definition Join (elem : list string) : string :=
  match filter (fun e => negb (String.eqb e EmptyString)) elem with
  | [] => EmptyString
  | es => Clean (String.concat "/" es)
  end.

End path.

Section Recovery.
Context `{Collaborators}.

(** [mtFilePath]: [path.Join] of the directory and the file's name. *)
Definition mtFilePath (db : DB) (fid : Z) : string :=
  path.Join [Dir (db_opt db); (Sprintf_05d fid ++ memFileExt)%string].

(** The random bytes [bootstrap] asks [cryptorand.Read] for: it asks the
    registry first, and draws nothing when the registry has no answer. *)
Definition bootstrap_random (lf : logFile) (w : World)
  : World * result error (list byte) :=
  match KeyRegistry.latestDataKey (registry lf) with
  | Ok _ => cryptorand_Read w
  | _ => (w, Panic)
  end.

(** [logFile.open]. *)
Definition open (lf : logFile) (w : World) (path : string) (o : Options)
  : World * logFile * result error unit :=
  let '(w, (m, ferr)) := OpenMmapFile w path (int64 (2 * int64 (ValueLogFileSize o))) in
  let lf := set_mf lf m in
  let continue (w : World) (lf : logFile) : World * logFile * result error unit :=
    let '(buf, n) := copy (repeat x00 (Z.to_nat vlogHeaderSize)) (lfData lf) in
    if vlogHeaderSize =? n then
      let keyID := binary.be_value (firstn 8 buf) in
      match KeyRegistry.dataKey (registry lf) keyID with
      | Err err => (w, lf, Err (Wrapf err "While opening vlog file"))
      | Panic => (w, lf, Panic)
      | Ok dk =>
          let lf := set_key lf dk (skipn 8 buf) in
          if len (baseIV lf) =? 12 then
            match ferr with
            | Some err => (w, lf, Err err)
            | None => (w, lf, Ok tt)
            end
          else (w, lf, Panic)
      end
    else (w, lf, Panic) in
  if err_is ferr z_NewFile then
    let '(w, rnd) := bootstrap_random lf w in
    match bootstrap lf rnd with
    | (lf, Err err) => (os_Remove w path, lf, Err err)
    | (lf, Panic) => (w, lf, Panic)
    | (lf, Ok _) => continue w lf
    end
  else
    match ferr with
    | Some err => (w, lf, Err (Wrapf err ("while opening file: " ++ path)))
    | None => continue w lf
    end.

(** [openMemTable]: the Go pair [(mt, err)]. *)
Definition openMemTable (db : DB) (w : World) (fid : Z)
  : World * (option memTable * result error unit) :=
  let filepath := mtFilePath db fid in
  let lf := {| mf := {| MmapFile.Data := []; MmapFile.Name := filepath;
                        MmapFile.calls := [] |};
               path := filepath; fid := uint32 fid; size := 0;
               loadingMode := MemoryMap; dataKey := None; baseIV := [];
               registry := db_registry db; writeAt := vlogHeaderSize |} in
  let '(w, lf, lerr) := open lf w filepath (db_opt db) in
  let mt := {| wal := Some lf; sl := Some skl.NewSkiplist; ref := 1;
               nextTxnTs := 0; opt := db_opt db; buf := None |} in
  match lerr with
  | Panic => (w, (None, Panic))
  | Err err =>
      if error_eqb err z_NewFile then (w, (Some mt, Ok tt))
      else (w, (None, Err (Wrapf err "While opening mem table")))
  | Ok _ =>
      let '(mt, err) := UpdateSkipList mt in
      (w, (Some mt, err))
  end.

(** The second loop of [openMemTables]: one memtable per file id, each
    appended to [db.imm]. *)
Fixpoint open_all (db : DB) (w : World) (fids : list Z)
  : World * DB * result error unit :=
  match fids with
  | [] => (w, db, Ok tt)
  | fid :: rest =>
      match openMemTable db w fid with
      | (w, (Some mt, Ok _)) => open_all (set_imm db (imm db ++ [mt])) w rest
      | (w, (_, Err err)) => (w, db, Err err)
      | (w, (_, _)) => (w, db, Panic)
      end
  end.

(** [openMemTables]. *)
Definition openMemTables (db : DB) (w : World) (o : Options)
  : World * DB * result error unit :=
  match ReadDir w (Dir (db_opt db)) with
  | Err err => (w, db, Err (errFile err (Dir (db_opt db)) "Unable to open mem dir."))
  | Panic => (w, db, Panic)
  | Ok files =>
      match parse_fids files [] with
      | Err err => (w, db, Err err)
      | Panic => (w, db, Panic)
      | Ok fids =>
          let fids := sort_ints fids in
          match open_all db w fids with
          | (w, db, Ok _) =>
              let db :=
                if negb (len fids =? 0)
                then set_nextMemFid db (last fids 0)
                else db in
              (w, set_nextMemFid db (int64 (nextMemFid db + 1)), Ok tt)
          | (w, db, r) => (w, db, r)
          end
      end
  end.

(** [newMemTable]. *)
Definition newMemTable (db : DB) (w : World)
  : World * DB * (option memTable * result error unit) :=
  let '(w, r) := openMemTable db w (nextMemFid db) in
  (w, set_nextMemFid db (int64 (nextMemFid db + 1)), r).

End Recovery.

(** ** A sample instance of the collaborators

    Used to run the definitions on concrete logs: a toy key stream, the
    timestamp in the last eight bytes of the key, a plaintext record reader
    that checks lengths and checksums, file calls that never fail and a
    directory kept as a list of paths with their bytes. *)
Module Sample.

Definition toyStream (key iv : list byte) (i : nat) : byte :=
  byte_of_Z (byte_to_Z (nth (i mod 16) key x00)
             + byte_to_Z (nth (i mod 16) iv x00) + Z.of_nat i).

Definition lastEight (key : list byte) : Z :=
  if len key <=? 8 then 0
  else binary.be_value (skipn (length key - 8) key).

Definition emptyKey (e : Entry) : bool := len (Key e) =? 0.

(** One record after another, until the bytes run out or a record does
    not check. *)
Fixpoint read (fuel : nat) (data : list byte) : list readResult :=
  match fuel with
  | O => []
  | S fuel' =>
      match data with
      | [] => []
      | _ =>
          match header_Decode data with
          | None => [(None, Some errTruncate)]
          | Some (h, hl) =>
              let kl := Z.to_nat (header.klen h) in
              let vl := Z.to_nat (header.vlen h) in
              let kv := skipn (Z.to_nat hl) data in
              if (length kv <? kl + vl + 4)%nat then [(None, Some errTruncate)]
              else
                let sum := binary.be_value (firstn 4 (skipn (kl + vl) kv)) in
                if sum =? crc32.Checksum (firstn (Z.to_nat hl + kl + vl) data)
                            crc32.CastagnoliCrcTable
                then
                  (Some {| Key := firstn kl kv;
                           Value := firstn vl (skipn kl kv);
                           UserMeta := header.userMeta h;
                           ExpiresAt := header.expiresAt h;
                           meta := header.meta h;
                           offset := 0; hlen := hl |}, None)
                    :: read fuel' (skipn (kl + vl + 4) kv)
                else [(None, Some errTruncate)]
          end
      end
  end.

Definition plainReader (lf : logFile) (offset : Z) : list readResult :=
  read (length (lfData lf)) (skipn (Z.to_nat offset) (lfData lf)).

Definition Files : Type := list (string * list byte).

Fixpoint lookup (w : Files) (p : string) : option (list byte) :=
  match w with
  | [] => None
  | (q, d) :: w' => if String.eqb p q then Some d else lookup w' p
  end.

(** The names in [dir]: the paths with [dir/] in front, without it. *)
Definition listDir (w : Files) (dir : string) : result error (list string) :=
  let pre := (dir ++ "/")%string in
  Ok (List.map
        (fun p => substring (String.length pre)
                            (String.length (fst p) - String.length pre) (fst p))
        (List.filter (fun p => prefix pre (fst p)) w)).

Definition openFile (w : Files) (p : string) (sz : Z)
  : Files * (MmapFile.t * option error) :=
  match lookup w p with
  | Some d =>
      (w, ({| MmapFile.Data := d; MmapFile.Name := p; MmapFile.calls := [] |}, None))
  | None =>
      let d := repeat x00 (Z.to_nat sz) in
      ((p, d) :: w,
       ({| MmapFile.Data := d; MmapFile.Name := p; MmapFile.calls := [] |},
        Some z_NewFile))
  end.

Definition removeFile (w : Files) (p : string) : Files :=
  List.filter (fun q => negb (String.eqb p (fst q))) w.

Definition fixedRandom (w : Files) : Files * result error (list byte) :=
  (w, Ok [x01; x02; x03; x04; x05; x06; x07; x08; x09; x0a; x0b; x0c]).

Definition collaborators : Collaborators :=
  {| bitTxn := x40;
     bitFinTxn := x80;
     keystream := toyStream;
     ParseTs := lastEight;
     isZero := emptyKey;
     NewReader := plainReader;
     callErr := fun _ _ => None;
     World := Files;
     ReadDir := listDir;
     OpenMmapFile := openFile;
     os_Remove := removeFile;
     cryptorand_Read := fixedRandom |}.

(** A registry with no keys: every file is plaintext. *)
Definition plainRegistry : KeyRegistry.t :=
  {| KeyRegistry.latestDataKey := Ok None;
     KeyRegistry.dataKey := fun _ => Ok None |}.

(** A registry with one 16-byte key, of id 7. *)
Definition dataKey7 : DataKey.t :=
  {| DataKey.KeyId := 7;
     DataKey.Data := [x10; x11; x12; x13; x14; x15; x16; x17;
                      x18; x19; x1a; x1b; x1c; x1d; x1e; x1f] |}.

Definition keyRegistry : KeyRegistry.t :=
  {| KeyRegistry.latestDataKey := Ok (Some dataKey7);
     KeyRegistry.dataKey :=
       fun id => if id =? 7 then Ok (Some dataKey7)
                 else if id =? 0 then Ok None
                 else Err (OtherError "key not found") |}.

Definition base_iv : list byte :=
  [x01; x02; x03; x04; x05; x06; x07; x08; x09; x0a; x0b; x0c].

(** A log file of [n] mapped bytes: the header, then zeros. *)
Definition logFile_of (reg : KeyRegistry.t) (dk : option DataKey.t) (n : nat)
  : logFile :=
  {| mf := {| MmapFile.Data :=
                binary.PutUint64 (match dk with Some k => DataKey.KeyId k | None => 0 end)
                  ++ base_iv ++ repeat x00 (n - 20);
              MmapFile.Name := "dir/00001.mem";
              MmapFile.calls := [] |};
     path := "dir/00001.mem"; fid := 1; size := 0; loadingMode := MemoryMap;
     dataKey := dk; baseIV := base_iv; registry := reg;
     writeAt := vlogHeaderSize |}.

Definition entry (key value : string) (m : byte) : Entry :=
  {| Key := ascii_bytes key; Value := ascii_bytes value; UserMeta := x00;
     ExpiresAt := 0; meta := m; offset := 0; hlen := 0 |}.

(** An encrypted log file of 64 mapped bytes. *)
Definition encryptedLog : logFile := logFile_of keyRegistry (Some dataKey7) 64.

(** A plaintext log file of 200 mapped bytes. *)
Definition plainLog : logFile := logFile_of plainRegistry None 200.

(** A key with its timestamp, and a record as the reader returns it: a
    header of five bytes, the offset not yet filled in. *)
Definition keyTs (k : string) (ts : Z) : list byte :=
  ascii_bytes k ++ binary.PutUint64 ts.

Definition rec (k : string) (ts : Z) (v : string) (m : byte) : Entry :=
  {| Key := keyTs k ts; Value := ascii_bytes v; UserMeta := x00;
     ExpiresAt := 0; meta := m; offset := 0; hlen := 5 |}.

Definition append (lf : logFile) (e : Entry) : logFile :=
  fst (fst (@writeEntry collaborators lf [] e)).

Definition rec_a : Entry := rec "a" 5 "A" x00.
Definition rec_b : Entry := rec "b" 5 "B" x00.
Definition rec_x : Entry := rec "x" 9 "X" x40.
Definition rec_y : Entry := rec "y" 9 "Y" x40.
Definition rec_fin : Entry := rec "!txn" 9 "9" x80.
Definition rec_z : Entry := rec "z" 11 "Z" x40.

(** A log with a record outside transactions, a committed transaction
    and the first entry of a transaction that was never committed. *)
Definition tornLog : logFile :=
  fold_left append [rec_a; rec_x; rec_y; rec_fin; rec_z] plainLog.

(** A log with two records outside transactions. *)
Definition twoSingles : logFile :=
  fold_left append [rec_a; rec_b] plainLog.

(** A log file whose data key has a length AES does not take. *)
Definition badKeyLog : logFile :=
  logFile_of keyRegistry
    (Some {| DataKey.KeyId := 8; DataKey.Data := [x01; x02; x03] |}) 64.

Definition options : Options := {| Dir := "dir"; ValueLogFileSize := 100 |}.

(** A memtable over a log file, with an empty sorted map, one reference
    and a scratch buffer. *)
Definition memTable_of (lf : logFile) : memTable :=
  {| sl := Some skl.NewSkiplist; wal := Some lf; ref := 1; nextTxnTs := 0;
     opt := options; buf := Some [] |}.

Definition value_A : ValueStruct.t :=
  {| ValueStruct.Meta := x00; ValueStruct.UserMeta := x00;
     ValueStruct.ExpiresAt := 0; ValueStruct.Value := ascii_bytes "A" |}.

(** A directory with two log files, of ids 1 and 3, and a file that is
    not a log; and a database that has not been opened yet. *)
Definition emptyLogBytes : list byte :=
  binary.PutUint64 0 ++ base_iv ++ repeat x00 44.

Definition files : Files :=
  [("dir/00003.mem"%string, emptyLogBytes);
   ("dir/MANIFEST"%string, []);
   ("dir/00001.mem"%string, lfData tornLog)].

Definition freshDB : DB :=
  {| db_opt := options; db_registry := plainRegistry; imm := [];
     nextMemFid := 0 |}.

(** An entry whose key and value are 2 GiB each. *)
Definition two_GiB : list byte := repeat x00 (Z.to_nat (2 ^ 31)).

Definition bigEntry : Entry :=
  {| Key := two_GiB; Value := two_GiB; UserMeta := x00; ExpiresAt := 0;
     meta := x00; offset := 0; hlen := 0 |}.

End Sample.

(** ** Vocabulary of the properties *)

Section Vocabulary.
Context `{Collaborators}.

(** The header [encodeEntry] builds for an entry. *)
Definition entryHeader (e : Entry) : header.t :=
  {| header.klen := uint32 (len (Key e));
     header.vlen := uint32 (len (Value e));
     header.expiresAt := ExpiresAt e;
     header.meta := meta e;
     header.userMeta := UserMeta e |}.

(** The key and value as [encodeEntry] writes them: under the key stream
    when the file has a data key, as they are otherwise. *)
Definition writtenKV (lf : logFile) (e : Entry) (offset : Z) : option (list byte) :=
  match dataKey lf with
  | None => Some (Key e ++ Value e)
  | Some dk =>
      match generateIV lf offset with
      | Some iv => Some (XORKeyStream (DataKey.Data dk) iv 0 (Key e ++ Value e))
      | None => None
      end
  end.

(** A callback that only records what it is called with, and one that
    records and asks to stop. *)
Definition recorder : logEntry (list (Entry * valuePointer.t)) :=
  fun e vp s => (s ++ [(e, vp)], Ok tt).

Definition stopper : logEntry (list (Entry * valuePointer.t)) :=
  fun e vp s => (s ++ [(e, vp)], Err errStop).



(** The length [iterate] computes for a record. *)
Definition recSize (e : Entry) : Z :=
  uint32 (hlen e + len (Key e) + len (Value e) + crc32.Size).

(** The file offset after the records [es] laid out from [off]. *)
Definition advance (off : Z) (es : list Entry) : Z :=
  fold_left (fun o e => uint32 (o + recSize e)) es off.

(** The records [es] laid out from [off]: each with the offset it begins
    at and the pointer [iterate] builds for it. *)
Fixpoint place (lf : logFile) (off : Z) (es : list Entry)
  : list (Entry * valuePointer.t) :=
  match es with
  | [] => []
  | e :: es' =>
      (with_offset e off,
       {| valuePointer.Fid := fid lf; valuePointer.Len := recSize e;
          valuePointer.Offset := off |})
        :: place lf (uint32 (off + recSize e)) es'
  end.









(** The fields of an entry that are read from the file. *)
Definition content (e : Entry) : list byte * list byte * byte * Z * byte :=
  (Key e, Value e, UserMeta e, ExpiresAt e, meta e).

(** A read result on which the loop of [iterate] stops without error. *)
Definition ends_data (r : readResult) : bool :=
  err_is (snd r) io_EOF || isZero_ptr (fst r)
  || err_is (snd r) io_ErrUnexpectedEOF || err_is (snd r) errTruncate.

Definition stamp (off : Z) (r : readResult) : readResult :=
  (option_map (fun e => with_offset e off) (fst r), snd r).

(** What follows the last record that was read whole: nothing, or a
    result that ends the data whatever the offset. *)
Definition tail_stops (tail : list readResult) : Prop :=
  match tail with
  | [] => True
  | r :: _ => forall off, ends_data (stamp off r) = true
  end.

(** A successful read of a record. *)
Definition ok_read (e : Entry) : readResult := (Some e, None).

(** The value [replayFunction] inserts for an entry. *)
Definition valueOf (e : Entry) : ValueStruct.t :=
  {| ValueStruct.Value := Value e;
     ValueStruct.Meta := meta e;
     ValueStruct.UserMeta := UserMeta e;
     ValueStruct.ExpiresAt := ExpiresAt e |}.

(** Two iterations that differ only in the callback and its state: the
    loop variables agree and the callback states are related by [R]. *)
Definition st_rel {S1 S2 : Type} (R : S1 -> S2 -> Prop)
           (a : iterState S1) (b : iterState S2) : Prop :=
  recordOffset a = recordOffset b /\ lastCommit a = lastCommit b /\
  validEndOffset a = validEndOffset b /\ entries a = entries b /\
  vptrs a = vptrs b /\ R (cbState a) (cbState b).

Definition flow_rel {S1 S2 : Type} (R : S1 -> S2 -> Prop)
           (f1 : flow S1) (f2 : flow S2) : Prop :=
  match f1, f2 with
  | Continue a, Continue b => st_rel R a b
  | BreakLoop a, BreakLoop b => st_rel R a b
  | Return s1 r1, Return s2 r2 => R s1 s2 /\ r1 = r2
  | _, _ => False
  end.

(** Two callbacks that return the same outcome on related states and
    keep the states related. *)
Definition fn_sim {S1 S2 : Type} (R : S1 -> S2 -> Prop)
           (fn1 : logEntry S1) (fn2 : logEntry S2) : Prop :=
  forall e vp s1 s2, R s1 s2 ->
    R (fst (fn1 e vp s1)) (fst (fn2 e vp s2))
    /\ snd (fn1 e vp s1) = snd (fn2 e vp s2).

(** The memtable after the replay of a list of deliveries: for each, the
    transaction timestamp raised to the key's and the entry put in the
    sorted map. *)
Definition replay_one (mt : memTable) (e : Entry) : memTable :=
  set_sl (set_nextTxnTs mt (Z.max (nextTxnTs mt) (ParseTs (Key e))))
         (option_map (fun s => skl.Put s (Key e) (valueOf e)) (sl mt)).

Definition replay_state (mt : memTable) (ds : list (Entry * valuePointer.t))
  : memTable :=
  fold_left (fun mt d => replay_one mt (fst d)) ds mt.


(** The calls made on a memtable's log file. *)
Definition wal_calls (mt : memTable) : list fileCall :=
  match wal mt with
  | Some lf => MmapFile.calls (mf lf)
  | None => []
  end.

(** How often the arena was reclaimed and the log file deleted. *)
Definition reclaims (mt : memTable) : nat :=
  match sl mt with
  | Some s =>
      length (filter (fun c => match c with SklReclaimMem => true | _ => false end) s)
  | None => 0
  end.

Definition deletes (mt : memTable) : nat :=
  length (filter (fun c => match c with CallDelete => true | _ => false end)
                 (wal_calls mt)).

(** A sequence of calls on the reference count. *)
Inductive refOp : Type := Incr | Decr.

Definition apply_op (mt : memTable) (op : refOp) : memTable :=
  match op with
  | Incr => IncrRef mt
  | Decr => fst (DecrRef mt)
  end.

Definition run_ops (ops : list refOp) (mt : memTable) : memTable :=
  fold_left apply_op ops mt.

Definition count_op (op : refOp) (ops : list refOp) : nat :=
  length (filter (fun o => match o, op with
                           | Incr, Incr | Decr, Decr => true
                           | _, _ => false
                           end) ops).

(** The count, starting from [c], stays positive and within [int32]
    after every call of the sequence. *)
Fixpoint stays_positive (c : Z) (ops : list refOp) : Prop :=
  match ops with
  | [] => True
  | op :: ops' =>
      let c' := match op with Incr => c + 1 | Decr => c - 1 end in
      0 < c' < 2 ^ 31 /\ stays_positive c' ops'
  end.

(** The calls that write into the mapped bytes of an open log file: an
    append and a reset. *)
Inductive fileOp : Type :=
| OpWrite (buf : list byte) (e : Entry)
| OpReset.

Definition apply_fileOp (lf : logFile) (op : fileOp) : logFile :=
  match op with
  | OpWrite buf e => fst (fst (writeEntry lf buf e))
  | OpReset =>
      match reset (Some lf) with
      | Some lf' => lf'
      | None => lf
      end
  end.

Definition run_fileOps (ops : list fileOp) (lf : logFile) : logFile :=
  fold_left apply_fileOp ops lf.


(** The entry [Put] hands to the log. *)
Definition entryOf (key : list byte) (value : ValueStruct.t) : Entry :=
  {| Key := key;
     Value := ValueStruct.Value value;
     UserMeta := ValueStruct.UserMeta value;
     meta := ValueStruct.Meta value;
     ExpiresAt := ValueStruct.ExpiresAt value;
     offset := 0; hlen := 0 |}.

End Vocabulary.

(** ** Reading a value through a pointer *)

(** [y.ErrEOF], declared in package [y]. *)
Definition y_ErrEOF : error := OtherError "y.ErrEOF".

(** The counters [y.NumReads] and [y.NumBytesRead], 64-bit integers. *)
Record readStats : Type := { NumReads : Z; NumBytesRead : Z }.

(** [read]: the Go pair [(buf, err)], or [None] when the slice expression
    panics, with the counters afterwards. In file mode the bytes come from
    [lf.Fd.ReadAt] on a buffer of [p.Len] bytes, which leaves this package:
    [ReadAt n off] is that buffer after the call, the count and the error
    the call returns. In mapped mode the pointer is checked against the
    mapped bytes and the file's size, [offset + valsz] being a sum of two
    [uint32]. *)
Definition read (ReadAt : Z -> Z -> list byte * Z * option error)
           (lf : logFile) (p : valuePointer.t) (st : readStats)
  : readStats * option (list byte * option error) :=
  let offset := valuePointer.Offset p in
  let count (nbr : Z) :=
    {| NumReads := int64 (NumReads st + 1);
       NumBytesRead := int64 (NumBytesRead st + nbr) |} in
  match loadingMode lf with
  | FileIO =>
      let '(b, n, err) := ReadAt (valuePointer.Len p) (int64 offset) in
      (count (int64 n), Some (b, err))
  | MemoryMap =>
      let sz := int64 (len (lfData lf)) in
      let valsz := valuePointer.Len p in
      let lfsz := size lf in
      if (sz <=? int64 offset) || (sz <? int64 (uint32 (offset + valsz)))
         || (int64 lfsz <? int64 (uint32 (offset + valsz)))
      then (count 0, Some ([], Some y_ErrEOF))
      else
        match slice (lfData lf) offset (uint32 (offset + valsz)) with
        | Some b => (count (int64 valsz), Some (b, None))
        | None => (st, None)
        end
  end.

(** ** Vocabulary of the further properties *)

Section MoreVocabulary.
Context `{Collaborators}.

(** The number of bytes a record takes: header, key, value and
    checksum. *)
Definition encodedLen (e : Entry) : Z :=
  len (header_Encode (entryHeader e)) + len (Key e) + len (Value e) + crc32.Size.

(** Appending a list of entries, one [writeEntry] after the other, up to
    the first that does not succeed. *)
Fixpoint writeAll (lf : logFile) (buf : list byte) (es : list Entry)
  : logFile * list byte * result error unit :=
  match es with
  | [] => (lf, buf, Ok tt)
  | e :: es' =>
      match writeEntry lf buf e with
      | (lf', buf', Ok _) => writeAll lf' buf' es'
      | r => r
      end
  end.

(** The records of a list of entries laid out from [off]: each encoded at
    the offset it begins at. *)
Fixpoint encodeAll (lf : logFile) (off : Z) (es : list Entry) : list byte :=
  match es with
  | [] => []
  | e :: es' =>
      let rec := fst (encodeEntry lf [] e off) in
      rec ++ encodeAll lf (off + len rec) es'
  end.

(** The calls [doneWriting] makes on the file when none of them fails:
    sync, unmap what is mapped, truncate, map again. *)
Definition doneWriting_calls (lf : logFile) (offset : Z) : list fileCall :=
  [CallMsync]
    ++ match loadingMode lf with
       | MemoryMap => if len (lfData lf) =? 0 then [] else [CallMunmap]
       | FileIO => []
       end
    ++ [CallFdTruncate (int64 offset); CallInit].

(** The calls of [doneWriting], each with the mapped file as the call
    finds it when the calls before it succeeded: the calls made so far are
    recorded in it, and after unmapping no bytes are mapped. *)
Definition doneWriting_steps (lf : logFile) (offset : Z)
  : list (MmapFile.t * fileCall) :=
  let m0 := mf lf in
  let m1 := fst (call m0 CallMsync) in
  let unmaps := match loadingMode lf with
                | MemoryMap => negb (len (lfData lf) =? 0)
                | FileIO => false
                end in
  let m2 := if unmaps then with_Data (fst (call m1 CallMunmap)) [] else m1 in
  let m3 := fst (call m2 (CallFdTruncate (int64 offset))) in
  [(m0, CallMsync)]
    ++ (if unmaps then [(m1, CallMunmap)] else [])
    ++ [(m2, CallFdTruncate (int64 offset)); (m3, CallInit)].

(** The first call of a list that fails, each tried on the file as it
    stands then: its place in the list, counted from 1, the call and its
    error. *)
Fixpoint first_failure (steps : list (MmapFile.t * fileCall))
  : option (nat * fileCall * error) :=
  match steps with
  | [] => None
  | (m, c) :: rest =>
      match callErr m c with
      | Some cause => Some (1%nat, c, cause)
      | None =>
          match first_failure rest with
          | Some (k, c', cause) => Some (Datatypes.S k, c', cause)
          | None => None
          end
      end
  end.

(** The error [doneWriting] makes of the error [cause] of the call [c];
    that of unmapping is wrapped twice, by [munmap] and by
    [doneWriting]. *)
Definition doneWriting_error (lf : logFile) (c : fileCall) (cause : error) : error :=
  match c with
  | CallMsync => Wrapf cause ("Unable to sync value log: " ++ path lf)
  | CallMunmap =>
      Wrapf (Wrapf cause ("Unable to munmap value log: " ++ path lf))
            ("failed to munmap vlog file " ++ MmapFile.Name (mf lf))
  | CallFdTruncate _ => Wrapf cause ("Unable to truncate file: " ++ path lf)
  | _ => Wrapf cause ("failed to initialize file " ++ MmapFile.Name (mf lf))
  end.

(** A record that only closes a transaction: the end bit without the
    transaction bit. *)
Definition end_record (e : Entry) : bool :=
  negb (has_bit (meta e) bitTxn) && has_bit (meta e) bitFinTxn.

(** The pointer [iterate] hands to the callback with an entry. *)
Definition pointer_of (lf : logFile) (e : Entry) : valuePointer.t :=
  {| valuePointer.Fid := fid lf; valuePointer.Len := recSize e;
     valuePointer.Offset := offset e |}.

(** The entries of the results of the log that came without error, in
    the order of the log. *)
Definition read_entries (rs : list readResult) : list Entry :=
  flat_map (fun r => match r with
                     | (Some e, None) => [e]
                     | _ => []
                     end) rs.

(** The entry [e] handed to the callback is an entry that was read from
    the log without error, and its offset is the place of its record: the
    offset [start] at which the reading began, advanced by the length of
    each record read before it, in 32 bits. *)
Definition read_at (reader : list readResult) (start : Z) (e : Entry) : Prop :=
  exists pre e0 post,
    reader = pre ++ (Some e0, None) :: post
    /\ e = with_offset e0 (advance start (read_entries pre)).

(** The entry [e] was read from the log and an end record was read after
    it: a record with the end bit and without the transaction bit whose
    value is a decimal number, the commit timestamp, which the timestamp of
    the entry's key equals unless that is 0. *)
Definition closed_by (reader : list readResult) (e : Entry) : Prop :=
  exists pre e0 off mid fin post ts,
    reader = pre ++ (Some e0, None) :: mid ++ (Some fin, None) :: post /\
    e = with_offset e0 off /\
    end_record fin = true /\
    strconv.ParseUint (Value fin) = Some ts /\
    (ParseTs (Key e) = ts \/ ParseTs (Key e) = 0).

(** What [iterate] holds after reading [done] from the offset [start],
    with a callback that records what it is given: the staged entries
    carry the transaction bit, were read from the log at the place of
    their record and have the timestamp of the open transaction or 0, and
    the pointers staged with them are theirs. *)
Definition staged_ok (done : list readResult) (start lc : Z) (e : Entry) : Prop :=
  has_bit (meta e) bitTxn = true
  /\ (ParseTs (Key e) = lc \/ ParseTs (Key e) = 0)
  /\ read_at done start e.

Definition delivered_ok (lf : logFile) (done : list readResult) (start : Z)
           (d : Entry * valuePointer.t) : Prop :=
  read_at done start (fst d)
  /\ snd d = pointer_of lf (fst d)
  /\ end_record (fst d) = false
  /\ (has_bit (meta (fst d)) bitTxn = true -> closed_by done (fst d)).

Definition replay_inv (lf : logFile) (done : list readResult) (start : Z)
           (st : iterState (list (Entry * valuePointer.t))) : Prop :=
  vptrs st = map (pointer_of lf) (entries st)
  /\ Forall (staged_ok done start (lastCommit st)) (entries st)
  /\ Forall (delivered_ok lf done start) (cbState st).

(** The offset [n] is the place where [iterate] started, or the end of a
    record without the transaction bit that was read from the log: the
    place of that record plus its length, in 32 bits. *)
Definition record_boundary (reader : list readResult) (start n : Z) : Prop :=
  n = start
  \/ exists e, read_at reader start e
              /\ has_bit (meta e) bitTxn = false
              /\ n = uint32 (offset e + recSize e).

(** A callback that records what it is given and returns an error. *)
Definition refuser : logEntry (list (Entry * valuePointer.t)) :=
  fun e vp s => (s ++ [(e, vp)], Err (OtherError "refused")).

(** The offset [iterate] starts from. *)
Definition start_offset (offset : Z) : Z :=
  if offset =? 0 then vlogHeaderSize else offset.

(** The name of the log file of a memtable, as [mtFilePath] forms it. *)
Definition memFileName (fid : Z) : string :=
  (Sprintf_05d fid ++ memFileExt)%string.

(** A run of [Put] calls, up to the first that does not succeed. *)
Fixpoint putAll (mt : memTable) (kvs : list (list byte * ValueStruct.t))
  : memTable * result error unit :=
  match kvs with
  | [] => (mt, Ok tt)
  | (k, v) :: rest =>
      match Put mt k v with
      | (mt', Ok _) => putAll mt' rest
      | r => r
      end
  end.

(** The file id of a memtable's log file. *)
Definition wal_fid (mt : memTable) : option Z := option_map fid (wal mt).

End MoreVocabulary.

(** ** Further samples *)

Module MoreSample.

(** The plaintext sample log with its size recorded as its 200 bytes. *)
Definition sizedLog : logFile :=
  {| mf := mf Sample.plainLog; path := path Sample.plainLog;
     fid := fid Sample.plainLog; size := 200;
     loadingMode := MemoryMap; dataKey := None;
     baseIV := baseIV Sample.plainLog; registry := registry Sample.plainLog;
     writeAt := writeAt Sample.plainLog |}.

(** A descriptor whose reads fill nothing and report the end of the
    file. *)
Definition eofReadAt (n off : Z) : list byte * Z * option error :=
  (repeat x00 (Z.to_nat n), 0, Some io_EOF).

Definition noStats : readStats := {| NumReads := 0; NumBytesRead := 0 |}.

(** A log file of 40 mapped bytes: the header and room for 20 more. *)
Definition smallLog : logFile := Sample.logFile_of Sample.plainRegistry None 40.

(** A file that was just created, 64 mapped bytes that are all zero, with
    the registry that holds the key of id 7. *)
Definition freshLog : logFile :=
  {| mf := {| MmapFile.Data := repeat x00 64;
              MmapFile.Name := "dir/00002.mem";
              MmapFile.calls := [] |};
     path := "dir/00002.mem"; fid := 2; size := 0; loadingMode := MemoryMap;
     dataKey := None; baseIV := []; registry := Sample.keyRegistry;
     writeAt := vlogHeaderSize |}.

(** A plaintext log file of 4 GiB of mapped bytes, all zero, with nothing
    appended yet, and an entry whose record, 14 bytes longer than its
    value, fills the file from the header to its end. Their bytes are
    never computed. *)
Definition four_GiB : list byte := repeat x00 (Z.to_nat (2 ^ 32)).

Definition hugeLog : logFile :=
  {| mf := {| MmapFile.Data := four_GiB;
              MmapFile.Name := "dir/00009.mem";
              MmapFile.calls := [] |};
     path := "dir/00009.mem"; fid := 9; size := 0; loadingMode := MemoryMap;
     dataKey := None; baseIV := Sample.base_iv; registry := Sample.plainRegistry;
     writeAt := vlogHeaderSize |}.

Definition huge_value : list byte := repeat x00 (Z.to_nat (2 ^ 32 - 34)).

Definition hugeEntry : Entry :=
  {| Key := [x6b]; Value := huge_value; UserMeta := x00; ExpiresAt := 0;
     meta := x00; offset := 0; hlen := 0 |}.

(** A log in which an entry with the transaction bit and timestamp 0 is
    followed by a committed transaction of timestamp 7. *)
Definition zeroTsLog : logFile :=
  fold_left Sample.append
    [Sample.rec "p" 0 "P" x40; Sample.rec "q" 7 "Q" x40; Sample.rec "!txn" 7 "7" x80]
    Sample.plainLog.

(** The sample directory followed by two files whose names end in [.mem]
    without being numbers. *)
Definition strayLater : Sample.Files :=
  Sample.files ++ [("dir/notes.mem"%string, []); ("dir/zz.mem"%string, [])].

(** Collaborators that fail: the files [dir/locked.mem] and
    [dir/00003.mem] cannot be opened, the random source has nothing to give
    and unmapping is refused. *)
Definition lockedOpen (w : Sample.Files) (p : string) (sz : Z)
  : Sample.Files * (MmapFile.t * option error) :=
  if String.eqb p "dir/locked.mem" || String.eqb p "dir/00003.mem"
  then (w, ({| MmapFile.Data := []; MmapFile.Name := p; MmapFile.calls := [] |},
            Some (OtherError "permission denied")))
  else Sample.openFile w p sz.

Definition noRandom (w : Sample.Files) : Sample.Files * result error (list byte) :=
  (w, Err (OtherError "no entropy")).

Definition failing : Collaborators :=
  {| bitTxn := x40;
     bitFinTxn := x80;
     keystream := Sample.toyStream;
     ParseTs := Sample.lastEight;
     isZero := Sample.emptyKey;
     NewReader := Sample.plainReader;
     callErr := fun _ c => match c with
                           | CallMunmap => Some (OtherError "EINVAL")
                           | _ => None
                           end;
     World := Sample.Files;
     ReadDir := Sample.listDir;
     OpenMmapFile := lockedOpen;
     os_Remove := Sample.removeFile;
     cryptorand_Read := noRandom |}.

End MoreSample.

(** * Properties

    ** Sample runs of the library models *)

Example crc32c_check :
  crc32.Checksum (ascii_bytes "123456789") crc32.CastagnoliCrcTable = 0xE3069283.
Proof. vm_compute. reflexivity. Qed.

Example put_uvarint_300 : binary.PutUvarint 300 = [xac; x02].
Proof. reflexivity. Qed.

Example uvarint_300 : binary.Uvarint [xac; x02; xff] = Some (300, 2).
Proof. reflexivity. Qed.

Example put_uvarint_max : len (binary.PutUvarint MaxUint64) = 10.
Proof. reflexivity. Qed.

Example uvarint_max : binary.Uvarint (binary.PutUvarint MaxUint64) = Some (MaxUint64, 10).
Proof. vm_compute. reflexivity. Qed.

Example FormatUint_9 : strconv.FormatUint 9 = ascii_bytes "9".
Proof. reflexivity. Qed.

Example FormatUint_max :
  strconv.FormatUint MaxUint64 = ascii_bytes "18446744073709551615".
Proof. vm_compute. reflexivity. Qed.

Example ParseUint_max :
  strconv.ParseUint (ascii_bytes "18446744073709551615") = Some MaxUint64.
Proof. vm_compute. reflexivity. Qed.

Example ParseUint_overflow :
  strconv.ParseUint (ascii_bytes "18446744073709551616") = None.
Proof. vm_compute. reflexivity. Qed.

Example ParseUint_empty : strconv.ParseUint [] = None.
Proof. reflexivity. Qed.

Example ParseInt_neg : strconv.ParseInt (ascii_bytes "-00012") = Some (-12).
Proof. vm_compute. reflexivity. Qed.

Example ParseInt_min :
  strconv.ParseInt (ascii_bytes "-9223372036854775808") = Some MinInt64.
Proof. vm_compute. reflexivity. Qed.

Example ParseInt_range :
  strconv.ParseInt (ascii_bytes "9223372036854775808") = None.
Proof. vm_compute. reflexivity. Qed.

(** ** Bytes *)

Lemma byte_to_Z_range b : 0 <= byte_to_Z b < 256.
Proof.
  unfold byte_to_Z. pose proof (Byte.to_N_bounded b). lia.
Qed.

Lemma byte_of_to_Z b : byte_of_Z (byte_to_Z b) = b.
Proof.
  unfold byte_of_Z. rewrite Z.mod_small by apply byte_to_Z_range.
  unfold byte_to_Z. rewrite N2Z.id, Byte.of_to_N. reflexivity.
Qed.

Lemma byte_to_of_Z z : byte_to_Z (byte_of_Z z) = z mod 256.
Proof.
  unfold byte_of_Z.
  assert (Hr : 0 <= z mod 256 < 256) by (apply Z.mod_pos_bound; lia).
  destruct (Byte.of_N (Z.to_N (z mod 256))) as [b|] eqn:E.
  - apply Byte.to_of_N in E. unfold byte_to_Z. rewrite E. lia.
  - apply Byte.of_N_None_iff in E. lia.
Qed.

Lemma byte_to_of_Z_land z : byte_to_Z (byte_of_Z z) = Z.land z 255.
Proof.
  rewrite byte_to_of_Z. change 255 with (Z.ones 8).
  rewrite Z.land_ones by lia. reflexivity.
Qed.

Lemma len_app {A} (l1 l2 : list A) : len (l1 ++ l2) = len l1 + len l2.
Proof. unfold len. rewrite length_app. lia. Qed.

Lemma len_nonneg {A} (l : list A) : 0 <= len l.
Proof. unfold len. lia. Qed.

(** ** Variable-length integers *)

(** A continuation byte has its high bit set. *)
Lemma cont_byte_high x : 128 <= byte_to_Z (byte_of_Z (Z.lor x 128)).
Proof.
  pose proof (byte_to_Z_range (byte_of_Z (Z.lor x 128))) as Hr.
  destruct (Z_lt_le_dec (byte_to_Z (byte_of_Z (Z.lor x 128))) 128) as [Hlt|]; [|assumption].
  exfalso.
  assert (Hb : Z.testbit (byte_to_Z (byte_of_Z (Z.lor x 128))) 7 = true).
  { rewrite byte_to_of_Z_land, Z.land_spec, Z.lor_spec.
    change (Z.testbit 128 7) with true. change (Z.testbit 255 7) with true.
    rewrite orb_true_r. reflexivity. }
  rewrite <- (Z.mod_small (byte_to_Z (byte_of_Z (Z.lor x 128))) (2 ^ 7)) in Hb
    by (change (2 ^ 7) with 128; lia).
  rewrite Z.mod_pow2_bits_high in Hb by lia. discriminate.
Qed.

(** Its low seven bits are those of the value. *)
Lemma cont_byte_low x :
  Z.land (byte_to_Z (byte_of_Z (Z.lor x 128))) 127 = Z.land x 127.
Proof.
  rewrite byte_to_of_Z_land, <- Z.land_assoc.
  change (Z.land 255 127) with 127.
  rewrite Z.land_lor_distr_l. change (Z.land 128 127) with 0.
  apply Z.lor_0_r.
Qed.

Lemma split_low7 x : Z.lor (Z.land x 127) (Z.shiftl (Z.shiftr x 7) 7) = x.
Proof.
  change 127 with (Z.ones 7).
  rewrite <- Z.ldiff_ones_r by lia.
  rewrite Z.lor_comm. apply Z.lor_ldiff_and.
Qed.

Lemma regroup acc x s :
  0 <= s ->
  Z.lor (Z.lor acc (Z.shiftl (Z.land x 127) s)) (Z.shiftl (Z.shiftr x 7) (s + 7))
  = Z.lor acc (Z.shiftl x s).
Proof.
  intros Hs.
  rewrite <- Z.lor_assoc. f_equal.
  replace (s + 7) with (7 + s) by lia.
  rewrite <- Z.shiftl_shiftl by lia.
  rewrite <- Z.shiftl_lor. f_equal. apply split_low7.
Qed.

Lemma uvarint_put_uvarint fuel : forall x acc s i rest,
  0 <= x < 2 ^ (7 * Z.of_nat fuel + 1) ->
  i = 9 - Z.of_nat fuel -> 0 <= i -> 0 <= s ->
  binary.uvarint (binary.put_uvarint fuel x ++ rest) acc s i
  = Some (Z.lor acc (Z.shiftl x s), i + len (binary.put_uvarint fuel x)).
Proof.
  induction fuel as [|fuel IH]; intros x acc s i rest Hx Hi Hi0 Hs.
  - simpl in *. change (2 ^ 1) with 2 in Hx.
    rewrite byte_to_of_Z, Z.mod_small by lia.
    unfold binary.MaxVarintLen64.
    replace (i =? 10) with false by (symmetry; apply Z.eqb_neq; lia).
    replace (x <? 128) with true by (symmetry; apply Z.ltb_lt; lia).
    replace (1 <? x) with false by (symmetry; apply Z.ltb_ge; lia).
    rewrite andb_false_r. unfold len. simpl. reflexivity.
  - cbn [binary.put_uvarint].
    destruct (128 <=? x) eqn:E.
    + apply Z.leb_le in E. cbn [app binary.uvarint].
      unfold binary.MaxVarintLen64.
      replace (i =? 10) with false by (symmetry; apply Z.eqb_neq; lia).
      pose proof (cont_byte_high x) as Hh.
      replace (byte_to_Z (byte_of_Z (Z.lor x 128)) <? 128) with false
        by (symmetry; apply Z.ltb_ge; lia).
      rewrite cont_byte_low.
      rewrite IH; try lia.
      * rewrite regroup by lia. unfold len. cbn [length].
        rewrite Nat2Z.inj_succ. f_equal. f_equal. lia.
      * rewrite Z.shiftr_div_pow2 by lia. split.
        -- apply Z.div_pos; lia.
        -- apply Z.div_lt_upper_bound; [lia|].
           rewrite <- Z.pow_add_r by lia.
           replace (7 + (7 * Z.of_nat fuel + 1)) with (7 * Z.of_nat (S fuel) + 1) by lia.
           lia.
    + apply Z.leb_gt in E. cbn [app binary.uvarint].
      unfold binary.MaxVarintLen64.
      rewrite byte_to_of_Z, Z.mod_small by lia.
      replace (i =? 10) with false by (symmetry; apply Z.eqb_neq; lia).
      replace (x <? 128) with true by (symmetry; apply Z.ltb_lt; lia).
      replace (i =? 10 - 1) with false by (symmetry; apply Z.eqb_neq; lia).
      cbn [andb]. unfold len. simpl. reflexivity.
Qed.

(** Reading back a variable-length integer that is followed by anything. *)
Lemma Uvarint_PutUvarint x rest :
  0 <= x < 2 ^ 64 ->
  binary.Uvarint (binary.PutUvarint x ++ rest)
  = Some (x, len (binary.PutUvarint x)).
Proof.
  intros Hx. unfold binary.Uvarint, binary.PutUvarint.
  rewrite uvarint_put_uvarint by (simpl Z.of_nat; lia).
  rewrite Z.shiftl_0_r. reflexivity.
Qed.

Lemma skipn_len_app {A} (l1 l2 : list A) : skipn (Z.to_nat (len l1)) (l1 ++ l2) = l2.
Proof.
  unfold len. rewrite Nat2Z.id, skipn_app, skipn_all, Nat.sub_diag. reflexivity.
Qed.

Lemma firstn_len_app {A} (l1 l2 : list A) : firstn (Z.to_nat (len l1)) (l1 ++ l2) = l1.
Proof.
  unfold len. rewrite Nat2Z.id, firstn_app, firstn_all, Nat.sub_diag.
  simpl. apply app_nil_r.
Qed.

(** The header codec of the record format: decoding what was encoded, with
    anything after it, gives the header back and its length. *)
Lemma header_Decode_Encode h rest :
  0 <= header.klen h < 2 ^ 32 ->
  0 <= header.vlen h < 2 ^ 32 ->
  0 <= header.expiresAt h < 2 ^ 64 ->
  header_Decode (header_Encode h ++ rest) = Some (h, len (header_Encode h)).
Proof.
  intros Hk Hv He. unfold header_Decode, header_Encode.
  repeat rewrite <- app_assoc.
  rewrite Uvarint_PutUvarint by lia. rewrite skipn_len_app.
  rewrite Uvarint_PutUvarint by lia. rewrite skipn_len_app.
  rewrite Uvarint_PutUvarint by lia. rewrite skipn_len_app.
  cbn [app]. unfold uint32. rewrite !Z.mod_small by lia.
  destruct h as [kl vl ex m um].
  cbn [header.klen header.vlen header.expiresAt header.meta header.userMeta].
  f_equal. f_equal. rewrite !len_app.
  change (len [m; um]) with 2. lia.
Qed.

(** ** Checksums *)

Lemma not32_involutive x : crc32.not32 (crc32.not32 x) = x.
Proof.
  unfold crc32.not32.
  rewrite Z.lxor_assoc, Z.lxor_nilpotent. apply Z.lxor_0_r.
Qed.

Lemma update_loop_app tab c a b :
  crc32.update_loop tab c (a ++ b)
  = crc32.update_loop tab (crc32.update_loop tab c a) b.
Proof. unfold crc32.update_loop. apply fold_left_app. Qed.

(** Updating a checksum in two steps is updating it with the
    concatenation. *)
Lemma Update_app c tab a b :
  crc32.Update (crc32.Update c tab a) tab b = crc32.Update c tab (a ++ b).
Proof.
  unfold crc32.Update. rewrite not32_involutive, update_loop_app. reflexivity.
Qed.

Lemma Update_nil c tab : crc32.Update c tab [] = c.
Proof. unfold crc32.Update. simpl. apply not32_involutive. Qed.

Lemma Sum32_Write_Write d a b :
  crc32.Write (crc32.Write d a) b = crc32.Write d (a ++ b).
Proof.
  unfold crc32.Write. cbn [crc32.crc crc32.tab]. rewrite Update_app. reflexivity.
Qed.

Lemma Sum32_New_Write t p :
  crc32.Sum32 (crc32.Write (crc32.New t) p) = crc32.Checksum p t.
Proof. reflexivity. Qed.

Lemma PutUint32_len x : len (binary.PutUint32 x) = 4.
Proof. reflexivity. Qed.

Lemma PutUint64_len x : len (binary.PutUint64 x) = 8.
Proof. reflexivity. Qed.

(** ** The key stream *)

Lemma xor_byte_involutive a k : xor_byte (xor_byte a k) k = a.
Proof.
  unfold xor_byte.
  destruct (Byte.to_bits k) as [k0 [k1 [k2 [k3 [k4 [k5 [k6 k7]]]]]]] eqn:Ek.
  destruct (Byte.to_bits a) as [a0 [a1 [a2 [a3 [a4 [a5 [a6 a7]]]]]]] eqn:Ea.
  rewrite Byte.to_bits_of_bits.
  rewrite <- (Byte.of_bits_to_bits a), Ea.
  repeat (rewrite xorb_assoc, xorb_nilpotent, xorb_false_r).
  reflexivity.
Qed.

Section CodecFacts.
Context `{Collaborators}.

Lemma XORKeyStream_involutive key iv : forall src i,
  XORKeyStream key iv i (XORKeyStream key iv i src) = src.
Proof.
  induction src as [|b src IH]; intros i; cbn [XORKeyStream].
  - reflexivity.
  - rewrite xor_byte_involutive, IH. reflexivity.
Qed.

Lemma XORKeyStream_length key iv : forall src i,
  length (XORKeyStream key iv i src) = length src.
Proof.
  induction src as [|b src IH]; intros i; cbn [XORKeyStream length].
  - reflexivity.
  - rewrite IH. reflexivity.
Qed.

Lemma XORKeyStream_len key iv src i :
  len (XORKeyStream key iv i src) = len src.
Proof. unfold len. rewrite XORKeyStream_length. reflexivity. Qed.


(** What a successful [encodeEntry] leaves in the buffer: what was there,
    the header, the key and value as written, and the checksum of the
    header, key and value as written. *)
Lemma encodeEntry_ok_inv lf buf e offset out n :
  encodeEntry lf buf e offset = (out, Ok n) ->
  exists kv,
    writtenKV lf e offset = Some kv /\
    out = buf ++ (header_Encode (entryHeader e) ++ kv)
              ++ binary.PutUint32
                   (crc32.Checksum (header_Encode (entryHeader e) ++ kv)
                                   crc32.CastagnoliCrcTable) /\
    n = len (header_Encode (entryHeader e) ++ kv) + 4 /\
    (forall dk, dataKey lf = Some dk -> aes_key_ok (DataKey.Data dk) = true).
Proof.
  unfold encodeEntry, writtenKV. fold (entryHeader e).
  destruct (dataKey lf) as [dk|] eqn:Edk.
  - destruct (generateIV lf offset) as [iv|]; [|discriminate].
    unfold XORBlockStream.
    destruct (aes_key_ok (DataKey.Data dk)) eqn:Ek; [|discriminate].
    unfold mw_Write. cbn [fst snd]. intros [= <- <-].
    eexists. split; [reflexivity|].
    rewrite !Update_app. unfold crc32.Checksum.
    repeat split.
    + rewrite <- !app_assoc. reflexivity.
    + rewrite !len_app, XORKeyStream_len, len_app, PutUint32_len. lia.
    + intros dk' [= <-]. exact Ek.
  - unfold mw_Write. cbn [fst snd]. intros [= <- <-].
    eexists. split; [reflexivity|].
    rewrite !Update_app. unfold crc32.Checksum.
    repeat split.
    + rewrite <- !app_assoc. reflexivity.
    + rewrite !len_app, PutUint32_len. lia.
    + intros dk' [=].
Qed.

(** [encodeEntry] succeeds on a plaintext file, and on an encrypted one
    whose key has an AES length and whose base IV has its 12 bytes. *)
Lemma encodeEntry_succeeds lf buf e offset :
  (forall dk, dataKey lf = Some dk ->
              aes_key_ok (DataKey.Data dk) = true /\ (12 <= length (baseIV lf))%nat) ->
  exists out n, encodeEntry lf buf e offset = (out, Ok n).
Proof.
  intros Hk. unfold encodeEntry.
  destruct (dataKey lf) as [dk|] eqn:Edk.
  - destruct (Hk dk eq_refl) as [Hok Hiv].
    unfold generateIV, copy.
    change (length (firstn 12 (repeat x00 16))) with 12%nat.
    replace (Nat.min 12 (length (baseIV lf))) with 12%nat by lia.
    change (12 =? Z.of_nat 12) with true. cbv iota beta.
    unfold XORBlockStream. rewrite Hok. eauto.
  - eauto.
Qed.

End CodecFacts.

(** ** Encoding and decoding a record *)

Lemma slice_from_len_app {A} (h rest : list A) : slice_from (h ++ rest) (len h) = Some rest.
Proof.
  unfold slice_from. rewrite len_app.
  pose proof (len_nonneg h). pose proof (len_nonneg rest).
  replace (0 <=? len h) with true by (symmetry; apply Z.leb_le; lia).
  replace (len h <=? len h + len rest) with true by (symmetry; apply Z.leb_le; lia).
  cbn [andb]. rewrite skipn_len_app. reflexivity.
Qed.

Lemma slice_app_l {A} (k v : list A) : slice (k ++ v) 0 (len k) = Some k.
Proof.
  unfold slice. rewrite len_app.
  pose proof (len_nonneg k). pose proof (len_nonneg v).
  replace (0 <=? len k) with true by (symmetry; apply Z.leb_le; lia).
  replace (len k <=? len k + len v) with true by (symmetry; apply Z.leb_le; lia).
  cbn [Z.leb Z.compare andb Z.to_nat skipn].
  rewrite Z.sub_0_r, firstn_len_app. reflexivity.
Qed.

Lemma slice_app_r {A} (k v : list A) : slice (k ++ v) (len k) (len k + len v) = Some v.
Proof.
  unfold slice. rewrite len_app.
  pose proof (len_nonneg k). pose proof (len_nonneg v).
  replace (0 <=? len k) with true by (symmetry; apply Z.leb_le; lia).
  replace (len k <=? len k + len v) with true by (symmetry; apply Z.leb_le; lia).
  replace (len k + len v <=? len k + len v) with true by (symmetry; apply Z.leb_le; lia).
  cbn [andb]. rewrite skipn_len_app.
  replace (len k + len v - len k) with (len v) by lia.
  unfold len. rewrite Nat2Z.id, firstn_all. reflexivity.
Qed.

Lemma slice_none_lo_gt_hi {A} (s : list A) lo hi : hi < lo -> slice s lo hi = None.
Proof.
  intros Hlt. unfold slice.
  replace (lo <=? hi) with false by (symmetry; apply Z.leb_gt; lia).
  rewrite andb_false_r. reflexivity.
Qed.

Section RoundTrip.
Context `{Collaborators}.

(** Decoding the header, key and value that [encodeEntry] wrote on an
    encrypted file: the header parses, the slab decrypts to key and value,
    and the entry is cut out of it by the header's lengths. *)
Lemma decodeEntry_written lf dk e offset kv :
  dataKey lf = Some dk ->
  aes_key_ok (DataKey.Data dk) = true ->
  len (Key e) < 2 ^ 32 -> len (Value e) < 2 ^ 32 ->
  0 <= ExpiresAt e < 2 ^ 64 ->
  writtenKV lf e offset = Some kv ->
  decodeEntry lf (header_Encode (entryHeader e) ++ kv) offset
  = match slice (Key e ++ Value e) 0 (len (Key e)),
          slice (Key e ++ Value e) (len (Key e))
                (uint32 (len (Key e) + len (Value e))) with
    | Some k, Some v =>
        Ok {| meta := meta e; UserMeta := UserMeta e; ExpiresAt := ExpiresAt e;
              offset := offset; Key := k; Value := v; hlen := 0 |}
    | _, _ => Panic
    end.
Proof.
  intros Hdk Hok Hk Hv He Hw.
  pose proof (len_nonneg (Key e)). pose proof (len_nonneg (Value e)).
  unfold writtenKV in Hw. rewrite Hdk in Hw.
  destruct (generateIV lf offset) as [iv|] eqn:Eiv; [|discriminate].
  injection Hw as <-.
  unfold decodeEntry.
  rewrite header_Decode_Encode
    by (unfold entryHeader, uint32; cbn [header.klen header.vlen header.expiresAt];
        rewrite ?Z.mod_small by lia; lia).
  rewrite slice_from_len_app, Hdk.
  unfold decryptKV. rewrite Eiv. unfold XORBlockAllocate. rewrite Hok.
  rewrite XORKeyStream_involutive.
  unfold entryHeader.
  cbn [header.klen header.vlen header.expiresAt header.meta header.userMeta].
  assert (Ek : uint32 (len (Key e)) = len (Key e))
    by (unfold uint32; apply Z.mod_small; lia).
  assert (Ev : uint32 (len (Value e)) = len (Value e))
    by (unfold uint32; apply Z.mod_small; lia).
  rewrite Ek, Ev. reflexivity.
Qed.

End RoundTrip.

Section RoundTrip2.
Context `{Collaborators}.

(** The bytes [encodeEntry] appended, without the checksum. *)
Lemma produced_payload (buf payload trailer : list byte) n :
  n = len payload + 4 -> len trailer = 4 ->
  firstn (Z.to_nat (n - crc32.Size)) (skipn (length buf) (buf ++ payload ++ trailer))
  = payload.
Proof.
  intros -> Ht. rewrite skipn_app, skipn_all, Nat.sub_diag. cbn [app skipn].
  unfold crc32.Size. replace (len payload + 4 - 4) with (len payload) by lia.
  apply firstn_len_app.
Qed.

(** C3, amended: on an encrypted file, for every entry whose key and value
    lengths together fit in 32 bits, decoding the bytes [encodeEntry]
    produced at an offset, without the checksum, at that same offset gives
    an entry with the same key, value, meta, user-meta and expires-at. *)
Theorem decodeEntry_encodeEntry lf dk buf e offset out n :
  dataKey lf = Some dk ->
  len (Key e) + len (Value e) < 2 ^ 32 ->
  0 <= ExpiresAt e < 2 ^ 64 ->
  encodeEntry lf buf e offset = (out, Ok n) ->
  exists e',
    decodeEntry lf (firstn (Z.to_nat (n - crc32.Size)) (skipn (length buf) out)) offset
    = Ok e'
    /\ Key e' = Key e /\ Value e' = Value e /\ meta e' = meta e
    /\ UserMeta e' = UserMeta e /\ ExpiresAt e' = ExpiresAt e.
Proof.
  intros Hdk Hsum He Henc.
  pose proof (len_nonneg (Key e)). pose proof (len_nonneg (Value e)).
  destruct (encodeEntry_ok_inv _ _ _ _ _ _ Henc) as (kv & Hkv & -> & -> & Hok).
  rewrite produced_payload by (reflexivity || apply PutUint32_len).
  rewrite (decodeEntry_written lf dk e offset kv) by (auto; lia).
  rewrite slice_app_l.
  unfold uint32. rewrite Z.mod_small by lia. rewrite slice_app_r.
  eexists. split; [reflexivity|]. cbn. repeat split.
Qed.

(** When the two lengths together pass 32 bits the sum the decoder slices
    by wraps around, and the slice expression panics. *)
Lemma decodeEntry_encodeEntry_wrap lf dk buf e offset out n :
  dataKey lf = Some dk ->
  len (Key e) < 2 ^ 32 -> len (Value e) < 2 ^ 32 ->
  2 ^ 32 <= len (Key e) + len (Value e) ->
  0 <= ExpiresAt e < 2 ^ 64 ->
  encodeEntry lf buf e offset = (out, Ok n) ->
  decodeEntry lf (firstn (Z.to_nat (n - crc32.Size)) (skipn (length buf) out)) offset
  = Panic.
Proof.
  intros Hdk Hk Hv Hsum He Henc.
  destruct (encodeEntry_ok_inv _ _ _ _ _ _ Henc) as (kv & Hkv & -> & -> & Hok).
  rewrite produced_payload by (reflexivity || apply PutUint32_len).
  rewrite (decodeEntry_written lf dk e offset kv) by (auto; lia).
  rewrite slice_app_l.
  rewrite slice_none_lo_gt_hi; [reflexivity|].
  unfold uint32.
  replace (len (Key e) + len (Value e)) with
    (len (Key e) + len (Value e) - 2 ^ 32 + 1 * 2 ^ 32) by lia.
  rewrite Z.mod_add by lia. rewrite Z.mod_small by lia. lia.
Qed.

End RoundTrip2.

Lemma len_two_GiB : len Sample.two_GiB = 2 ^ 31.
Proof.
  unfold Sample.two_GiB, len. rewrite repeat_length. apply Z2Nat.id. lia.
Qed.

(** C3 as stated fails: a 2 GiB key and a 2 GiB value each have a length
    that fits in 32 bits, [encodeEntry] encodes them, and [decodeEntry]
    panics on the result because [klen + vlen] wraps to 0. *)
Lemma decodeEntry_encodeEntry_counterexample :
  len (Key Sample.bigEntry) < 2 ^ 32 /\ len (Value Sample.bigEntry) < 2 ^ 32 /\
  exists out n,
    encodeEntry (H:=Sample.collaborators) Sample.encryptedLog [] Sample.bigEntry 20 = (out, Ok n) /\
    decodeEntry (H:=Sample.collaborators) Sample.encryptedLog
      (firstn (Z.to_nat (n - crc32.Size)) (skipn (length (@nil byte)) out)) 20 = Panic.
Proof.
  assert (Hl : len (Key Sample.bigEntry) = 2 ^ 31) by exact len_two_GiB.
  assert (Hv : len (Value Sample.bigEntry) = 2 ^ 31) by exact len_two_GiB.
  split; [rewrite Hl; lia|]. split; [rewrite Hv; lia|].
  destruct (encodeEntry_succeeds (H:=Sample.collaborators)
              Sample.encryptedLog [] Sample.bigEntry 20) as (out & n & Henc).
  { intros dk Hd.
    change (dataKey Sample.encryptedLog) with (Some Sample.dataKey7) in Hd.
    injection Hd as <-. split; [reflexivity|].
    change (baseIV Sample.encryptedLog) with Sample.base_iv.
    unfold Sample.base_iv. cbn [length]. lia. }
  exists out, n. split; [exact Henc|].
  apply (decodeEntry_encodeEntry_wrap (H:=Sample.collaborators)
           Sample.encryptedLog Sample.dataKey7 [] Sample.bigEntry 20 out n).
  - reflexivity.
  - rewrite Hl. lia.
  - rewrite Hv. lia.
  - rewrite Hl, Hv. lia.
  - change (ExpiresAt Sample.bigEntry) with 0. lia.
  - exact Henc.
Qed.

Lemma decodeEntry_encodeEntry_witness :
  let e := Sample.entry "k" "secret" x00 in
  let out := fst (encodeEntry (H:=Sample.collaborators) Sample.encryptedLog [] e 20) in
  exists e',
    decodeEntry (H:=Sample.collaborators) Sample.encryptedLog
      (firstn (Z.to_nat (16 - crc32.Size)) (skipn (length (@nil byte)) out)) 20 = Ok e'
    /\ Key e' = Key e /\ Value e' = Value e /\ meta e' = meta e
    /\ UserMeta e' = UserMeta e /\ ExpiresAt e' = ExpiresAt e.
Proof.
  intros e out.
  apply (decodeEntry_encodeEntry (H:=Sample.collaborators)
           Sample.encryptedLog Sample.dataKey7 [] e 20 out 16).
  - reflexivity.
  - vm_compute. reflexivity.
  - vm_compute. split; [discriminate | reflexivity].
  - vm_compute. reflexivity.
Defined.

(** C4: the four bytes that end an encoded record are the big-endian
    CRC-32C of the header, key and value bytes as they stand in the buffer
    before them (the ciphertext of key and value on an encrypted file), and
    of nothing else. *)
Theorem encodeEntry_crc_trailer `{Collaborators} lf buf e offset out n :
  encodeEntry lf buf e offset = (out, Ok n) ->
  exists kv payload trailer,
    writtenKV lf e offset = Some kv /\
    payload = header_Encode (entryHeader e) ++ kv /\
    trailer = binary.PutUint32 (crc32.Checksum payload crc32.CastagnoliCrcTable) /\
    len trailer = crc32.Size /\
    out = buf ++ payload ++ trailer.
Proof.
  intros Henc.
  destruct (encodeEntry_ok_inv _ _ _ _ _ _ Henc) as (kv & Hkv & -> & -> & Hok).
  exists kv. eexists. eexists.
  split; [exact Hkv|]. split; [reflexivity|]. split; [reflexivity|].
  split; [apply PutUint32_len|]. reflexivity.
Qed.

Lemma encodeEntry_crc_trailer_witness :
  let e := Sample.entry "k" "secret" x00 in
  let out := fst (encodeEntry (H:=Sample.collaborators) Sample.encryptedLog [] e 20) in
  exists kv payload trailer,
    writtenKV (H:=Sample.collaborators) Sample.encryptedLog e 20 = Some kv /\
    payload = header_Encode (entryHeader e) ++ kv /\
    trailer = binary.PutUint32 (crc32.Checksum payload crc32.CastagnoliCrcTable) /\
    len trailer = crc32.Size /\
    out = [] ++ payload ++ trailer.
Proof.
  intros e out.
  apply (encodeEntry_crc_trailer (H:=Sample.collaborators)
           Sample.encryptedLog [] e 20 out 16).
  vm_compute. reflexivity.
Defined.

(** ** Appending to the log file *)

Lemma copy_length {A} (dst src : list A) : length (fst (copy dst src)) = length dst.
Proof.
  unfold copy. cbn [fst].
  rewrite length_app, length_firstn, length_skipn. lia.
Qed.

Lemma copy_count {A} (dst src : list A) :
  snd (copy dst src) = Z.of_nat (Nat.min (length dst) (length src)).
Proof. reflexivity. Qed.

(** A copy that moved all of [src] put it at the front of [dst]. *)
Lemma copy_all {A} (dst src : list A) :
  len src = snd (copy dst src) ->
  fst (copy dst src) = src ++ skipn (length src) dst /\ (length src <= length dst)%nat.
Proof.
  unfold copy, len. cbn [fst snd]. intros Hn.
  assert (Hm : Nat.min (length dst) (length src) = length src) by lia.
  rewrite Hm, firstn_all. split; [reflexivity | lia].
Qed.

Lemma slice_from_Some {A} (s : list A) lo d :
  slice_from s lo = Some d ->
  0 <= lo <= len s /\ d = skipn (Z.to_nat lo) s.
Proof.
  unfold slice_from.
  destruct (0 <=? lo) eqn:E1; [|discriminate].
  destruct (lo <=? len s) eqn:E2; [|discriminate].
  cbn [andb]. intros [= <-].
  apply Z.leb_le in E1. apply Z.leb_le in E2. auto.
Qed.

Lemma firstn_firstn_app {A} (l x : list A) (k w : nat) :
  (k <= w)%nat -> (w <= length l)%nat ->
  firstn k (firstn w l ++ x) = firstn k l.
Proof.
  intros Hkw Hwl.
  rewrite firstn_app, length_firstn, firstn_firstn.
  replace (Nat.min k w) with k by lia.
  replace (k - Nat.min w (length l))%nat with 0%nat by lia.
  cbn [firstn]. apply app_nil_r.
Qed.

Section LogFileFacts.
Context `{Collaborators}.

Lemma encodeEntry_len lf e offset out n :
  encodeEntry lf [] e offset = (out, Ok n) -> n = len out.
Proof.
  intros Henc.
  destruct (encodeEntry_ok_inv _ _ _ _ _ _ Henc) as (kv & _ & -> & -> & _).
  cbn [app]. rewrite !len_app, PutUint32_len. reflexivity.
Qed.

(** A successful [writeEntry]: the record is encoded at the old
    [writeAt], lies in the mapped bytes from there on, and [writeAt] moved
    past it; nothing else changed. *)
Lemma writeEntry_ok lf buf e lf' buf' :
  writeEntry lf buf e = (lf', buf', Ok tt) ->
  encodeEntry lf [] e (writeAt lf) = (buf', Ok (len buf')) /\
  0 <= writeAt lf /\ writeAt lf + len buf' <= len (lfData lf) /\
  lfData lf' = firstn (Z.to_nat (writeAt lf)) (lfData lf) ++ buf'
                 ++ skipn (Z.to_nat (writeAt lf + len buf')) (lfData lf) /\
  writeAt lf' = uint32 (writeAt lf + len buf') /\
  dataKey lf' = dataKey lf /\ baseIV lf' = baseIV lf.
Proof.
  unfold writeEntry.
  destruct (encodeEntry lf [] e (writeAt lf)) as [b r] eqn:Henc.
  destruct r as [plen|err|]; [|discriminate|discriminate].
  pose proof (encodeEntry_len _ _ _ _ _ Henc) as Hplen. subst plen.
  destruct (slice_from (lfData lf) (writeAt lf)) as [dst|] eqn:Hs; [|discriminate].
  apply slice_from_Some in Hs. destruct Hs as [Hw ->].
  destruct (copy (skipn (Z.to_nat (writeAt lf)) (lfData lf)) b) as [dst' n] eqn:Hc.
  destruct (len b =? n) eqn:En; [|discriminate].
  apply Z.eqb_eq in En. intros [= <- <-].
  assert (Hn : n = snd (copy (skipn (Z.to_nat (writeAt lf)) (lfData lf)) b))
    by (rewrite Hc; reflexivity).
  assert (Hd : dst' = fst (copy (skipn (Z.to_nat (writeAt lf)) (lfData lf)) b))
    by (rewrite Hc; reflexivity).
  rewrite Hn in En. destruct (copy_all _ _ En) as [Hall Hle].
  rewrite length_skipn in Hle.
  split; [reflexivity|]. split; [lia|].
  split; [unfold len in *; lia|].
  split.
  - unfold lfData, set_writeAt, set_Data. cbn [mf MmapFile.Data].
    fold (lfData lf). rewrite Hd, Hall, skipn_skipn.
    do 3 f_equal. unfold len. lia.
  - split; [|split; reflexivity].
    unfold set_writeAt, set_Data. cbn [writeAt].
    unfold uint32. rewrite Zplus_mod_idemp_r. reflexivity.
Qed.

(** Whatever [writeEntry] does, it leaves the bytes before [writeAt]
    alone. *)
Lemma writeEntry_prefix lf buf e lf' buf' r (k : nat) :
  writeEntry lf buf e = (lf', buf', r) ->
  Z.of_nat k <= writeAt lf ->
  firstn k (lfData lf') = firstn k (lfData lf).
Proof.
  unfold writeEntry. intros Hw Hk.
  destruct (encodeEntry lf [] e (writeAt lf)) as [b [plen|err|]] eqn:Henc;
    try (injection Hw as <- _ _; reflexivity).
  destruct (slice_from (lfData lf) (writeAt lf)) as [dst|] eqn:Hs;
    [|injection Hw as <- _ _; reflexivity].
  apply slice_from_Some in Hs. destruct Hs as [Hr ->].
  destruct (copy (skipn (Z.to_nat (writeAt lf)) (lfData lf)) b) as [dst' n] eqn:Hc.
  assert (Hgoal : firstn k (firstn (Z.to_nat (writeAt lf)) (lfData lf) ++ dst')
                  = firstn k (lfData lf)).
  { apply firstn_firstn_app; unfold len in *; lia. }
  destruct (plen =? n); injection Hw as <- _ _;
    unfold lfData, set_writeAt, set_Data; cbn [mf MmapFile.Data];
    exact Hgoal.
Qed.

(** [ZeroOut] keeps the length, the bytes before [start] and the bytes
    from [end_] on, and zeroes those between. *)
Lemma ZeroOut_length dst start end_ : length (ZeroOut dst start end_) = length dst.
Proof.
  unfold ZeroOut.
  destruct (start <? 0) eqn:E1; [reflexivity|].
  destruct (len dst <=? start) eqn:E2; [reflexivity|].
  cbn [orb]. apply Z.ltb_ge in E1. apply Z.leb_gt in E2. unfold len in *.
  destruct (Z.of_nat (length dst) <=? end_) eqn:E3.
  - destruct (Z.of_nat (length dst) - start <=? 0) eqn:E4; [reflexivity|].
    rewrite !length_app, length_firstn, repeat_length, length_skipn. lia.
  - apply Z.leb_gt in E3.
    destruct (end_ - start <=? 0) eqn:E4; [reflexivity|].
    apply Z.leb_gt in E4.
    rewrite !length_app, length_firstn, repeat_length, length_skipn. lia.
Qed.

Lemma ZeroOut_prefix dst start end_ (k : nat) :
  Z.of_nat k <= start ->
  firstn k (ZeroOut dst start end_) = firstn k dst.
Proof.
  intros Hk. unfold ZeroOut.
  destruct (start <? 0) eqn:E1; [reflexivity|].
  destruct (len dst <=? start) eqn:E2; [reflexivity|].
  cbn [orb]. apply Z.ltb_ge in E1. apply Z.leb_gt in E2. unfold len in *.
  destruct (Z.of_nat (length dst) <=? end_);
    match goal with
    | |- context [if ?c then _ else _] => destruct c
    end; try reflexivity; apply firstn_firstn_app; lia.
Qed.

Lemma ZeroOut_suffix dst start end_ :
  0 <= start <= end_ ->
  skipn (Z.to_nat end_) (ZeroOut dst start end_) = skipn (Z.to_nat end_) dst.
Proof.
  intros Hse. unfold ZeroOut.
  destruct (start <? 0) eqn:E1; [reflexivity|].
  destruct (len dst <=? start) eqn:E2; [reflexivity|].
  cbn [orb]. apply Z.ltb_ge in E1. apply Z.leb_gt in E2. unfold len in *.
  destruct (Z.of_nat (length dst) <=? end_) eqn:E3.
  - apply Z.leb_le in E3.
    destruct (Z.of_nat (length dst) - start <=? 0); [reflexivity|].
    rewrite !skipn_all2; [reflexivity| lia |].
    rewrite !length_app, length_firstn, repeat_length, length_skipn. lia.
  - apply Z.leb_gt in E3.
    destruct (end_ - start <=? 0) eqn:E4; [reflexivity|].
    apply Z.leb_gt in E4.
    rewrite app_assoc, skipn_app.
    rewrite skipn_all2
      by (rewrite length_app, length_firstn, repeat_length; lia).
    rewrite length_app, length_firstn, repeat_length.
    replace (Z.to_nat end_ - (Nat.min (Z.to_nat start) (length dst) + Z.to_nat (end_ - start)))%nat
      with 0%nat by lia.
    reflexivity.
Qed.

Lemma ZeroOut_zero dst start end_ (i : nat) :
  0 <= start <= Z.of_nat i -> Z.of_nat i < end_ -> (i < length dst)%nat ->
  nth_error (ZeroOut dst start end_) i = Some x00.
Proof.
  intros Hs He Hi. unfold ZeroOut.
  replace (start <? 0) with false by (symmetry; apply Z.ltb_ge; lia).
  replace (len dst <=? start) with false
    by (symmetry; apply Z.leb_gt; unfold len; lia).
  cbn [orb]. unfold len.
  destruct (Z.of_nat (length dst) <=? end_) eqn:E3.
  - replace (Z.of_nat (length dst) - start <=? 0) with false
      by (symmetry; apply Z.leb_gt; lia).
    rewrite nth_error_app2 by (rewrite length_firstn; lia).
    rewrite length_firstn.
    rewrite nth_error_app1 by (rewrite repeat_length; lia).
    apply nth_error_repeat. lia.
  - apply Z.leb_gt in E3.
    replace (end_ - start <=? 0) with false by (symmetry; apply Z.leb_gt; lia).
    rewrite nth_error_app2 by (rewrite length_firstn; lia).
    rewrite length_firstn.
    rewrite nth_error_app1 by (rewrite repeat_length; lia).
    apply nth_error_repeat. lia.
Qed.

(** A successful [bootstrap] writes the key id and the base IV over the
    first [vlogHeaderSize] bytes and nothing else. *)
Lemma bootstrap_ok lf rnd lf' :
  bootstrap lf rnd = (lf', Ok tt) ->
  lfData lf' = binary.PutUint64 (keyID lf') ++ baseIV lf'
                 ++ skipn (Z.to_nat vlogHeaderSize) (lfData lf) /\
  len (baseIV lf') = 12 /\
  vlogHeaderSize <= len (lfData lf) /\
  KeyRegistry.latestDataKey (registry lf) = Ok (dataKey lf') /\
  writeAt lf' = writeAt lf.
Proof.
  unfold bootstrap.
  destruct (KeyRegistry.latestDataKey (registry lf)) as [dk|err|] eqn:Hk;
    [|discriminate|discriminate].
  destruct rnd as [r|err|]; [|discriminate|discriminate].
  set (k := keyID (set_key lf dk (baseIV lf))).
  change (skipn 8 (repeat x00 (Z.to_nat vlogHeaderSize))) with (repeat x00 12).
  change (firstn 8 (binary.PutUint64 k ++ repeat x00 12)) with (binary.PutUint64 k).
  change (skipn 8 (binary.PutUint64 k ++ repeat x00 12)) with (repeat x00 12).
  set (iv := fst (copy (repeat x00 12) r)).
  assert (Hiv : length iv = 12%nat) by (unfold iv; rewrite copy_length; reflexivity).
  change (skipn 8 (binary.PutUint64 k ++ iv)) with iv.
  cbn [baseIV set_key].
  replace (len iv =? 12) with true by (symmetry; apply Z.eqb_eq; unfold len; lia).
  change (lfData (set_key (set_key lf dk (baseIV lf)) dk iv)) with (lfData lf).
  set (lf2 := set_key (set_key lf dk (baseIV lf)) dk iv).
  destruct (copy (lfData lf) (binary.PutUint64 k ++ iv)) as [d n] eqn:Hc.
  destruct (vlogHeaderSize =? n) eqn:En; [|discriminate].
  apply Z.eqb_eq in En. intros [= <-].
  assert (Hlen : length (binary.PutUint64 k ++ iv) = 20%nat)
    by (rewrite length_app, Hiv; reflexivity).
  assert (Hn : len (binary.PutUint64 k ++ iv)
               = snd (copy (lfData lf) (binary.PutUint64 k ++ iv))).
  { rewrite Hc. cbn [snd]. rewrite <- En. unfold len. rewrite Hlen. reflexivity. }
  assert (Hd : d = fst (copy (lfData lf) (binary.PutUint64 k ++ iv)))
    by (rewrite Hc; reflexivity).
  destruct (copy_all _ _ Hn) as [Hall Hle].
  change (keyID (set_Data lf2 d)) with k.
  change (baseIV (set_Data lf2 d)) with iv.
  change (lfData (set_Data lf2 d)) with d.
  change (writeAt (set_Data lf2 d)) with (writeAt lf).
  change (dataKey (set_Data lf2 d)) with dk.
  rewrite Hd, Hall, Hlen.
  split; [rewrite <- app_assoc; reflexivity|].
  split; [unfold len; rewrite Hiv; reflexivity|].
  split; [unfold len, vlogHeaderSize; lia|].
  split; reflexivity.
Qed.

End LogFileFacts.

(** ** Decimal numbers *)

Lemma parse_digits_app l1 : forall l2 n,
  strconv.parse_digits (l1 ++ l2) n
  = match strconv.parse_digits l1 n with
    | Some m => strconv.parse_digits l2 m
    | None => None
    end.
Proof.
  induction l1 as [|c l1 IH]; intros l2 n; cbn [app strconv.parse_digits].
  - reflexivity.
  - destruct ((48 <=? byte_to_Z c) && (byte_to_Z c <=? 57)); [|reflexivity].
    destruct (strconv.cutoff <=? n); [reflexivity|].
    match goal with |- context [if ?c then _ else _] => destruct c end;
      [reflexivity | apply IH].
Qed.

(** One more digit after a number that leaves room for it. *)
Lemma parse_digit n d :
  0 <= n -> 0 <= d <= 9 -> n * 10 + d < 2 ^ 64 ->
  strconv.parse_digits [byte_of_Z (48 + d)] n = Some (n * 10 + d).
Proof.
  intros Hn Hd Hlt. cbn [strconv.parse_digits].
  rewrite byte_to_of_Z, Z.mod_small by lia.
  replace ((48 <=? 48 + d) && (48 + d <=? 57)) with true
    by (symmetry; apply andb_true_intro; split; apply Z.leb_le; lia).
  assert (Hc : strconv.cutoff = 1844674407370955162) by reflexivity.
  replace (strconv.cutoff <=? n) with false
    by (symmetry; apply Z.leb_gt; rewrite Hc; lia).
  unfold uint64, MaxUint64. rewrite (Z.mod_small (n * 10)) by lia.
  replace (48 + d - 48) with d by lia.
  rewrite Z.mod_small by lia.
  replace (n * 10 + d <? n * 10) with false by (symmetry; apply Z.ltb_ge; lia).
  replace (2 ^ 64 - 1 <? n * 10 + d) with false by (symmetry; apply Z.ltb_ge; lia).
  reflexivity.
Qed.

Lemma format_digits_acc fuel : forall n acc,
  strconv.format_digits fuel n acc = strconv.format_digits fuel n [] ++ acc.
Proof.
  induction fuel as [|fuel IH]; intros n acc; cbn [strconv.format_digits].
  - reflexivity.
  - destruct (n <? 10); [reflexivity|].
    rewrite IH, (IH _ [_]), <- app_assoc. reflexivity.
Qed.

Lemma parse_format_digits fuel : forall n,
  0 <= n < 2 ^ 64 -> n < 10 ^ Z.of_nat fuel ->
  strconv.parse_digits (strconv.format_digits fuel n []) 0 = Some n.
Proof.
  induction fuel as [|fuel IH]; intros n Hn Hf.
  - change (10 ^ Z.of_nat 0) with 1 in Hf.
    assert (n = 0) by lia. subst n. reflexivity.
  - cbn [strconv.format_digits].
    destruct (n <? 10) eqn:E.
    + apply Z.ltb_lt in E. rewrite Z.mod_small by lia.
      rewrite parse_digit by lia. f_equal; lia.
    + apply Z.ltb_ge in E.
      rewrite format_digits_acc, parse_digits_app.
      pose proof (Z.div_mod n 10 ltac:(lia)) as Hdm.
      pose proof (Z.mod_pos_bound n 10 ltac:(lia)) as Hm.
      rewrite IH.
      * rewrite parse_digit by lia. f_equal; lia.
      * lia.
      * rewrite Nat2Z.inj_succ, Z.pow_succ_r in Hf by lia. lia.
Qed.

Lemma format_digits_nonempty fuel n : strconv.format_digits (S fuel) n [] <> [].
Proof.
  cbn [strconv.format_digits].
  destruct (n <? 10); [discriminate|].
  rewrite format_digits_acc. intros Hc. apply app_eq_nil in Hc.
  destruct Hc as [_ Hc]. discriminate.
Qed.

(** Parsing the decimal text of a 64-bit number gives the number. *)
Lemma ParseUint_FormatUint n :
  0 <= n < 2 ^ 64 -> strconv.ParseUint (strconv.FormatUint n) = Some n.
Proof.
  intros Hn. unfold strconv.ParseUint, strconv.FormatUint.
  pose proof (format_digits_nonempty 19 n) as Hne.
  destruct (strconv.format_digits 20 n []) as [|c l] eqn:E; [contradiction|].
  rewrite <- E. apply parse_format_digits; [lia|].
  change (Z.of_nat 20) with 20. lia.
Qed.

(** ** The replay iterator *)

Section IterateFacts.
Context `{Collaborators}.
Context {S : Type}.
Variable lf : logFile.
Variable fn : logEntry S.

Lemma read_ok e rest ro :
  fst (safeRead_Entry ro (ok_read e :: rest)) = (Some (with_offset e ro), None).
Proof. reflexivity. Qed.

Lemma loop_cons r rest st :
  iterate_loop lf fn (r :: rest) st
  = match iterate_body lf fn st (stamp (recordOffset st) r) with
    | Continue st' => iterate_loop lf fn rest st'
    | BreakLoop st' => (cbState st', Ok (validEndOffset st'))
    | Return s r => (s, r)
    end.
Proof. destruct r as [e err]. reflexivity. Qed.

Lemma loop_nil st :
  iterate_loop lf fn [] st = (cbState st, Ok (validEndOffset st)).
Proof. reflexivity. Qed.

(** The body on a result that ends the data: the loop is left, nothing
    changes. *)
Lemma body_ends st r :
  ends_data r = true -> iterate_body lf fn st r = BreakLoop st.
Proof.
  destruct r as [e err]. unfold ends_data, iterate_body. cbn [fst snd].
  intros Hr.
  destruct (err_is err io_EOF || isZero_ptr e) eqn:E1; [reflexivity|].
  cbn [orb] in Hr.
  destruct (err_is err io_ErrUnexpectedEOF) eqn:E2; [reflexivity|].
  cbn [orb] in Hr |- *. rewrite Hr. reflexivity.
Qed.

(** The body on an entry of a transaction. *)
Lemma body_txn st e :
  isZero e = false -> has_bit (meta e) bitTxn = true ->
  iterate_body lf fn st (Some e, None)
  = let ro' := uint32 (recordOffset st + recSize e) in
    let lc := if lastCommit st =? 0 then ParseTs (Key e) else lastCommit st in
    if negb (lc =? ParseTs (Key e)) then
      BreakLoop {| recordOffset := ro'; lastCommit := lc;
                   validEndOffset := validEndOffset st;
                   entries := entries st; vptrs := vptrs st;
                   cbState := cbState st |}
    else
      Continue {| recordOffset := ro'; lastCommit := lc;
                  validEndOffset := validEndOffset st;
                  entries := entries st ++ [e];
                  vptrs := vptrs st
                             ++ [{| valuePointer.Fid := fid lf;
                                    valuePointer.Len := recSize e;
                                    valuePointer.Offset := offset e |}];
                  cbState := cbState st |}.
Proof.
  intros Hz Hb. unfold iterate_body.
  cbn [err_is isZero_ptr orb]. rewrite Hz, Hb. reflexivity.
Qed.


(** The body on a record outside transactions, with nothing staged. *)
Lemma body_single st e :
  isZero e = false -> has_bit (meta e) bitTxn = false ->
  has_bit (meta e) bitFinTxn = false -> lastCommit st = 0 ->
  iterate_body lf fn st (Some e, None)
  = let ro' := uint32 (recordOffset st + recSize e) in
    let vp := {| valuePointer.Fid := fid lf; valuePointer.Len := recSize e;
                 valuePointer.Offset := offset e |} in
    let next s :=
      Continue {| recordOffset := ro'; lastCommit := lastCommit st;
                  validEndOffset := ro';
                  entries := entries st; vptrs := vptrs st; cbState := s |} in
    match fn e vp (cbState st) with
    | (s, Ok _) => next s
    | (s, Err err) =>
        if error_eqb err errStop then next s
        else Return s (Err (errFile err (path lf) "Iteration function"))
    | (s, Panic) => Return s Panic
    end.
Proof.
  intros Hz Hb Hf Hl. unfold iterate_body.
  cbn [err_is isZero_ptr orb]. rewrite Hz, Hb, Hf, Hl. reflexivity.
Qed.


(** A torn tail: entries with the transaction bit, then the end of the
    data. Whatever is staged, the loop stops with the callback's state
    and the watermark as they were. *)
Lemma loop_torn : forall torn tail st,
  Forall (fun e => has_bit (meta e) bitTxn = true) torn ->
  tail_stops tail ->
  iterate_loop lf fn (map ok_read torn ++ tail) st
  = (cbState st, Ok (validEndOffset st)).
Proof.
  induction torn as [|e torn IH]; intros tail st Ht Htail; cbn [map app].
  - destruct tail as [|r rest]; [apply loop_nil|].
    rewrite loop_cons, body_ends by apply Htail. reflexivity.
  - inversion Ht as [|? ? Hb Ht']; subst.
    rewrite loop_cons. unfold stamp, ok_read. cbn [fst snd option_map].
    destruct (isZero (with_offset e (recordOffset st))) eqn:Hz.
    + rewrite body_ends; [reflexivity|].
      unfold ends_data. cbn [fst snd err_is isZero_ptr orb]. rewrite Hz. reflexivity.
    + rewrite body_txn by assumption. cbv zeta.
      match goal with |- context [if ?c then _ else _] => destruct c end.
      * reflexivity.
      * rewrite IH by assumption. reflexivity.
Qed.

Lemma advance_app off es1 es2 :
  advance off (es1 ++ es2) = advance (advance off es1) es2.
Proof. unfold advance. apply fold_left_app. Qed.

Lemma place_app : forall es1 es2 off,
  place lf off (es1 ++ es2) = place lf off es1 ++ place lf (advance off es1) es2.
Proof.
  induction es1 as [|e es1 IH]; intros es2 off; cbn [app place].
  - reflexivity.
  - rewrite IH. reflexivity.
Qed.








End IterateFacts.

(** ** Replay of a log with a torn tail *)



(** The sample log: the record outside transactions and the two entries of
    the committed transaction are delivered, the watermark is 99, the end
    of the end record, and the torn entry [z] is not delivered. *)
Example iterate_tornLog :
  let r := iterate (H:=Sample.collaborators) Sample.tornLog true 0 recorder [] in
  map (fun d => content (fst d)) (fst r)
    = map content [Sample.rec_a; Sample.rec_x; Sample.rec_y]
  /\ snd r = Ok 99.
Proof. vm_compute. split; reflexivity. Qed.

(** ** The stop sentinel *)

(** C2 at a log of two records outside transactions, with a callback that
    returns [errStop] on every entry: the iteration does not end at the
    first entry. The callback is called on the second record too, and the
    offset returned is the end of the second record, 58, not the end of
    the first, 39. *)
Theorem iterate_errStop_goes_on :
  iterate (H:=Sample.collaborators) Sample.twoSingles true 0 stopper []
  = (place Sample.twoSingles 20 [Sample.rec_a; Sample.rec_b], Ok 58).
Proof. vm_compute. reflexivity. Qed.

(** Inside a transaction group [errStop] ends the delivery of that group
    only: of the group [x, y] the callback sees [x], and the iteration goes
    on to the end of the data. *)
Example iterate_errStop_in_group :
  let r := iterate (H:=Sample.collaborators) Sample.tornLog true 0 stopper [] in
  map (fun d => content (fst d)) (fst r) = map content [Sample.rec_a; Sample.rec_x]
  /\ snd r = Ok 99.
Proof. vm_compute. split; reflexivity. Qed.

Section CallbackErrors.
Context `{Collaborators}.
Context {S : Type}.

(** An error of the callback other than [errStop], on a record outside
    transactions, is returned with the file's path attached. *)
Lemma iterate_body_fn_error (lf : logFile) (fn : logEntry S) st e s' err :
  isZero e = false -> has_bit (meta e) bitTxn = false ->
  has_bit (meta e) bitFinTxn = false -> lastCommit st = 0 ->
  fn e {| valuePointer.Fid := fid lf; valuePointer.Len := recSize e;
          valuePointer.Offset := offset e |} (cbState st) = (s', Err err) ->
  error_eqb err errStop = false ->
  iterate_body lf fn st (Some e, None)
  = Return s' (Err (errFile err (path lf) "Iteration function")).
Proof.
  intros Hz Hb Hf Hl Hfn Hne.
  rewrite body_single by assumption. cbv zeta. rewrite Hfn, Hne. reflexivity.
Qed.

(** The same in the delivery of a transaction group. *)
Lemma deliver_fn_error (fn : logEntry S) p e vp es vps s s' err :
  fn e vp s = (s', Err err) -> error_eqb err errStop = false ->
  deliver fn p (e :: es) (vp :: vps) s
  = (s', Err (errFile err p "Iteration function")).
Proof. intros Hfn Hne. cbn [deliver]. rewrite Hfn, Hne. reflexivity. Qed.

End CallbackErrors.

(** ** The iteration is parametric in the callback *)

Section Simulation.
Context `{Collaborators}.
Context {S1 S2 : Type}.
Variable R : S1 -> S2 -> Prop.
Variable lf : logFile.
Variable fn1 : logEntry S1.
Variable fn2 : logEntry S2.
Hypothesis Hsim : fn_sim R fn1 fn2.

Lemma deliver_sim p : forall es vps s1 s2,
  R s1 s2 ->
  R (fst (deliver fn1 p es vps s1)) (fst (deliver fn2 p es vps s2))
  /\ snd (deliver fn1 p es vps s1) = snd (deliver fn2 p es vps s2).
Proof.
  induction es as [|e es IH]; intros vps s1 s2 HR; cbn [deliver].
  - auto.
  - destruct vps as [|vp vps]; [auto|].
    destruct (Hsim e vp s1 s2 HR) as [HR' Hr].
    destruct (fn1 e vp s1) as [s1' r1], (fn2 e vp s2) as [s2' r2].
    cbn [fst snd] in HR', Hr. subst r2.
    destruct r1 as [u|err|].
    + apply IH. exact HR'.
    + destruct (error_eqb err errStop); auto.
    + auto.
Qed.

Lemma body_sim a b r :
  st_rel R a b -> flow_rel R (iterate_body lf fn1 a r) (iterate_body lf fn2 b r).
Proof.
  destruct a as [ro1 lc1 ve1 es1 vp1 s1], b as [ro2 lc2 ve2 es2 vp2 s2].
  unfold st_rel. cbn [recordOffset lastCommit validEndOffset entries vptrs cbState].
  intros (-> & -> & -> & -> & -> & HR).
  destruct r as [e err]. unfold iterate_body.
  cbn [recordOffset lastCommit validEndOffset entries vptrs cbState].
  destruct (err_is err io_EOF || isZero_ptr e);
    [cbn; unfold st_rel; cbn; auto 10|].
  destruct (err_is err io_ErrUnexpectedEOF || err_is err errTruncate);
    [cbn; unfold st_rel; cbn; auto 10|].
  destruct err as [err|]; [cbn; auto|].
  destruct e as [e|]; [|cbn; unfold st_rel; cbn; auto 10].
  destruct (has_bit (meta e) bitTxn).
  { match goal with |- context [if ?c then _ else _] => destruct c end;
      cbn; unfold st_rel; cbn; auto 10. }
  destruct (has_bit (meta e) bitFinTxn).
  { destruct (strconv.ParseUint (Value e)) as [ts|];
      [|cbn; unfold st_rel; cbn; auto 10].
    destruct (negb (lc2 =? ts)); [cbn; unfold st_rel; cbn; auto 10|].
    destruct (deliver_sim (path lf) es2 vp2 s1 s2 HR) as [HR' Hr].
    destruct (deliver fn1 (path lf) es2 vp2 s1) as [s1' r1],
             (deliver fn2 (path lf) es2 vp2 s2) as [s2' r2].
    cbn [fst snd] in HR', Hr. subst r2.
    destruct r1; cbn; unfold st_rel; cbn; auto 10. }
  destruct (negb (lc2 =? 0)); [cbn; unfold st_rel; cbn; auto 10|].
  match goal with |- context [fn1 ?x ?y ?z] =>
    destruct (Hsim x y s1 s2 HR) as [HR' Hr];
    destruct (fn1 x y s1) as [s1' r1], (fn2 x y s2) as [s2' r2] end.
  cbn [fst snd] in HR', Hr. subst r2.
  destruct r1 as [u|err|]; [cbn; unfold st_rel; cbn; auto 10| |cbn; auto].
  destruct (error_eqb err errStop); cbn; unfold st_rel; cbn; auto 10.
Qed.

Lemma loop_sim : forall reader a b,
  st_rel R a b ->
  R (fst (iterate_loop lf fn1 reader a)) (fst (iterate_loop lf fn2 reader b))
  /\ snd (iterate_loop lf fn1 reader a) = snd (iterate_loop lf fn2 reader b).
Proof.
  induction reader as [|r reader IH]; intros a b Hab.
  - rewrite !loop_nil. cbn [fst snd].
    destruct Hab as (_ & _ & -> & _ & _ & HR). auto.
  - rewrite !loop_cons.
    assert (Hro : recordOffset a = recordOffset b) by apply Hab.
    rewrite Hro.
    pose proof (body_sim a b (stamp (recordOffset b) r) Hab) as Hf.
    destruct (iterate_body lf fn1 a (stamp (recordOffset b) r)) as [a'|a'|s1 r1],
             (iterate_body lf fn2 b (stamp (recordOffset b) r)) as [b'|b'|s2 r2];
      cbn [flow_rel] in Hf; try contradiction.
    + apply IH. exact Hf.
    + cbn [fst snd]. destruct Hf as (_ & _ & -> & _ & _ & HR). auto.
    + cbn [fst snd]. destruct Hf as [HR ->]. auto.
Qed.

(** Related callbacks started in related states end in related states,
    with the same result. *)
Lemma iterate_sim readOnly offset s1 s2 :
  R s1 s2 ->
  R (fst (iterate lf readOnly offset fn1 s1)) (fst (iterate lf readOnly offset fn2 s2))
  /\ snd (iterate lf readOnly offset fn1 s1) = snd (iterate lf readOnly offset fn2 s2).
Proof.
  intros HR. unfold iterate. apply loop_sim.
  unfold st_rel. cbn. auto 10.
Qed.

End Simulation.

(** ** Appended records are contiguous *)




(** The sample: a record of 16 bytes written at offset 20 moves [writeAt]
    to 36. *)
Example writeEntry_sample :
  writeAt (fst (fst (writeEntry (H:=Sample.collaborators) Sample.encryptedLog []
                       (Sample.entry "k" "secret" x00)))) = 36.
Proof. vm_compute. reflexivity. Qed.

Section WriteAtInvariant.
Context `{Collaborators}.

(** [writeAt] stays at or after the header when the mapped region is
    shorter than 4 GiB. *)
Lemma writeEntry_writeAt_ge lf buf e lf' buf' :
  writeEntry lf buf e = (lf', buf', Ok tt) ->
  vlogHeaderSize <= writeAt lf -> len (lfData lf) < 2 ^ 32 ->
  vlogHeaderSize <= writeAt lf'.
Proof.
  intros Hw Hge Hlt.
  destruct (writeEntry_ok _ _ _ _ _ Hw) as (_ & Hw0 & Hfit & _ & Hat & _).
  pose proof (len_nonneg buf').
  rewrite Hat. unfold uint32. rewrite Z.mod_small; lia.
Qed.

End WriteAtInvariant.

(** ** The memtable *)

Section MemTableFacts.
Context `{Collaborators}.

Lemma replay_state_app mt ds1 ds2 :
  replay_state mt (ds1 ++ ds2) = replay_state (replay_state mt ds1) ds2.
Proof. unfold replay_state. apply fold_left_app. Qed.

Lemma replay_one_frame mt e :
  wal (replay_one mt e) = wal mt /\ ref (replay_one mt e) = ref mt
  /\ opt (replay_one mt e) = opt mt /\ buf (replay_one mt e) = buf mt.
Proof. repeat split. Qed.

(** The replay touches the sorted map and the timestamp only. *)
Lemma replay_state_frame : forall ds mt,
  wal (replay_state mt ds) = wal mt /\ ref (replay_state mt ds) = ref mt
  /\ opt (replay_state mt ds) = opt mt /\ buf (replay_state mt ds) = buf mt.
Proof.
  induction ds as [|d ds IH]; intros mt.
  - repeat split.
  - change (replay_state mt (d :: ds)) with (replay_state (replay_one mt (fst d)) ds).
    destruct (IH (replay_one mt (fst d))) as (-> & -> & -> & ->).
    apply replay_one_frame.
Qed.

Lemma replay_state_sl : forall ds mt s,
  sl mt = Some s -> exists s', sl (replay_state mt ds) = Some s'.
Proof.
  induction ds as [|d ds IH]; intros mt s Hs.
  - exists s. exact Hs.
  - change (replay_state mt (d :: ds)) with (replay_state (replay_one mt (fst d)) ds).
    eapply IH. unfold replay_one. cbn [sl set_sl]. rewrite Hs. reflexivity.
Qed.

(** What the replay callback does to a memtable that has a sorted map:
    the timestamp becomes the larger of its value and the key's, and the
    entry is put into the map as it is. *)
Lemma replayFunction_step o e vp mt s :
  sl mt = Some s ->
  replayFunction o e vp mt = (replay_one mt e, Ok tt).
Proof.
  intros Hs. unfold replayFunction, replay_one.
  destruct (ParseTs (Key e) >? nextTxnTs mt) eqn:E.
  - apply Z.gtb_lt in E. rewrite Z.max_r by lia.
    cbn [sl set_nextTxnTs]. rewrite Hs. reflexivity.
  - rewrite Z.gtb_ltb in E. apply Z.ltb_ge in E. rewrite Z.max_l by lia.
    rewrite Hs. destruct mt. reflexivity.
Qed.

(** The replay callback and the recorder run in step. *)
Lemma replay_sim o mt0 :
  fn_sim (fun mt ds => mt = replay_state mt0 ds /\ exists s, sl mt = Some s)
         (replayFunction o) recorder.
Proof.
  intros e vp mt ds [-> [s Hs]].
  rewrite (replayFunction_step o e vp _ s Hs). unfold recorder. cbn [fst snd].
  split; [|reflexivity]. split.
  - rewrite replay_state_app. reflexivity.
  - unfold replay_one. cbn [sl set_sl set_nextTxnTs]. rewrite Hs.
    eexists. reflexivity.
Qed.

(** The replay of a log file into a memtable is the replay of what the
    recorder is given, with the same result. *)
Lemma iterate_replay lf o mt s :
  sl mt = Some s ->
  iterate lf true 0 (replayFunction o) mt
  = (replay_state mt (fst (iterate lf true 0 recorder [])),
     snd (iterate lf true 0 recorder [])).
Proof.
  intros Hs.
  destruct (iterate_sim _ lf _ _ (replay_sim o mt) true 0 mt [])
    as [[Hst _] Hr].
  { split; [reflexivity | eauto]. }
  destruct (iterate lf true 0 (replayFunction o) mt) as [mt1 r1].
  cbn [fst snd] in Hst, Hr. subst. reflexivity.
Qed.


(** [UpdateSkipList] on a memtable that has a log file and a sorted
    map. *)
Lemma UpdateSkipList_run mt lf s0 :
  wal mt = Some lf -> sl mt = Some s0 ->
  UpdateSkipList mt
  = let mt1 := replay_state mt (fst (iterate lf true 0 recorder [])) in
    match snd (iterate lf true 0 recorder []) with
    | Ok endOff =>
        (set_wal mt1 (Some (set_mf lf (fst (MmapFile_Truncate (mf lf) (int64 endOff))))),
         match snd (MmapFile_Truncate (mf lf) (int64 endOff)) with
         | Some err => Err err
         | None => Ok tt
         end)
    | Err err =>
        (mt1, Err (Wrapf err ("while iterating wal: " ++ MmapFile.Name (mf lf))))
    | Panic => (mt1, Panic)
    end.
Proof.
  intros Hw Hs. unfold UpdateSkipList. rewrite Hw, Hs.
  rewrite (iterate_replay lf (opt mt) mt s0 Hs). cbv zeta.
  destruct (snd (iterate lf true 0 recorder [])) as [endOff|err|]; try reflexivity.
  destruct (replay_state_frame (fst (iterate lf true 0 recorder [])) mt) as (-> & _).
  rewrite Hw.
  destruct (MmapFile_Truncate (mf lf) (int64 endOff)) as [m [err|]]; reflexivity.
Qed.


End MemTableFacts.




(** The replayed sample: the three committed entries are in the sorted
    map, in order, and the timestamp is 9. *)
Example UpdateSkipList_sample :
  let mt := fst (UpdateSkipList (H:=Sample.collaborators)
                   (Sample.memTable_of Sample.tornLog)) in
  nextTxnTs mt = 9
  /\ sl mt = Some [SklPut (Key Sample.rec_a) (valueOf Sample.rec_a);
                   SklPut (Key Sample.rec_x) (valueOf Sample.rec_x);
                   SklPut (Key Sample.rec_y) (valueOf Sample.rec_y)].
Proof. vm_compute. split; reflexivity. Qed.

(** ** Put *)

(** C5: when the append to the log returns an error, [Put] returns that
    error wrapped and the sorted map is as it was; when the append
    succeeds, [Put] puts the key and value into the sorted map and returns
    nil. *)
Theorem Put_follows_append `{Collaborators} mt key value lf b :
  wal mt = Some lf -> buf mt = Some b ->
  (forall lf' b' err,
     writeEntry lf b (entryOf key value) = (lf', b', Err err) ->
     snd (Put mt key value) = Err (Wrapf err "cannot write entry to WAL file")
     /\ sl (fst (Put mt key value)) = sl mt)
  /\ (forall lf' b' s,
        writeEntry lf b (entryOf key value) = (lf', b', Ok tt) ->
        sl mt = Some s ->
        snd (Put mt key value) = Ok tt
        /\ sl (fst (Put mt key value)) = Some (skl.Put s key value)
        /\ wal (fst (Put mt key value)) = Some lf').
Proof.
  intros Hw Hb. unfold Put. rewrite Hw, Hb. fold (entryOf key value).
  split.
  - intros lf' b' err Hwr. rewrite Hwr. cbn. auto.
  - intros lf' b' s Hwr Hs. rewrite Hwr. cbn [sl set_buf set_wal]. rewrite Hs.
    cbn. auto.
Qed.

Lemma Put_follows_append_witness :
  (snd (Put (H:=Sample.collaborators) (Sample.memTable_of Sample.badKeyLog)
            (Sample.keyTs "a" 5) Sample.value_A)
   = Err (Wrapf (Wrapf KeySizeError "Error while encoding entry for vlog.")
                "cannot write entry to WAL file")
   /\ sl (fst (Put (H:=Sample.collaborators) (Sample.memTable_of Sample.badKeyLog)
                   (Sample.keyTs "a" 5) Sample.value_A))
      = sl (Sample.memTable_of Sample.badKeyLog))
  /\ (snd (Put (H:=Sample.collaborators) (Sample.memTable_of Sample.plainLog)
               (Sample.keyTs "a" 5) Sample.value_A) = Ok tt
      /\ sl (fst (Put (H:=Sample.collaborators) (Sample.memTable_of Sample.plainLog)
                      (Sample.keyTs "a" 5) Sample.value_A))
         = Some (skl.Put skl.NewSkiplist (Sample.keyTs "a" 5) Sample.value_A)
      /\ wal (fst (Put (H:=Sample.collaborators) (Sample.memTable_of Sample.plainLog)
                       (Sample.keyTs "a" 5) Sample.value_A))
         = Some (fst (fst (writeEntry (H:=Sample.collaborators) Sample.plainLog []
                             (entryOf (Sample.keyTs "a" 5) Sample.value_A))))).
Proof.
  split.
  - apply (proj1 (Put_follows_append (H:=Sample.collaborators)
                    (Sample.memTable_of Sample.badKeyLog)
                    (Sample.keyTs "a" 5) Sample.value_A Sample.badKeyLog []
                    eq_refl eq_refl)
                 Sample.badKeyLog
                 (snd (fst (writeEntry (H:=Sample.collaborators) Sample.badKeyLog []
                              (entryOf (Sample.keyTs "a" 5) Sample.value_A))))).
    vm_compute. reflexivity.
  - apply (proj2 (Put_follows_append (H:=Sample.collaborators)
                    (Sample.memTable_of Sample.plainLog)
                    (Sample.keyTs "a" 5) Sample.value_A Sample.plainLog []
                    eq_refl eq_refl)
                 _
                 (snd (fst (writeEntry (H:=Sample.collaborators) Sample.plainLog []
                              (entryOf (Sample.keyTs "a" 5) Sample.value_A))))).
    + vm_compute. reflexivity.
    + reflexivity.
Defined.

(** ** The reference count *)

Lemma int32_small x : - 2 ^ 31 <= x < 2 ^ 31 -> int32 x = x.
Proof.
  intros Hx. unfold int32, sint.
  change (2 ^ (32 - 1)) with (2 ^ 31).
  rewrite Z.mod_small by lia. lia.
Qed.

Section RefCount.
Context `{Collaborators}.

Lemma IncrRef_frame mt :
  sl (IncrRef mt) = sl mt /\ wal (IncrRef mt) = wal mt
  /\ ref (IncrRef mt) = int32 (ref mt + 1).
Proof. repeat split. Qed.

(** A [DecrRef] that leaves the count positive releases nothing. *)
Lemma DecrRef_positive mt :
  0 < int32 (ref mt - 1) ->
  DecrRef mt = (set_ref mt (int32 (ref mt - 1)), Ok tt).
Proof.
  intros Hpos. unfold DecrRef.
  replace (int32 (ref mt - 1) >? 0) with true by (symmetry; apply Z.gtb_lt; lia).
  reflexivity.
Qed.

(** A [DecrRef] that brings the count to zero or below reclaims the arena
    and deletes the log file. *)
Lemma DecrRef_release mt s lf :
  sl mt = Some s -> wal mt = Some lf -> int32 (ref mt - 1) <= 0 ->
  fst (DecrRef mt)
  = set_wal (set_sl (set_ref mt (int32 (ref mt - 1))) (Some (skl.ReclaimMem s)))
            (Some (set_mf lf (fst (MmapFile_Delete (mf lf))))).
Proof.
  intros Hs Hw Hle. unfold DecrRef.
  replace (int32 (ref mt - 1) >? 0) with false
    by (symmetry; rewrite Z.gtb_ltb; apply Z.ltb_ge; lia).
  cbn [sl set_ref]. rewrite Hs. cbn [wal set_sl set_ref]. rewrite Hw. reflexivity.
Qed.

Lemma MmapFile_Delete_calls m :
  MmapFile.calls (fst (MmapFile_Delete m)) = MmapFile.calls m ++ [CallDelete].
Proof.
  unfold MmapFile_Delete, call. destruct (callErr m CallDelete); reflexivity.
Qed.

Lemma DecrRef_release_counts mt s lf :
  sl mt = Some s -> wal mt = Some lf -> int32 (ref mt - 1) <= 0 ->
  reclaims (fst (DecrRef mt)) = Datatypes.S (reclaims mt)
  /\ deletes (fst (DecrRef mt)) = Datatypes.S (deletes mt)
  /\ ref (fst (DecrRef mt)) = int32 (ref mt - 1).
Proof.
  intros Hs Hw Hle. rewrite (DecrRef_release mt s lf Hs Hw Hle).
  unfold reclaims, deletes, wal_calls.
  cbn [sl wal ref set_wal set_sl set_ref mf set_mf]. rewrite Hs, Hw.
  rewrite MmapFile_Delete_calls. unfold skl.ReclaimMem.
  rewrite !filter_app, !length_app. cbn [filter length]. repeat split; lia.
Qed.

(** While the count stays positive, the calls only move the count. *)
Lemma run_ops_positive : forall ops mt,
  stays_positive (ref mt) ops -> 0 < ref mt < 2 ^ 31 ->
  sl (run_ops ops mt) = sl mt /\ wal (run_ops ops mt) = wal mt
  /\ ref (run_ops ops mt)
     = ref mt + Z.of_nat (count_op Incr ops) - Z.of_nat (count_op Decr ops).
Proof.
  induction ops as [|op ops IH]; intros mt Hpos Href.
  - cbn. repeat split. lia.
  - cbn [stays_positive] in Hpos. destruct Hpos as [Hc Hpos].
    change (run_ops (op :: ops) mt) with (run_ops ops (apply_op mt op)).
    destruct op.
    + assert (Hr : ref (apply_op mt Incr) = ref mt + 1).
      { cbn [apply_op]. destruct (IncrRef_frame mt) as (_ & _ & ->).
        apply int32_small. lia. }
      destruct (IH (apply_op mt Incr)) as (Hs & Hw & Hf);
        [rewrite Hr; exact Hpos | rewrite Hr; lia|].
      rewrite Hs, Hw, Hf, Hr.
      unfold count_op. cbn [filter length]. repeat split. lia.
    + assert (Hi : int32 (ref mt - 1) = ref mt - 1) by (apply int32_small; lia).
      assert (Hd : apply_op mt Decr = set_ref mt (ref mt - 1)).
      { cbn [apply_op]. rewrite DecrRef_positive by (rewrite Hi; lia).
        cbn [fst]. rewrite Hi. reflexivity. }
      destruct (IH (apply_op mt Decr)) as (Hs & Hw & Hf);
        [rewrite Hd; exact Hpos | rewrite Hd; cbn [ref set_ref]; lia|].
      rewrite Hs, Hw, Hf, Hd.
      unfold count_op. cbn [filter length ref sl wal set_ref]. repeat split. lia.
Qed.

Lemma run_ops_app ops1 ops2 mt :
  run_ops (ops1 ++ ops2) mt = run_ops ops2 (run_ops ops1 mt).
Proof. unfold run_ops. apply fold_left_app. Qed.

(** With as many increments as decrements on the way and the count
    positive throughout, the closing [DecrRef] is the one release. *)
Lemma release_once mt s lf body :
  sl mt = Some s -> wal mt = Some lf -> ref mt = 1 ->
  count_op Incr body = count_op Decr body ->
  stays_positive 1 body ->
  reclaims (run_ops body mt) = reclaims mt
  /\ deletes (run_ops body mt) = deletes mt
  /\ reclaims (run_ops (body ++ [Decr]) mt) = Datatypes.S (reclaims mt)
  /\ deletes (run_ops (body ++ [Decr]) mt) = Datatypes.S (deletes mt)
  /\ ref (run_ops (body ++ [Decr]) mt) = 0.
Proof.
  intros Hs Hw Href Hcount Hpos.
  destruct (run_ops_positive body mt) as (Hs' & Hw' & Hr');
    [rewrite Href; exact Hpos | rewrite Href; lia|].
  assert (Hr1 : ref (run_ops body mt) = 1) by (rewrite Hr', Hcount, Href; lia).
  assert (Hrc : reclaims (run_ops body mt) = reclaims mt)
    by (unfold reclaims; rewrite Hs'; reflexivity).
  assert (Hdc : deletes (run_ops body mt) = deletes mt)
    by (unfold deletes, wal_calls; rewrite Hw'; reflexivity).
  split; [exact Hrc|]. split; [exact Hdc|].
  rewrite run_ops_app.
  change (run_ops [Decr] (run_ops body mt)) with (fst (DecrRef (run_ops body mt))).
  destruct (DecrRef_release_counts (run_ops body mt) s lf) as (Ha & Hb & Hc).
  - rewrite Hs'. exact Hs.
  - rewrite Hw'. exact Hw.
  - rewrite Hr1. cbn. lia.
  - rewrite Ha, Hb, Hc, Hrc, Hdc, Hr1. repeat split.
Qed.

End RefCount.

(** C7: for a memtable created with reference count 1, take [n]
    [IncrRef] and [n + 1] [DecrRef] calls in any order that keeps to the
    rule of use, that a memtable whose count has reached zero is never
    referenced again: the count is positive (and within 32 bits) after
    each call but the last, so the last call is a [DecrRef]. After the
    first [2 n] calls nothing has been released, and the [DecrRef] that
    follows brings the count to zero, reclaims the arena once and deletes
    the log file once. A [DecrRef] that leaves the count positive releases
    nothing. *)
Theorem DecrRef_releases_once `{Collaborators} mt s lf body (n : nat) :
  sl mt = Some s -> wal mt = Some lf -> ref mt = 1 ->
  count_op Incr body = n -> count_op Decr body = n ->
  stays_positive 1 body ->
  (reclaims (run_ops body mt) = reclaims mt
   /\ deletes (run_ops body mt) = deletes mt)
  /\ (reclaims (run_ops (body ++ [Decr]) mt) = Datatypes.S (reclaims mt)
      /\ deletes (run_ops (body ++ [Decr]) mt) = Datatypes.S (deletes mt)
      /\ ref (run_ops (body ++ [Decr]) mt) = 0)
  /\ (forall m, 0 < int32 (ref m - 1) ->
        sl (fst (DecrRef m)) = sl m /\ wal (fst (DecrRef m)) = wal m).
Proof.
  intros Hs Hw Href Hi Hd Hpos.
  destruct (release_once mt s lf body Hs Hw Href) as (H1 & H2 & H3 & H4 & H5);
    [congruence | exact Hpos |].
  split; [auto|]. split; [auto|].
  intros m Hm. rewrite DecrRef_positive by exact Hm. split; reflexivity.
Qed.

Lemma DecrRef_releases_once_witness :
  let mt := Sample.memTable_of Sample.plainLog in
  let body := [Incr; Incr; Decr; Incr; Decr; Decr] in
  (reclaims (run_ops (H:=Sample.collaborators) body mt) = reclaims mt
   /\ deletes (run_ops (H:=Sample.collaborators) body mt) = deletes mt)
  /\ (reclaims (run_ops (H:=Sample.collaborators) (body ++ [Decr]) mt)
      = Datatypes.S (reclaims mt)
      /\ deletes (run_ops (H:=Sample.collaborators) (body ++ [Decr]) mt)
         = Datatypes.S (deletes mt)
      /\ ref (run_ops (H:=Sample.collaborators) (body ++ [Decr]) mt) = 0)
  /\ (forall m, 0 < int32 (ref m - 1) ->
        sl (fst (DecrRef (H:=Sample.collaborators) m)) = sl m
        /\ wal (fst (DecrRef (H:=Sample.collaborators) m)) = wal m).
Proof.
  intros mt body.
  apply (DecrRef_releases_once (H:=Sample.collaborators) mt
           skl.NewSkiplist Sample.plainLog body 3);
    try reflexivity.
  cbn. repeat split; lia.
Defined.

(** The rule of use is the callers' to keep: [DecrRef] releases whenever
    the count it leaves is not positive, so calls made on a memtable whose
    count has already reached zero, as in the order [DecrRef], [IncrRef],
    [DecrRef], release it again. *)
Example DecrRef_after_release :
  let mt := Sample.memTable_of Sample.plainLog in
  let ops := [Decr; Incr; Decr] in
  ref mt = 1 /\ count_op Incr ops = 1%nat /\ count_op Decr ops = 2%nat
  /\ reclaims (run_ops (H:=Sample.collaborators) ops mt) = 2%nat
  /\ deletes (run_ops (H:=Sample.collaborators) ops mt) = 2%nat.
Proof. vm_compute. repeat split. Qed.

(** ** The header of the log file *)

Section HeaderFacts.
Context `{Collaborators}.

Lemma bootstrap_header lf rnd lf' :
  bootstrap lf rnd = (lf', Ok tt) ->
  firstn (Z.to_nat vlogHeaderSize) (lfData lf')
    = binary.PutUint64 (keyID lf') ++ baseIV lf'
  /\ len (baseIV lf') = 12
  /\ skipn (Z.to_nat vlogHeaderSize) (lfData lf')
     = skipn (Z.to_nat vlogHeaderSize) (lfData lf).
Proof.
  intros Hb. destruct (bootstrap_ok _ _ _ Hb) as (Hd & Hiv & Hlen & _).
  assert (Hl : length (binary.PutUint64 (keyID lf') ++ baseIV lf') = 20%nat).
  { rewrite length_app. unfold len in Hiv.
    change (length (binary.PutUint64 (keyID lf'))) with 8%nat. lia. }
  rewrite Hd, app_assoc. change (Z.to_nat vlogHeaderSize) with 20%nat.
  rewrite <- Hl at 1 3.
  rewrite firstn_app, firstn_all, Nat.sub_diag, skipn_app, skipn_all, Nat.sub_diag.
  cbn [firstn skipn app]. rewrite app_nil_r. auto.
Qed.

Lemma reset_spec lf :
  exists lf',
    reset (Some lf) = Some lf'
    /\ writeAt lf' = vlogHeaderSize
    /\ length (lfData lf') = length (lfData lf)
    /\ firstn (Z.to_nat vlogHeaderSize) (lfData lf')
       = firstn (Z.to_nat vlogHeaderSize) (lfData lf)
    /\ (vlogHeaderSize <= writeAt lf ->
        skipn (Z.to_nat (writeAt lf)) (lfData lf')
        = skipn (Z.to_nat (writeAt lf)) (lfData lf))
    /\ (forall i : nat,
          vlogHeaderSize <= Z.of_nat i < writeAt lf ->
          (i < length (lfData lf))%nat ->
          nth_error (lfData lf') i = Some x00).
Proof.
  eexists. split; [reflexivity|].
  change (lfData (set_writeAt (set_Data lf
            (ZeroOut (lfData lf) vlogHeaderSize (writeAt lf))) vlogHeaderSize))
    with (ZeroOut (lfData lf) vlogHeaderSize (writeAt lf)).
  split; [reflexivity|].
  split; [apply ZeroOut_length|].
  split; [apply ZeroOut_prefix; reflexivity|].
  split.
  - intros Hge. apply ZeroOut_suffix. unfold vlogHeaderSize in *. lia.
  - intros i Hi Hlt. apply ZeroOut_zero; unfold vlogHeaderSize in *; lia.
Qed.

(** The replay reads the log file and leaves it as it is. *)
Lemma iterate_replay_wal lf o mt s :
  sl mt = Some s ->
  wal (fst (iterate lf true 0 (replayFunction o) mt)) = wal mt.
Proof.
  intros Hs. rewrite (iterate_replay lf o mt s Hs). cbn [fst].
  apply replay_state_frame.
Qed.

(** [open] on a file that was not just created writes nothing into the
    mapped bytes. *)
Lemma open_existing lf w p o w1 m ferr :
  OpenMmapFile w p (int64 (2 * int64 (ValueLogFileSize o))) = (w1, (m, ferr)) ->
  err_is ferr z_NewFile = false ->
  lfData (snd (fst (open lf w p o))) = MmapFile.Data m.
Proof.
  intros Ho Hnew. unfold open. rewrite Ho, Hnew.
  destruct ferr as [err|].
  - reflexivity.
  - destruct (copy (repeat x00 (Z.to_nat vlogHeaderSize)) (lfData (set_mf lf m)))
      as [b n].
    destruct (vlogHeaderSize =? n); [|reflexivity].
    destruct (KeyRegistry.dataKey (registry (set_mf lf m)) (binary.be_value (firstn 8 b)))
      as [dk|err|]; try reflexivity.
    match goal with |- context [if ?c then _ else _] => destruct c end; reflexivity.
Qed.

End HeaderFacts.

(** The sample file after [bootstrap]: key id 0 and the base IV. *)
Example bootstrap_sample :
  firstn 20 (lfData (fst (bootstrap Sample.plainLog
                            (Ok Sample.base_iv))))
  = [x00; x00; x00; x00; x00; x00; x00; x00;
     x01; x02; x03; x04; x05; x06; x07; x08; x09; x0a; x0b; x0c].
Proof. vm_compute. reflexivity. Qed.

(** ** Directory recovery *)


Lemma int64_small x : MinInt64 <= x <= MaxInt64 -> int64 x = x.
Proof.
  unfold int64, sint, MinInt64, MaxInt64. change (2 ^ (64 - 1)) with (2 ^ 63).
  intros Hx. rewrite Z.mod_small by lia. lia.
Qed.












Section RecoveryFacts.
Context `{Collaborators}.

Lemma open_all_nextMemFid : forall fids db w w' db' r,
  open_all db w fids = (w', db', r) -> nextMemFid db' = nextMemFid db.
Proof.
  induction fids as [|fid fids IH]; intros db w w' db' r; cbn [open_all].
  - intros [= _ <- _]. reflexivity.
  - destruct (openMemTable db w fid) as [w1 [[mt|] [u|err|]]];
      try (intros [= _ <- _]; reflexivity).
    intros Ho. apply IH in Ho. exact Ho.
Qed.



End RecoveryFacts.



(** The sample directory holds the ids 3 and 1: the counter is 4 after
    recovery, and 5 after the first new memtable, which took the id 4. *)
Example openMemTables_sample :
  let r := openMemTables (H:=Sample.collaborators) Sample.freshDB Sample.files
             Sample.options in
  let n := newMemTable (H:=Sample.collaborators) (snd (fst r)) (fst (fst r)) in
  snd r = Ok tt /\ nextMemFid (snd (fst r)) = 4
  /\ nextMemFid (snd (fst n)) = 5
  /\ option_map (fun mt => option_map path (wal mt)) (fst (snd n))
     = Some (Some "dir/00004.mem"%string).
Proof. vm_compute. repeat split. Qed.

(** A directory without log files: the counter of a database that has not
    been opened yet becomes 1. *)
Example openMemTables_empty :
  nextMemFid (snd (fst (openMemTables (H:=Sample.collaborators) Sample.freshDB
                          [("dir/MANIFEST"%string, [])] Sample.options))) = 1.
Proof. vm_compute. reflexivity. Qed.

(** A log file named after the largest [int]: the counter wraps around to
    the smallest one. *)
Example openMemTables_wraps :
  strconv.ParseInt (ascii_bytes "9223372036854775807") = Some MaxInt64
  /\ int64 (MaxInt64 + 1) = MinInt64.
Proof. vm_compute. split; reflexivity. Qed.

(** [openMemTable] leaves the scratch buffer of the memtable nil, so a [Put]
    on the memtable it returns panics in [writeEntry] unless the caller has
    set the buffer first. *)
Example Put_after_newMemTable :
  let n := newMemTable (H:=Sample.collaborators) Sample.freshDB Sample.files in
  option_map (fun mt => (buf mt, snd (Put (H:=Sample.collaborators) mt
                                        (Sample.keyTs "a" 5) Sample.value_A)))
             (fst (snd n))
  = Some (None, Panic).
Proof. vm_compute. reflexivity. Qed.

(** ** Further properties of the record codec *)

(** A byte put below a value shifted by eight bits adds to it. *)
Lemma lor_shiftl_byte acc b :
  0 <= b < 256 -> Z.lor (Z.shiftl acc 8) b = acc * 256 + b.
Proof.
  intros Hb.
  pose proof (Z.add_lor_land (Z.shiftl acc 8) b) as Hadd.
  assert (Hz : Z.land (Z.shiftl acc 8) b = 0).
  { apply Z.bits_inj'. intros n Hn.
    rewrite Z.land_spec, Z.bits_0.
    destruct (Z_lt_le_dec n 8) as [Hlt|Hge].
    - rewrite Z.shiftl_spec_low by lia. reflexivity.
    - replace (Z.testbit b n) with false; [apply andb_false_r|].
      symmetry. rewrite <- (Z.mod_small b (2 ^ 8)) by (change (2 ^ 8) with 256; lia).
      apply Z.mod_pow2_bits_high. lia. }
  rewrite Hz, Z.shiftl_mul_pow2 in Hadd by lia. change (2 ^ 8) with 256 in Hadd.
  rewrite Z.shiftl_mul_pow2 by lia. change (2 ^ 8) with 256. lia.
Qed.

Lemma be_value_fold n : forall x acc,
  fold_left (fun acc b => Z.lor (Z.shiftl acc 8) (byte_to_Z b)) (binary.be_bytes n x) acc
  = acc * 2 ^ (8 * Z.of_nat n) + x mod 2 ^ (8 * Z.of_nat n).
Proof.
  induction n as [|n IH]; intros x acc.
  - cbn [binary.be_bytes fold_left]. change (2 ^ (8 * Z.of_nat 0)) with 1.
    rewrite Z.mod_1_r. lia.
  - cbn [binary.be_bytes fold_left].
    rewrite lor_shiftl_byte by apply byte_to_Z_range.
    rewrite IH, byte_to_of_Z.
    rewrite Z.shiftr_div_pow2 by lia.
    replace (8 * Z.of_nat (S n)) with (8 * Z.of_nat n + 8) by lia.
    rewrite Z.pow_add_r by lia. change (2 ^ 8) with 256.
    rewrite (Z.rem_mul_r x (2 ^ (8 * Z.of_nat n)) 256) by lia.
    lia.
Qed.

(** Reading back what [PutUint32] and [PutUint64] wrote. *)
Lemma be_value_be_bytes n x :
  binary.be_value (binary.be_bytes n x) = x mod 2 ^ (8 * Z.of_nat n).
Proof. unfold binary.be_value. rewrite be_value_fold. lia. Qed.

Lemma Uint32_PutUint32 x : binary.be_value (binary.PutUint32 x) = uint32 x.
Proof. apply (be_value_be_bytes 4). Qed.

Lemma Uint64_PutUint64 x : binary.be_value (binary.PutUint64 x) = uint64 x.
Proof. apply (be_value_be_bytes 8). Qed.

Lemma uint32_range x : 0 <= uint32 x < 2 ^ 32.
Proof. unfold uint32. apply Z.mod_pos_bound. lia. Qed.

Lemma uint32_small x : 0 <= x < 2 ^ 32 -> uint32 x = x.
Proof. intros Hx. unfold uint32. apply Z.mod_small. exact Hx. Qed.

(** [generateIV] on a base IV that has its 12 bytes. *)
Lemma generateIV_Some lf offset :
  (12 <= length (baseIV lf))%nat ->
  generateIV lf offset = Some (firstn 12 (baseIV lf) ++ binary.PutUint32 offset).
Proof.
  intros Hiv. unfold generateIV, copy.
  change (length (firstn 12 (repeat x00 16))) with 12%nat.
  replace (Nat.min 12 (length (baseIV lf))) with 12%nat by lia.
  change (12 =? Z.of_nat 12) with true. cbv iota beta.
  change (skipn 12 (firstn 12 (repeat x00 16))) with (@nil byte).
  rewrite app_nil_r. reflexivity.
Qed.

Lemma generateIV_None lf offset :
  (length (baseIV lf) < 12)%nat -> generateIV lf offset = None.
Proof.
  intros Hiv. unfold generateIV, copy.
  change (length (firstn 12 (repeat x00 16))) with 12%nat.
  remember (Nat.min 12 (length (baseIV lf))) as m eqn:Em.
  replace (12 =? Z.of_nat m) with false by (symmetry; apply Z.eqb_neq; lia).
  reflexivity.
Qed.

Section PlainRoundTrip.
Context `{Collaborators}.

(** Decoding the header, key and value that [encodeEntry] wrote on a
    plaintext file. *)
Lemma decodeEntry_written_plain lf e offset :
  dataKey lf = None ->
  len (Key e) + len (Value e) < 2 ^ 32 ->
  0 <= ExpiresAt e < 2 ^ 64 ->
  decodeEntry lf (header_Encode (entryHeader e) ++ Key e ++ Value e) offset
  = Ok {| meta := meta e; UserMeta := UserMeta e; ExpiresAt := ExpiresAt e;
          offset := offset; Key := Key e; Value := Value e; hlen := 0 |}.
Proof.
  intros Hdk Hsum He.
  pose proof (len_nonneg (Key e)). pose proof (len_nonneg (Value e)).
  unfold decodeEntry.
  rewrite header_Decode_Encode
    by (unfold entryHeader, uint32; cbn [header.klen header.vlen header.expiresAt];
        rewrite ?Z.mod_small by lia; lia).
  rewrite slice_from_len_app, Hdk.
  unfold entryHeader.
  cbn [header.klen header.vlen header.expiresAt header.meta header.userMeta].
  rewrite (uint32_small (len (Key e))), (uint32_small (len (Value e))) by lia.
  rewrite slice_app_l, (uint32_small (len (Key e) + len (Value e))) by lia.
  rewrite slice_app_r. reflexivity.
Qed.

End PlainRoundTrip.

(** X1: on a file without a data key, for every entry whose key and value
    lengths together fit in 32 bits, decoding the bytes [encodeEntry]
    appended to the buffer, without the checksum, gives an entry with the
    same key, value, meta, user-meta and expires-at, and with the offset
    the decoder was given. *)
Theorem decodeEntry_encodeEntry_plaintext `{Collaborators} lf buf e off out n :
  dataKey lf = None ->
  len (Key e) + len (Value e) < 2 ^ 32 ->
  0 <= ExpiresAt e < 2 ^ 64 ->
  encodeEntry lf buf e off = (out, Ok n) ->
  exists e',
    decodeEntry lf (firstn (Z.to_nat (n - crc32.Size)) (skipn (length buf) out)) off
    = Ok e'
    /\ Key e' = Key e /\ Value e' = Value e /\ meta e' = meta e
    /\ UserMeta e' = UserMeta e /\ ExpiresAt e' = ExpiresAt e
    /\ offset e' = off.
Proof.
  intros Hdk Hsum He Henc.
  destruct (encodeEntry_ok_inv _ _ _ _ _ _ Henc) as (kv & Hkv & -> & -> & _).
  unfold writtenKV in Hkv. rewrite Hdk in Hkv. injection Hkv as <-.
  rewrite produced_payload by (reflexivity || apply PutUint32_len).
  rewrite decodeEntry_written_plain by assumption.
  eexists. split; [reflexivity|]. cbn. repeat split.
Qed.

Lemma decodeEntry_encodeEntry_plaintext_witness :
  let e := Sample.entry "k" "plain" x00 in
  let out := fst (encodeEntry (H:=Sample.collaborators) Sample.plainLog [] e 20) in
  exists e',
    decodeEntry (H:=Sample.collaborators) Sample.plainLog
      (firstn (Z.to_nat (15 - crc32.Size)) (skipn (length (@nil byte)) out)) 20 = Ok e'
    /\ Key e' = Key e /\ Value e' = Value e /\ meta e' = meta e
    /\ UserMeta e' = UserMeta e /\ ExpiresAt e' = ExpiresAt e
    /\ offset e' = 20.
Proof.
  intros e out.
  apply (decodeEntry_encodeEntry_plaintext (H:=Sample.collaborators)
           Sample.plainLog [] e 20 out 15).
  - reflexivity.
  - vm_compute. reflexivity.
  - vm_compute. split; [discriminate | reflexivity].
  - vm_compute. reflexivity.
Defined.

(** X2: with a base IV of at least 12 bytes, [generateIV] returns 16
    bytes: the first 12 bytes of the base IV followed by the offset in 4
    bytes, big endian; the IVs of two offsets are equal exactly when the
    offsets agree as 32-bit values. With a shorter base IV the assertion
    on [copy] fails. *)
Theorem generateIV_per_offset lf o1 o2 :
  ((12 <= length (baseIV lf))%nat ->
   exists iv1 iv2,
     generateIV lf o1 = Some iv1 /\ generateIV lf o2 = Some iv2 /\
     len iv1 = 16 /\ firstn 12 iv1 = firstn 12 (baseIV lf) /\
     binary.be_value (skipn 12 iv1) = uint32 o1 /\
     (iv1 = iv2 <-> uint32 o1 = uint32 o2))
  /\ ((length (baseIV lf) < 12)%nat -> generateIV lf o1 = None).
Proof.
  split; [|apply generateIV_None].
  intros Hiv.
  assert (Hl : length (firstn 12 (baseIV lf)) = 12%nat)
    by (rewrite length_firstn; lia).
  exists (firstn 12 (baseIV lf) ++ binary.PutUint32 o1),
         (firstn 12 (baseIV lf) ++ binary.PutUint32 o2).
  split; [apply generateIV_Some; exact Hiv|].
  split; [apply generateIV_Some; exact Hiv|].
  split; [rewrite len_app, PutUint32_len; unfold len; lia|].
  split.
  { rewrite <- Hl at 1. rewrite firstn_app, firstn_all, Nat.sub_diag.
    cbn [firstn]. apply app_nil_r. }
  split.
  { rewrite <- Hl at 1. rewrite skipn_app, skipn_all, Nat.sub_diag.
    cbn [skipn app]. apply Uint32_PutUint32. }
  split.
  - intros Heq. apply app_inv_head in Heq.
    rewrite <- !Uint32_PutUint32, Heq. reflexivity.
  - intros Heq. f_equal. unfold binary.PutUint32.
    assert (Hsame : forall o, binary.be_bytes 4 o = binary.be_bytes 4 (uint32 o)).
    { intros o. cbn [binary.be_bytes].
      assert (Hb' : forall k, 0 <= k -> k + 8 <= 32 ->
                   byte_of_Z (Z.shiftr o k) = byte_of_Z (Z.shiftr (uint32 o) k)).
      { intros k Hk Hk8.
        rewrite <- (byte_of_to_Z (byte_of_Z (Z.shiftr o k))).
        rewrite <- (byte_of_to_Z (byte_of_Z (Z.shiftr (uint32 o) k))).
        f_equal. rewrite !byte_to_of_Z_land.
        apply Z.bits_inj'. intros i Hi.
        rewrite !Z.land_spec, !Z.shiftr_spec by lia.
        destruct (Z_lt_le_dec i 8) as [Hlt|Hge].
        - unfold uint32. rewrite Z.mod_pow2_bits_low by lia. reflexivity.
        - replace (Z.testbit 255 i) with false; [rewrite !andb_false_r; reflexivity|].
          symmetry. change 255 with (Z.ones 8). apply Z.ones_spec_high. lia. }
      rewrite (Hb' (8 * Z.of_nat 3)), (Hb' (8 * Z.of_nat 2)),
              (Hb' (8 * Z.of_nat 1)), (Hb' (8 * Z.of_nat 0)) by lia.
      reflexivity. }
    rewrite (Hsame o1), (Hsame o2), Heq. reflexivity.
Qed.

Lemma generateIV_per_offset_witness :
  (exists iv1 iv2,
     generateIV Sample.encryptedLog 20 = Some iv1 /\
     generateIV Sample.encryptedLog 36 = Some iv2 /\
     len iv1 = 16 /\ firstn 12 iv1 = firstn 12 (baseIV Sample.encryptedLog) /\
     binary.be_value (skipn 12 iv1) = uint32 20 /\
     (iv1 = iv2 <-> uint32 20 = uint32 36))
  /\ generateIV (set_key Sample.encryptedLog None []) 20 = None.
Proof.
  split.
  - apply (proj1 (generateIV_per_offset Sample.encryptedLog 20 36)).
    vm_compute. lia.
  - apply (proj2 (generateIV_per_offset (set_key Sample.encryptedLog None []) 20 20)).
    vm_compute. lia.
Defined.

(** X3: on an encrypted file, when the buffer holds fewer bytes after the
    header than the key and value lengths the header announces,
    [decodeEntry] does not return an error: the slice expression that cuts
    the key or the value out of the decrypted bytes panics. *)
Theorem decodeEntry_short_buffer `{Collaborators} lf dk buf off h hl :
  dataKey lf = Some dk ->
  aes_key_ok (DataKey.Data dk) = true ->
  (12 <= length (baseIV lf))%nat ->
  header_Decode buf = Some (h, hl) ->
  0 <= header.klen h < 2 ^ 32 -> 0 <= header.vlen h < 2 ^ 32 ->
  len buf < hl + header.klen h + header.vlen h ->
  decodeEntry lf buf off = Panic.
Proof.
  intros Hdk Hok Hiv Hh Hk Hv Hshort.
  unfold decodeEntry. rewrite Hh.
  destruct (slice_from buf hl) as [kv|] eqn:Hs; [|reflexivity].
  apply slice_from_Some in Hs. destruct Hs as [Hhl ->].
  rewrite Hdk. unfold decryptKV. rewrite generateIV_Some by exact Hiv.
  unfold XORBlockAllocate. rewrite Hok.
  set (kv := XORKeyStream _ _ _ _).
  assert (Hlen : len kv = len buf - hl).
  { unfold kv. rewrite XORKeyStream_len. unfold len.
    rewrite length_skipn. unfold len in Hhl. lia. }
  unfold slice at 1.
  destruct ((0 <=? 0) && (0 <=? header.klen h) && (header.klen h <=? len kv)) eqn:E1;
    [|reflexivity].
  apply andb_prop in E1. destruct E1 as [_ E1]. apply Z.leb_le in E1.
  unfold slice.
  replace ((0 <=? header.klen h)
           && (header.klen h <=? uint32 (header.klen h + header.vlen h))
           && (uint32 (header.klen h + header.vlen h) <=? len kv)) with false;
    [reflexivity|].
  symmetry. apply andb_false_iff.
  destruct (Z_lt_le_dec (header.klen h + header.vlen h) (2 ^ 32)) as [Hlt|Hge].
  - right. rewrite uint32_small by lia. apply Z.leb_gt. lia.
  - left. apply andb_false_iff. right. apply Z.leb_gt.
    unfold uint32.
    replace (header.klen h + header.vlen h)
      with (header.klen h + header.vlen h - 2 ^ 32 + 1 * 2 ^ 32) by lia.
    rewrite Z.mod_add by lia. rewrite Z.mod_small by lia. lia.
Qed.

Lemma decodeEntry_short_buffer_witness :
  decodeEntry (H:=Sample.collaborators) Sample.encryptedLog
    (header_Encode {| header.klen := 3; header.vlen := 4; header.expiresAt := 0;
                      header.meta := x00; header.userMeta := x00 |}
       ++ [x61; x62; x63; x64]) 20
  = Panic.
Proof.
  apply (decodeEntry_short_buffer (H:=Sample.collaborators)
           Sample.encryptedLog Sample.dataKey7 _ 20
           {| header.klen := 3; header.vlen := 4; header.expiresAt := 0;
              header.meta := x00; header.userMeta := x00 |} 5).
  - reflexivity.
  - reflexivity.
  - vm_compute. lia.
  - vm_compute. reflexivity.
  - vm_compute. split; [discriminate | reflexivity].
  - vm_compute. split; [discriminate | reflexivity].
  - vm_compute. reflexivity.
Defined.

(** X4: on a file whose data key has a length AES does not take (not 16,
    24 or 32 bytes), [writeEntry] returns the cipher's error wrapped and
    leaves the log file as it was, no byte written and [writeAt] not moved;
    the scratch buffer is left holding the header alone. [Put] then returns
    that error wrapped once more, with the sorted map and the log file
    untouched. *)
Theorem writeEntry_bad_key `{Collaborators} lf b e dk :
  dataKey lf = Some dk ->
  aes_key_ok (DataKey.Data dk) = false ->
  (12 <= length (baseIV lf))%nat ->
  writeEntry lf b e
  = (lf, header_Encode (entryHeader e),
     Err (Wrapf KeySizeError "Error while encoding entry for vlog."))
  /\ forall mt key value,
       wal mt = Some lf -> buf mt = Some b ->
       Put mt key value
       = (set_buf mt (Some (header_Encode (entryHeader (entryOf key value)))),
          Err (Wrapf (Wrapf KeySizeError "Error while encoding entry for vlog.")
                     "cannot write entry to WAL file")).
Proof.
  intros Hdk Hbad Hiv.
  assert (Hw : forall e0,
    writeEntry lf b e0
    = (lf, header_Encode (entryHeader e0),
       Err (Wrapf KeySizeError "Error while encoding entry for vlog."))).
  { intros e0. unfold writeEntry, encodeEntry. fold (entryHeader e0).
    rewrite Hdk, generateIV_Some by exact Hiv.
    unfold XORBlockStream. rewrite Hbad. reflexivity. }
  split; [apply Hw|].
  intros mt key value Hwal Hbuf. unfold Put. rewrite Hbuf, Hwal.
  fold (entryOf key value). rewrite Hw.
  unfold set_buf, set_wal. cbn [sl wal ref nextTxnTs opt buf].
  rewrite <- Hwal. reflexivity.
Qed.

Lemma writeEntry_bad_key_witness :
  let e := Sample.entry "k" "v" x00 in
  let mt := Sample.memTable_of Sample.badKeyLog in
  writeEntry (H:=Sample.collaborators) Sample.badKeyLog [] e
  = (Sample.badKeyLog, header_Encode (entryHeader e),
     Err (Wrapf KeySizeError "Error while encoding entry for vlog."))
  /\ Put (H:=Sample.collaborators) mt (Sample.keyTs "a" 5) Sample.value_A
     = (set_buf mt (Some (header_Encode
                            (entryHeader (entryOf (Sample.keyTs "a" 5) Sample.value_A)))),
        Err (Wrapf (Wrapf KeySizeError "Error while encoding entry for vlog.")
                   "cannot write entry to WAL file")).
Proof.
  intros e mt.
  destruct (writeEntry_bad_key (H:=Sample.collaborators) Sample.badKeyLog [] e
              {| DataKey.KeyId := 8; DataKey.Data := [x01; x02; x03] |})
    as [Hw Hp].
  - reflexivity.
  - reflexivity.
  - vm_compute. lia.
  - split; [exact Hw|]. apply Hp; reflexivity.
Defined.

(** ** Further properties of the log file *)

Section AppendFacts.
Context `{Collaborators}.

(** The length [encodeEntry] returns is the length of the record. *)
Lemma encodeEntry_encodedLen lf e off out n :
  encodeEntry lf [] e off = (out, Ok n) ->
  n = encodedLen e /\ len out = encodedLen e.
Proof.
  intros Henc.
  destruct (encodeEntry_ok_inv _ _ _ _ _ _ Henc) as (kv & Hkv & -> & -> & _).
  assert (Hl : len kv = len (Key e) + len (Value e)).
  { unfold writtenKV in Hkv. destruct (dataKey lf) as [dk|].
    - destruct (generateIV lf off) as [iv|]; [|discriminate].
      injection Hkv as <-. rewrite XORKeyStream_len. apply len_app.
    - injection Hkv as <-. apply len_app. }
  unfold encodedLen, crc32.Size. cbn [app].
  rewrite !len_app, PutUint32_len, Hl. lia.
Qed.

(** [encodeEntry] reads the data key and the base IV of the log file and
    nothing else of it. *)
Lemma encodeEntry_ext lf1 lf2 b e off :
  dataKey lf1 = dataKey lf2 -> baseIV lf1 = baseIV lf2 ->
  encodeEntry lf1 b e off = encodeEntry lf2 b e off.
Proof.
  intros Hk Hiv. unfold encodeEntry, generateIV. rewrite Hk, Hiv. reflexivity.
Qed.

Lemma encodeAll_ext lf1 lf2 : forall es off,
  dataKey lf1 = dataKey lf2 -> baseIV lf1 = baseIV lf2 ->
  encodeAll lf1 off es = encodeAll lf2 off es.
Proof.
  induction es as [|e es IH]; intros off Hk Hiv; cbn [encodeAll].
  - reflexivity.
  - rewrite (encodeEntry_ext lf1 lf2) by assumption.
    rewrite IH by assumption. reflexivity.
Qed.

(** An entry whose record fits in the mapped bytes that remain is
    written. *)
Lemma writeEntry_fits lf b e :
  (forall dk, dataKey lf = Some dk ->
              aes_key_ok (DataKey.Data dk) = true /\ (12 <= length (baseIV lf))%nat) ->
  0 <= writeAt lf <= len (lfData lf) ->
  encodedLen e <= len (lfData lf) - writeAt lf ->
  exists lf' b',
    writeEntry lf b e = (lf', b', Ok tt)
    /\ len b' = encodedLen e
    /\ len (lfData lf') = len (lfData lf).
Proof.
  intros Hk Hw Hfit.
  destruct (encodeEntry_succeeds lf [] e (writeAt lf) Hk) as (out & n & Henc).
  destruct (encodeEntry_encodedLen _ _ _ _ _ Henc) as [-> Hout].
  assert (Hs : slice_from (lfData lf) (writeAt lf)
               = Some (skipn (Z.to_nat (writeAt lf)) (lfData lf))).
  { unfold slice_from.
    replace (0 <=? writeAt lf) with true by (symmetry; apply Z.leb_le; lia).
    replace (writeAt lf <=? len (lfData lf)) with true
      by (symmetry; apply Z.leb_le; lia).
    reflexivity. }
  assert (Hn : snd (copy (skipn (Z.to_nat (writeAt lf)) (lfData lf)) out)
               = Z.min (len (lfData lf) - writeAt lf) (encodedLen e)).
  { rewrite copy_count, length_skipn. unfold len in *. lia. }
  destruct (writeEntry lf b e) as [[lf' b'] r] eqn:Hwr.
  assert (Hr : r = Ok tt).
  { revert Hwr. unfold writeEntry. rewrite Henc, Hs.
    destruct (copy (skipn (Z.to_nat (writeAt lf)) (lfData lf)) out) as [d k].
    cbn [snd] in Hn. subst k.
    replace (encodedLen e =? Z.min (len (lfData lf) - writeAt lf) (encodedLen e))
      with true by (symmetry; apply Z.eqb_eq; lia).
    intros [= _ _ <-]. reflexivity. }
  subst r. exists lf', b'. split; [reflexivity|].
  destruct (writeEntry_ok _ _ _ _ _ Hwr) as (Henc' & _ & Hroom & Hd & _).
  rewrite Henc in Henc'. injection Henc' as <- _.
  split; [exact Hout|].
  rewrite Hd, !len_app. unfold len in *.
  rewrite length_firstn, length_skipn. lia.
Qed.

End AppendFacts.

(** X5: [writeEntry] never grows the mapped region. On a file that can
    encode (no data key, or a key of an AES length with a base IV of 12
    bytes) and whose [writeAt] lies within the mapped bytes, it succeeds
    when the record (header, key, value and checksum) fits in the mapped
    bytes that remain from [writeAt], the mapped length staying the same,
    and it fails its assertion on [copy] when the record does not fit. *)
Theorem writeEntry_needs_room `{Collaborators} lf b e :
  (forall dk, dataKey lf = Some dk ->
              aes_key_ok (DataKey.Data dk) = true /\ (12 <= length (baseIV lf))%nat) ->
  0 <= writeAt lf <= len (lfData lf) ->
  (encodedLen e <= len (lfData lf) - writeAt lf ->
   exists lf' b',
     writeEntry lf b e = (lf', b', Ok tt)
     /\ len b' = encodedLen e
     /\ len (lfData lf') = len (lfData lf))
  /\ (len (lfData lf) - writeAt lf < encodedLen e ->
      snd (writeEntry lf b e) = Panic).
Proof.
  intros Hk Hw.
  destruct (encodeEntry_succeeds lf [] e (writeAt lf) Hk) as (out & n & Henc).
  destruct (encodeEntry_encodedLen _ _ _ _ _ Henc) as [-> Hout].
  assert (Hs : slice_from (lfData lf) (writeAt lf)
               = Some (skipn (Z.to_nat (writeAt lf)) (lfData lf))).
  { unfold slice_from.
    replace (0 <=? writeAt lf) with true by (symmetry; apply Z.leb_le; lia).
    replace (writeAt lf <=? len (lfData lf)) with true
      by (symmetry; apply Z.leb_le; lia).
    reflexivity. }
  assert (Hn : snd (copy (skipn (Z.to_nat (writeAt lf)) (lfData lf)) out)
               = Z.min (len (lfData lf) - writeAt lf) (encodedLen e)).
  { rewrite copy_count, length_skipn. unfold len in *. lia. }
  split.
  - intros Hfit. apply writeEntry_fits; assumption.
  - intros Hbig. unfold writeEntry. rewrite Henc, Hs.
    destruct (copy (skipn (Z.to_nat (writeAt lf)) (lfData lf)) out) as [d k].
    cbn [snd] in Hn. subst k.
    replace (encodedLen e =? Z.min (len (lfData lf) - writeAt lf) (encodedLen e))
      with false by (symmetry; apply Z.eqb_neq; lia).
    reflexivity.
Qed.

Lemma writeEntry_needs_room_witness :
  let small := Sample.entry "k" "v" x00 in
  let large := Sample.entry "key" "a value of more than twenty bytes" x00 in
  (exists lf' b',
     writeEntry (H:=Sample.collaborators) MoreSample.smallLog [] small = (lf', b', Ok tt)
     /\ len b' = encodedLen small
     /\ len (lfData lf') = len (lfData MoreSample.smallLog))
  /\ snd (writeEntry (H:=Sample.collaborators) MoreSample.smallLog [] large) = Panic.
Proof.
  intros small large. split.
  - apply (proj1 (writeEntry_needs_room (H:=Sample.collaborators)
                    MoreSample.smallLog [] small
                    ltac:(intros dk Hd; discriminate Hd)
                    ltac:(vm_compute; split; discriminate))).
    vm_compute. discriminate.
  - apply (proj2 (writeEntry_needs_room (H:=Sample.collaborators)
                    MoreSample.smallLog [] large
                    ltac:(intros dk Hd; discriminate Hd)
                    ltac:(vm_compute; split; discriminate))).
    vm_compute. reflexivity.
Defined.

Section AppendMany.
Context `{Collaborators}.

Lemma writeAll_cons lf b e es :
  writeAll lf b (e :: es)
  = match writeEntry lf b e with
    | (lf', b', Ok _) => writeAll lf' b' es
    | r => r
    end.
Proof. reflexivity. Qed.

(** A run of successful appends lays the records out one after the
    other. *)
Lemma writeAll_layout : forall es lf b lf' b',
  writeAll lf b es = (lf', b', Ok tt) ->
  len (lfData lf) < 2 ^ 32 ->
  0 <= writeAt lf ->
  writeAt lf' = writeAt lf + len (encodeAll lf (writeAt lf) es)
  /\ lfData lf'
     = firstn (Z.to_nat (writeAt lf)) (lfData lf)
         ++ encodeAll lf (writeAt lf) es
         ++ skipn (Z.to_nat (writeAt lf + len (encodeAll lf (writeAt lf) es))) (lfData lf)
  /\ (es <> [] -> writeAt lf' <= len (lfData lf))
  /\ dataKey lf' = dataKey lf /\ baseIV lf' = baseIV lf.
Proof.
  induction es as [|e es IH]; intros lf b lf' b' Hw Hlt Hge.
  - cbn [writeAll] in Hw. injection Hw as <- <-. cbn [encodeAll].
    change (len (@nil byte)) with 0. rewrite Z.add_0_r. cbn [app].
    rewrite firstn_skipn. repeat split. intros Hne. contradiction.
  - rewrite writeAll_cons in Hw.
    destruct (writeEntry lf b e) as [[lf1 b1] r1] eqn:Hw1.
    destruct r1 as [[]|err|]; [|discriminate|discriminate].
    destruct (writeEntry_ok _ _ _ _ _ Hw1) as (Henc & _ & Hroom & Hd & Hat & Hk & Hiv).
    pose proof (len_nonneg b1) as Hb1.
    assert (Hat' : writeAt lf1 = writeAt lf + len b1).
    { rewrite Hat. apply uint32_small. lia. }
    assert (Hlen1 : len (lfData lf1) = len (lfData lf)).
    { rewrite Hd, !len_app. unfold len in *.
      rewrite length_firstn, length_skipn. lia. }
    destruct (IH lf1 b1 lf' b' Hw) as (Hat2 & Hd2 & Hin2 & Hk2 & Hiv2); [lia | lia |].
    cbn [encodeAll]. rewrite Henc. cbn [fst].
    rewrite (encodeAll_ext lf1 lf) in Hat2, Hd2 by assumption.
    rewrite Hat' in Hat2, Hd2.
    set (rest := encodeAll lf (writeAt lf + len b1) es) in *.
    pose proof (len_nonneg rest) as Hrest.
    assert (Hw' : writeAt lf' = writeAt lf + len (b1 ++ rest))
      by (rewrite len_app; lia).
    split; [exact Hw'|].
    split.
    + rewrite Hd2, Hd, len_app.
      assert (H1 : firstn (Z.to_nat (writeAt lf + len b1))
                     (firstn (Z.to_nat (writeAt lf)) (lfData lf) ++ b1
                        ++ skipn (Z.to_nat (writeAt lf + len b1)) (lfData lf))
                   = firstn (Z.to_nat (writeAt lf)) (lfData lf) ++ b1).
      { rewrite app_assoc. rewrite firstn_app.
        rewrite firstn_all2
          by (rewrite length_app, length_firstn; unfold len in *; lia).
        rewrite length_app, length_firstn.
        replace (Z.to_nat (writeAt lf + len b1)
                 - (Nat.min (Z.to_nat (writeAt lf)) (length (lfData lf)) + length b1))%nat
          with 0%nat by (unfold len in *; lia).
        cbn [firstn]. apply app_nil_r. }
      assert (H2 : skipn (Z.to_nat (writeAt lf + len b1 + len rest))
                     (firstn (Z.to_nat (writeAt lf)) (lfData lf) ++ b1
                        ++ skipn (Z.to_nat (writeAt lf + len b1)) (lfData lf))
                   = skipn (Z.to_nat (writeAt lf + (len b1 + len rest))) (lfData lf)).
      { rewrite app_assoc, skipn_app.
        rewrite skipn_all2
          by (rewrite length_app, length_firstn; unfold len in *; lia).
        rewrite length_app, length_firstn, skipn_skipn. cbn [app].
        f_equal. unfold len in *. lia. }
      rewrite H1, H2, <- !app_assoc. reflexivity.
    + split; [|split; congruence].
      intros _. destruct es as [|e2 es2].
      * cbn [writeAll] in Hw. injection Hw as <- _. lia.
      * rewrite Hw'. specialize (Hin2 ltac:(discriminate)). rewrite len_app. lia.
Qed.

End AppendMany.

(** X6: a run of [writeEntry] calls that all succeed, on a mapped region
    shorter than 4 GiB, leaves the records in the mapped bytes one right
    after the other from the [writeAt] it started at, each encoded at the
    offset at which it begins; [writeAt] ends just past the last record and
    the bytes before the first and after the last are as they were. *)
Theorem writeAll_contiguous `{Collaborators} es lf b lf' b' :
  writeAll lf b es = (lf', b', Ok tt) ->
  len (lfData lf) < 2 ^ 32 ->
  0 <= writeAt lf ->
  let recs := encodeAll lf (writeAt lf) es in
  writeAt lf' = writeAt lf + len recs
  /\ lfData lf'
     = firstn (Z.to_nat (writeAt lf)) (lfData lf) ++ recs
         ++ skipn (Z.to_nat (writeAt lf + len recs)) (lfData lf).
Proof.
  intros Hw Hlt Hge recs.
  destruct (writeAll_layout es lf b lf' b' Hw Hlt Hge) as (Hat & Hd & _).
  split; assumption.
Qed.

Lemma writeAll_contiguous_witness :
  let es := [Sample.rec_a; Sample.rec_x; Sample.rec_y; Sample.rec_fin] in
  let lf := Sample.plainLog in
  let lf' := fst (fst (writeAll (H:=Sample.collaborators) lf [] es)) in
  let recs := encodeAll (H:=Sample.collaborators) lf (writeAt lf) es in
  writeAt lf' = writeAt lf + len recs
  /\ lfData lf'
     = firstn (Z.to_nat (writeAt lf)) (lfData lf) ++ recs
         ++ skipn (Z.to_nat (writeAt lf + len recs)) (lfData lf).
Proof.
  intros es lf lf'.
  apply (writeAll_contiguous (H:=Sample.collaborators) es lf [] lf'
           (snd (fst (writeAll (H:=Sample.collaborators) lf [] es)))).
  - vm_compute. reflexivity.
  - vm_compute. reflexivity.
  - vm_compute. discriminate.
Defined.

(** [ZeroOut] on an empty range changes nothing. *)
Lemma ZeroOut_empty dst start : ZeroOut dst start start = dst.
Proof.
  unfold ZeroOut.
  destruct ((start <? 0) || (len dst <=? start)) eqn:E; [reflexivity|].
  apply orb_false_elim in E. destruct E as [_ E]. rewrite E.
  rewrite Z.sub_diag. reflexivity.
Qed.

(** X7: [reset] is idempotent, and it keeps the data key and the base IV
    of the log file: the IV that [generateIV] derives for an offset is the
    same after the reset as before, and an entry encoded at an offset after
    the reset is written as the same bytes as before it. *)
Theorem reset_idempotent `{Collaborators} (lf : logFile) :
  reset (reset (Some lf)) = reset (Some lf)
  /\ exists lf', reset (Some lf) = Some lf'
       /\ dataKey lf' = dataKey lf /\ baseIV lf' = baseIV lf
       /\ (forall off, generateIV lf' off = generateIV lf off)
       /\ (forall e off, writtenKV lf' e off = writtenKV lf e off).
Proof.
  split.
  - cbn [reset].
    change (writeAt (set_writeAt (set_Data lf (ZeroOut (lfData lf) vlogHeaderSize
                                                 (writeAt lf))) vlogHeaderSize))
      with vlogHeaderSize.
    change (lfData (set_writeAt (set_Data lf (ZeroOut (lfData lf) vlogHeaderSize
                                                (writeAt lf))) vlogHeaderSize))
      with (ZeroOut (lfData lf) vlogHeaderSize (writeAt lf)).
    rewrite ZeroOut_empty. reflexivity.
  - eexists. split; [reflexivity|]. repeat split.
Qed.

Section MappingFacts.
Context `{Collaborators}.

Lemma call_calls m c : MmapFile.calls (fst (call m c)) = MmapFile.calls m ++ [c].
Proof. reflexivity. Qed.

Lemma call_Data m c : MmapFile.Data (fst (call m c)) = MmapFile.Data m.
Proof. reflexivity. Qed.

End MappingFacts.

(** X8: [munmap] makes no system call in file mode or when nothing is
    mapped; a successful unmap leaves nothing mapped, so that a second
    [munmap] does nothing; a failed unmap returns the error wrapped and
    leaves the mapping in place. *)
Theorem munmap_unmaps_once `{Collaborators} lf :
  (loadingMode lf = FileIO \/ lfData lf = [] -> munmap lf = (lf, None))
  /\ (forall lf1, munmap lf = (lf1, None) ->
        (loadingMode lf = MemoryMap -> lfData lf1 = [])
        /\ munmap lf1 = (lf1, None))
  /\ (forall lf1 err, munmap lf = (lf1, Some err) ->
        lfData lf1 = lfData lf
        /\ MmapFile.calls (mf lf1) = MmapFile.calls (mf lf) ++ [CallMunmap]
        /\ exists cause,
             callErr (mf lf) CallMunmap = Some cause
             /\ err = Wrapf cause ("Unable to munmap value log: " ++ path lf)).
Proof.
  split; [|split].
  - intros [Hm | Hd]; unfold munmap.
    + rewrite Hm. reflexivity.
    + rewrite Hd. destruct (loadingMode lf); reflexivity.
  - intros lf1. unfold munmap at 1.
    destruct (loadingMode lf) eqn:Em.
    + intros [= <-]. split; [discriminate|]. unfold munmap. rewrite Em. reflexivity.
    + destruct (len (lfData lf) =? 0) eqn:El.
      * intros [= <-]. apply Z.eqb_eq in El.
        assert (Hnil : lfData lf = []).
        { destruct (lfData lf); [reflexivity | discriminate El]. }
        split; [intros _; exact Hnil|]. unfold munmap. rewrite Em, Hnil. reflexivity.
      * unfold call. destruct (callErr (mf lf) CallMunmap); [discriminate|].
        intros [= <-]. split; [reflexivity|].
        unfold munmap. cbn [loadingMode set_mf]. rewrite Em. reflexivity.
  - intros lf1 err. unfold munmap.
    destruct (loadingMode lf); [discriminate|].
    destruct (len (lfData lf) =? 0); [discriminate|].
    unfold call. destruct (callErr (mf lf) CallMunmap) as [cause|]; [|discriminate].
    intros [= <- <-]. split; [reflexivity|]. split; [reflexivity|].
    exists cause. split; reflexivity.
Qed.

Lemma munmap_unmaps_once_witness :
  let lf1 := fst (munmap (H:=Sample.collaborators) Sample.plainLog) in
  let lf2 := fst (munmap (H:=MoreSample.failing) Sample.plainLog) in
  ((loadingMode Sample.plainLog = MemoryMap -> lfData lf1 = [])
   /\ munmap (H:=Sample.collaborators) lf1 = (lf1, None))
  /\ (lfData lf2 = lfData Sample.plainLog
      /\ MmapFile.calls (mf lf2) = MmapFile.calls (mf Sample.plainLog) ++ [CallMunmap]
      /\ exists cause,
           callErr (Collaborators:=MoreSample.failing) (mf Sample.plainLog) CallMunmap
           = Some cause
           /\ Wrapf (OtherError "EINVAL") "Unable to munmap value log: dir/00001.mem"
              = Wrapf cause ("Unable to munmap value log: " ++ path Sample.plainLog)).
Proof.
  intros lf1 lf2. split.
  - apply (proj1 (proj2 (munmap_unmaps_once (H:=Sample.collaborators) Sample.plainLog))
                 lf1).
    reflexivity.
  - apply (proj2 (proj2 (munmap_unmaps_once (H:=MoreSample.failing) Sample.plainLog))
                 lf2 (Wrapf (OtherError "EINVAL")
                            "Unable to munmap value log: dir/00001.mem")).
    reflexivity.
Defined.

(** The steps of the proof about [doneWriting]: bring the file states to
    their normal form, split on the outcome of the next call, and close a
    branch in which the outcome of every call is known. *)
Ltac dw_norm :=
  cbn [fst snd mf set_mf with_Data loadingMode path negb app map first_failure
       MmapFile.Data MmapFile.calls MmapFile.Name].

Ltac dw_case E :=
  match goal with
  | |- context [match callErr ?m ?c with _ => _ end] =>
      destruct (callErr m c) eqn:E; dw_norm
  end.

Ltac dw_done :=
  intros [= <- <-]; split; [reflexivity|];
  cbn [mf set_mf with_Data MmapFile.calls MmapFile.Data MmapFile.Name
       firstn nth_error Nat.sub doneWriting_error path];
  rewrite <- ?app_assoc; repeat split.

(** X9: [doneWriting] makes its calls on the file in the order sync,
    unmap (when something is mapped in memory-map mode), truncate to the
    offset, map again, and stops at the first call that fails: the calls it
    made are those up to and including that call, and the error it returns
    is the error of that call, wrapped with the message of that step. When
    no call fails, all the calls are made, nil is returned and the mapped
    bytes are the file's bytes cut to the offset. The file is not truncated
    before it is unmapped. *)
Theorem doneWriting_call_order `{Collaborators} lf offset lf' r :
  doneWriting lf offset = (lf', r) ->
  map snd (doneWriting_steps lf offset) = doneWriting_calls lf offset
  /\ match first_failure (doneWriting_steps lf offset) with
     | Some (k, c, cause) =>
         MmapFile.calls (mf lf')
         = MmapFile.calls (mf lf) ++ firstn k (doneWriting_calls lf offset)
         /\ nth_error (doneWriting_calls lf offset) (k - 1) = Some c
         /\ r = Some (doneWriting_error lf c cause)
     | None =>
         MmapFile.calls (mf lf')
         = MmapFile.calls (mf lf) ++ doneWriting_calls lf offset
         /\ r = None
         /\ lfData lf' = resize (lfData lf) offset
     end.
Proof.
  unfold doneWriting, doneWriting_steps, doneWriting_calls, munmap, call, lfData.
  cbn [fst]. dw_norm.
  destruct (callErr (mf lf) CallMsync) as [e1|] eqn:E1.
  { intros [= <- <-]. split; [destruct (loadingMode lf);
                               [|destruct (len (MmapFile.Data (mf lf)) =? 0)];
                               reflexivity|].
    dw_norm. repeat split. }
  destruct (loadingMode lf); [|destruct (len (MmapFile.Data (mf lf)) =? 0)]; dw_norm.
  - (* file mode: nothing to unmap *)
    dw_case E3; [dw_done|]. dw_case E4; dw_done.
  - (* nothing is mapped *)
    dw_case E3; [dw_done|]. dw_case E4; dw_done.
  - dw_case E2; [dw_done|]. dw_case E3; [dw_done|]. dw_case E4; dw_done.
Qed.

Lemma doneWriting_call_order_witness :
  let lf' := fst (doneWriting (H:=MoreSample.failing) Sample.tornLog 99) in
  let r := snd (doneWriting (H:=MoreSample.failing) Sample.tornLog 99) in
  MmapFile.calls (mf lf') = [CallMsync; CallMunmap]
  /\ nth_error (doneWriting_calls Sample.tornLog 99) 1 = Some CallMunmap
  /\ r = Some (Wrapf (Wrapf (OtherError "EINVAL")
                        "Unable to munmap value log: dir/00001.mem")
                 "failed to munmap vlog file dir/00001.mem").
Proof.
  intros lf' r.
  assert (Hd : doneWriting (H:=MoreSample.failing) Sample.tornLog 99 = (lf', r))
    by (vm_compute; reflexivity).
  pose proof (doneWriting_call_order (H:=MoreSample.failing) Sample.tornLog 99 lf' r
                Hd) as [_ Hw].
  vm_compute in Hw. vm_compute. exact Hw.
Defined.

(** The sample when unmapping is refused: sync and unmap are called,
    nothing is truncated, and the error is that of unmapping. *)
Example doneWriting_failure_sample :
  first_failure (H:=MoreSample.failing)
    (doneWriting_steps (H:=MoreSample.failing) Sample.tornLog 99)
  = Some (2%nat, CallMunmap, OtherError "EINVAL")
  /\ MmapFile.calls (mf (fst (doneWriting (H:=MoreSample.failing) Sample.tornLog 99)))
     = [CallMsync; CallMunmap]
  /\ lfData (fst (doneWriting (H:=MoreSample.failing) Sample.tornLog 99))
     = lfData Sample.tornLog.
Proof. vm_compute. repeat split. Qed.

(** The sample: the four calls, in order. *)
Example doneWriting_sample :
  MmapFile.calls (mf (fst (doneWriting (H:=Sample.collaborators) Sample.tornLog 99)))
  = [CallMsync; CallMunmap; CallFdTruncate 99; CallInit].
Proof. vm_compute. reflexivity. Qed.

(** ** Reading a value through a pointer *)

Lemma int64_nonneg x : 0 <= x < 2 ^ 63 -> int64 x = x.
Proof.
  intros Hx. unfold int64, sint. change (2 ^ (64 - 1)) with (2 ^ 63).
  rewrite Z.mod_small by lia. lia.
Qed.

Lemma slice_Some_inv {A} (s : list A) lo hi d :
  slice s lo hi = Some d ->
  0 <= lo <= hi /\ hi <= len s
  /\ d = firstn (Z.to_nat (hi - lo)) (skipn (Z.to_nat lo) s)
  /\ len d = hi - lo.
Proof.
  unfold slice.
  destruct (0 <=? lo) eqn:E1; [|discriminate].
  destruct (lo <=? hi) eqn:E2; [|discriminate].
  destruct (hi <=? len s) eqn:E3; [|discriminate].
  cbn [andb]. intros [= <-].
  apply Z.leb_le in E1. apply Z.leb_le in E2. apply Z.leb_le in E3.
  repeat split; try lia.
  unfold len in *. rewrite length_firstn, length_skipn. lia.
Qed.

Lemma slice_in_range {A} (s : list A) lo hi :
  0 <= lo <= hi -> hi <= len s ->
  slice s lo hi = Some (firstn (Z.to_nat (hi - lo)) (skipn (Z.to_nat lo) s)).
Proof.
  intros Hlo Hhi. unfold slice.
  replace (0 <=? lo) with true by (symmetry; apply Z.leb_le; lia).
  replace (lo <=? hi) with true by (symmetry; apply Z.leb_le; lia).
  replace (hi <=? len s) with true by (symmetry; apply Z.leb_le; lia).
  reflexivity.
Qed.

(** X10: in mapped mode [read] returns bytes without an error only for a
    pointer whose range lies within the mapped bytes and within the size
    recorded for the file, and the bytes are then exactly the [Len] bytes
    of the mapped region from [Offset]; for every such pointer it does
    return them, counting one read and [Len] bytes. *)
Theorem read_mapped_in_bounds ReadAt lf p st :
  loadingMode lf = MemoryMap ->
  0 <= valuePointer.Offset p < 2 ^ 32 ->
  0 <= valuePointer.Len p < 2 ^ 32 ->
  len (lfData lf) < 2 ^ 63 ->
  0 <= size lf < 2 ^ 32 ->
  let off := valuePointer.Offset p in
  let n := valuePointer.Len p in
  (forall st' b, read ReadAt lf p st = (st', Some (b, None)) ->
     off < len (lfData lf) /\ off + n <= len (lfData lf) /\ off + n <= size lf
     /\ b = firstn (Z.to_nat n) (skipn (Z.to_nat off) (lfData lf))
     /\ len b = n)
  /\ (off < len (lfData lf) -> off + n <= len (lfData lf) -> off + n <= size lf ->
      read ReadAt lf p st
      = ({| NumReads := int64 (NumReads st + 1);
            NumBytesRead := int64 (NumBytesRead st + n) |},
         Some (firstn (Z.to_nat n) (skipn (Z.to_nat off) (lfData lf)), None))).
Proof.
  intros Hm Ho Hn Hlen Hsz off n.
  pose proof (len_nonneg (lfData lf)) as Hl.
  pose proof (uint32_range (off + n)) as Hu.
  unfold read. rewrite Hm. fold off. fold n.
  rewrite (int64_nonneg (len (lfData lf))) by lia.
  rewrite (int64_nonneg off) by lia.
  rewrite (int64_nonneg (uint32 (off + n))) by lia.
  rewrite (int64_nonneg (size lf)) by lia.
  split.
  - intros st' b.
    destruct ((len (lfData lf) <=? off) || (len (lfData lf) <? uint32 (off + n))
              || (size lf <? uint32 (off + n))) eqn:E; [discriminate|].
    apply orb_false_elim in E. destruct E as [E E3].
    apply orb_false_elim in E. destruct E as [E1 E2].
    apply Z.leb_gt in E1. apply Z.ltb_ge in E2. apply Z.ltb_ge in E3.
    destruct (slice (lfData lf) off (uint32 (off + n))) as [d|] eqn:Hs; [|discriminate].
    intros [= _ <-].
    destruct (slice_Some_inv _ _ _ _ Hs) as (Hlo & Hhi & Hd & Hdl).
    assert (Hnowrap : uint32 (off + n) = off + n).
    { destruct (Z_lt_le_dec (off + n) (2 ^ 32)) as [Hlt|Hge].
      - apply uint32_small. lia.
      - exfalso. unfold uint32 in Hlo.
        replace (off + n) with (off + n - 2 ^ 32 + 1 * 2 ^ 32) in Hlo by lia.
        rewrite Z.mod_add in Hlo by lia. rewrite Z.mod_small in Hlo by lia. lia. }
    rewrite Hnowrap in *.
    replace (off + n - off) with n in * by lia.
    repeat split; try lia. exact Hd.
  - intros H1 H2 H3.
    rewrite (uint32_small (off + n)) by lia.
    replace (len (lfData lf) <=? off) with false by (symmetry; apply Z.leb_gt; lia).
    replace (len (lfData lf) <? off + n) with false by (symmetry; apply Z.ltb_ge; lia).
    replace (size lf <? off + n) with false by (symmetry; apply Z.ltb_ge; lia).
    cbn [orb]. rewrite slice_in_range by lia.
    replace (off + n - off) with n by lia.
    rewrite (int64_nonneg n) by lia. reflexivity.
Qed.

Lemma read_mapped_in_bounds_witness :
  let p := {| valuePointer.Fid := 1; valuePointer.Len := 12; valuePointer.Offset := 8 |} in
  read MoreSample.eofReadAt MoreSample.sizedLog p MoreSample.noStats
  = ({| NumReads := int64 (0 + 1); NumBytesRead := int64 (0 + 12) |},
     Some (firstn (Z.to_nat 12) (skipn (Z.to_nat 8) (lfData MoreSample.sizedLog)), None)).
Proof.
  intros p.
  apply (proj2 (read_mapped_in_bounds MoreSample.eofReadAt MoreSample.sizedLog p
                  MoreSample.noStats eq_refl
                  ltac:(vm_compute; split; [discriminate | reflexivity])
                  ltac:(vm_compute; split; [discriminate | reflexivity])
                  ltac:(vm_compute; reflexivity)
                  ltac:(vm_compute; split; [discriminate | reflexivity])));
    vm_compute; (reflexivity || discriminate).
Defined.

(** X11: in mapped mode a pointer that starts at or after the end of the
    mapped bytes, or whose end (not past 32 bits) lies beyond the mapped
    bytes or beyond the size recorded for the file, gets [y.ErrEOF] and no
    bytes, one read being counted. The end of the range is computed in 32
    bits: when [Offset + Len] passes 32 bits and the wrapped sum is within
    the recorded size, the bounds check lets the pointer through and the
    slice expression panics. *)
Theorem read_mapped_out_of_bounds ReadAt lf p st :
  loadingMode lf = MemoryMap ->
  0 <= valuePointer.Offset p < 2 ^ 32 ->
  0 <= valuePointer.Len p < 2 ^ 32 ->
  len (lfData lf) < 2 ^ 63 ->
  0 <= size lf < 2 ^ 32 ->
  let off := valuePointer.Offset p in
  let n := valuePointer.Len p in
  (len (lfData lf) <= off
   \/ (off + n < 2 ^ 32 /\ (len (lfData lf) < off + n \/ size lf < off + n)) ->
   read ReadAt lf p st
   = ({| NumReads := int64 (NumReads st + 1);
         NumBytesRead := int64 (NumBytesRead st + 0) |},
      Some ([], Some y_ErrEOF)))
  /\ (off < len (lfData lf) -> 2 ^ 32 <= off + n -> off + n - 2 ^ 32 <= size lf ->
      snd (read ReadAt lf p st) = None).
Proof.
  intros Hm Ho Hn Hlen Hsz off n.
  pose proof (len_nonneg (lfData lf)) as Hl.
  pose proof (uint32_range (off + n)) as Hu.
  unfold read. rewrite Hm. fold off. fold n.
  rewrite (int64_nonneg (len (lfData lf))) by lia.
  rewrite (int64_nonneg off) by lia.
  rewrite (int64_nonneg (uint32 (off + n))) by lia.
  rewrite (int64_nonneg (size lf)) by lia.
  split.
  - intros Hout.
    replace ((len (lfData lf) <=? off) || (len (lfData lf) <? uint32 (off + n))
             || (size lf <? uint32 (off + n))) with true; [reflexivity|].
    symmetry. destruct Hout as [H1 | [Hnw [H2 | H3]]].
    + replace (len (lfData lf) <=? off) with true by (symmetry; apply Z.leb_le; lia).
      reflexivity.
    + rewrite (uint32_small (off + n)) by lia.
      replace (len (lfData lf) <? off + n) with true by (symmetry; apply Z.ltb_lt; lia).
      rewrite orb_true_r. reflexivity.
    + rewrite (uint32_small (off + n)) by lia.
      replace (size lf <? off + n) with true by (symmetry; apply Z.ltb_lt; lia).
      rewrite orb_true_r. reflexivity.
  - intros H1 H2 H3.
    assert (Hw : uint32 (off + n) = off + n - 2 ^ 32).
    { unfold uint32.
      replace (off + n) with (off + n - 2 ^ 32 + 1 * 2 ^ 32) at 1 by lia.
      rewrite Z.mod_add by lia. apply Z.mod_small. lia. }
    rewrite Hw.
    replace (len (lfData lf) <=? off) with false by (symmetry; apply Z.leb_gt; lia).
    replace (len (lfData lf) <? off + n - 2 ^ 32) with false
      by (symmetry; apply Z.ltb_ge; lia).
    replace (size lf <? off + n - 2 ^ 32) with false by (symmetry; apply Z.ltb_ge; lia).
    cbn [orb]. rewrite slice_none_lo_gt_hi by lia. reflexivity.
Qed.

Lemma read_mapped_out_of_bounds_witness :
  let past := {| valuePointer.Fid := 1; valuePointer.Len := 12;
                 valuePointer.Offset := 195 |} in
  let wraps := {| valuePointer.Fid := 1; valuePointer.Len := 2 ^ 32 - 5;
                  valuePointer.Offset := 10 |} in
  read MoreSample.eofReadAt MoreSample.sizedLog past MoreSample.noStats
  = ({| NumReads := int64 (0 + 1); NumBytesRead := int64 (0 + 0) |},
     Some ([], Some y_ErrEOF))
  /\ snd (read MoreSample.eofReadAt MoreSample.sizedLog wraps MoreSample.noStats) = None.
Proof.
  intros past wraps. split.
  - apply (proj1 (read_mapped_out_of_bounds MoreSample.eofReadAt MoreSample.sizedLog past
                    MoreSample.noStats eq_refl
                    ltac:(vm_compute; split; [discriminate | reflexivity])
                    ltac:(vm_compute; split; [discriminate | reflexivity])
                    ltac:(vm_compute; reflexivity)
                    ltac:(vm_compute; split; [discriminate | reflexivity]))).
    right. split; [vm_compute; reflexivity|]. left. vm_compute. reflexivity.
  - apply (proj2 (read_mapped_out_of_bounds MoreSample.eofReadAt MoreSample.sizedLog wraps
                    MoreSample.noStats eq_refl
                    ltac:(vm_compute; split; [discriminate | reflexivity])
                    ltac:(vm_compute; split; [discriminate | reflexivity])
                    ltac:(vm_compute; reflexivity)
                    ltac:(vm_compute; split; [discriminate | reflexivity])));
      vm_compute; (reflexivity || discriminate).
Defined.

(** ** The replay iterator on an arbitrary log *)

Section IterateAnyLog.
Context `{Collaborators}.
Variable lf : logFile.

(** *** The staged entries and pointers go in pairs *)

Section AnyCallback.
Context {S : Type}.
Variable fn : logEntry S.

Lemma deliver_no_panic : forall es vps s,
  (forall e vp s, snd (fn e vp s) <> Panic) ->
  length es = length vps ->
  snd (deliver fn (path lf) es vps s) <> Panic.
Proof.
  induction es as [|e es IH]; intros vps s Hfn Hlen; cbn [deliver].
  - discriminate.
  - destruct vps as [|vp vps]; [discriminate Hlen|].
    pose proof (Hfn e vp s) as Hf.
    destruct (fn e vp s) as [s' [[]|err|]]; cbn [snd] in Hf |- *.
    + apply IH; [assumption|]. cbn [length] in Hlen. lia.
    + destruct (error_eqb err errStop); discriminate.
    + contradiction.
Qed.

(** One pass through the loop keeps the two staged lists at the same
    length and does not panic unless the callback does. *)
Lemma body_pairs st r :
  (forall e vp s, snd (fn e vp s) <> Panic) ->
  length (entries st) = length (vptrs st) ->
  match iterate_body lf fn st r with
  | Continue st' => length (entries st') = length (vptrs st')
  | BreakLoop _ => True
  | Return _ res => res <> Panic
  end.
Proof.
  intros Hfn Hlen. destruct r as [e err]. unfold iterate_body.
  destruct (err_is err io_EOF || isZero_ptr e); [exact I|].
  destruct (err_is err io_ErrUnexpectedEOF || err_is err errTruncate); [exact I|].
  destruct err as [err|]; [discriminate|].
  destruct e as [e|]; [|exact Hlen].
  destruct (has_bit (meta e) bitTxn).
  { match goal with |- context [if ?c then _ else _] => destruct c end;
      [exact I|]. cbn [entries vptrs]. rewrite !length_app, Hlen. reflexivity. }
  destruct (has_bit (meta e) bitFinTxn).
  { destruct (strconv.ParseUint (Value e)) as [ts|]; [|exact I].
    destruct (negb (lastCommit st =? ts)); [exact I|].
    pose proof (deliver_no_panic (entries st) (vptrs st) (cbState st) Hfn Hlen) as Hd.
    destruct (deliver fn (path lf) (entries st) (vptrs st) (cbState st))
      as [s' [[]|err|]]; cbn [snd] in Hd.
    - reflexivity.
    - discriminate.
    - contradiction. }
  destruct (negb (lastCommit st =? 0)); [exact I|].
  match goal with |- context [fn e ?vp (cbState st)] =>
    pose proof (Hfn e vp (cbState st)) as Hf;
    destruct (fn e vp (cbState st)) as [s' [[]|err|]]
  end; cbn [snd] in Hf.
  - exact Hlen.
  - destruct (error_eqb err errStop); [exact Hlen | discriminate].
  - contradiction.
Qed.

Lemma loop_no_panic : forall reader st,
  (forall e vp s, snd (fn e vp s) <> Panic) ->
  length (entries st) = length (vptrs st) ->
  snd (iterate_loop lf fn reader st) <> Panic.
Proof.
  induction reader as [|r reader IH]; intros st Hfn Hlen.
  - rewrite loop_nil. discriminate.
  - rewrite loop_cons.
    pose proof (body_pairs st (stamp (recordOffset st) r) Hfn Hlen) as Hb.
    destruct (iterate_body lf fn st (stamp (recordOffset st) r)) as [st'|st'|s' res].
    + apply IH; assumption.
    + discriminate.
    + exact Hb.
Qed.

(** *** Where an error of [iterate] comes from *)

Lemma deliver_error : forall es vps s s' err,
  deliver fn (path lf) es vps s = (s', Err err) ->
  exists cause e vp s0 s1,
    fn e vp s0 = (s1, Err cause) /\ error_eqb cause errStop = false
    /\ err = errFile cause (path lf) "Iteration function".
Proof.
  induction es as [|e es IH]; intros vps s s' err; cbn [deliver].
  - discriminate.
  - destruct vps as [|vp vps]; [discriminate|].
    destruct (fn e vp s) as [s1 [[]|cause|]] eqn:Efn.
    + apply IH.
    + destruct (error_eqb cause errStop) eqn:Ec; [discriminate|].
      intros [= _ <-]. exists cause, e, vp, s, s1. auto.
    + discriminate.
Qed.

Lemma body_error st r s' err :
  iterate_body lf fn st r = Return s' (Err err) ->
  (snd r = Some err /\ ends_data r = false)
  \/ exists cause e vp s0 s1,
       fn e vp s0 = (s1, Err cause) /\ error_eqb cause errStop = false
       /\ err = errFile cause (path lf) "Iteration function".
Proof.
  destruct r as [e rerr]. unfold iterate_body, ends_data. cbn [fst snd].
  destruct (err_is rerr io_EOF || isZero_ptr e) eqn:E1; [discriminate|].
  destruct (err_is rerr io_ErrUnexpectedEOF || err_is rerr errTruncate) eqn:E2;
    [discriminate|].
  destruct rerr as [rerr|].
  { intros [= _ <-]. left. split; [reflexivity|].
    apply orb_false_elim in E1. destruct E1 as [E1 E1'].
    apply orb_false_elim in E2. destruct E2 as [E2 E2'].
    rewrite E2, E2'. reflexivity. }
  destruct e as [e|]; [|discriminate].
  destruct (has_bit (meta e) bitTxn).
  { match goal with |- context [if ?c then _ else _] => destruct c end; discriminate. }
  destruct (has_bit (meta e) bitFinTxn).
  { destruct (strconv.ParseUint (Value e)) as [ts|]; [|discriminate].
    destruct (negb (lastCommit st =? ts)); [discriminate|].
    destruct (deliver fn (path lf) (entries st) (vptrs st) (cbState st))
      as [s1 [[]|derr|]] eqn:Ed; try discriminate.
    intros [= _ <-]. right. eapply deliver_error. exact Ed. }
  destruct (negb (lastCommit st =? 0)); [discriminate|].
  match goal with |- context [fn e ?vp (cbState st)] =>
    destruct (fn e vp (cbState st)) as [s1 [[]|cause|]] eqn:Efn
  end; try discriminate.
  destruct (error_eqb cause errStop) eqn:Ec; [discriminate|].
  intros [= _ <-]. right. eauto 10.
Qed.

Lemma stamp_snd off r : snd (stamp off r) = snd r.
Proof. reflexivity. Qed.

Lemma loop_error : forall reader st s' err,
  iterate_loop lf fn reader st = (s', Err err) ->
  (exists e off, In (e, Some err) reader /\ ends_data (stamp off (e, Some err)) = false)
  \/ exists cause e vp s0 s1,
       fn e vp s0 = (s1, Err cause) /\ error_eqb cause errStop = false
       /\ err = errFile cause (path lf) "Iteration function".
Proof.
  induction reader as [|r reader IH]; intros st s' err.
  - rewrite loop_nil. discriminate.
  - rewrite loop_cons.
    destruct (iterate_body lf fn st (stamp (recordOffset st) r)) as [st'|st'|s1 res] eqn:Eb.
    + intros Hl. destruct (IH _ _ _ Hl) as [(e & off & Hin & He) | Hfn].
      * left. exists e, off. split; [right; exact Hin | exact He].
      * right. exact Hfn.
    + discriminate.
    + intros [= -> ->].
      destruct (body_error _ _ _ _ Eb) as [[Hr He] | Hfn]; [|right; exact Hfn].
      left. destruct r as [e rerr]. cbn [stamp snd fst] in Hr. subst rerr.
      exists e, (recordOffset st). split; [left; reflexivity | exact He].
Qed.

End AnyCallback.
End IterateAnyLog.

(** X12: [iterate] keeps the entries it stages and their pointers in
    pairs, so the index [vptrs[i]] in the delivery of a transaction is
    always in range: whatever the log holds, [iterate] (in which reading a
    record and the zero test, both declared outside memtable.go, do not
    panic) panics only if the callback panics. *)
Theorem iterate_never_panics `{Collaborators} {S : Type}
    (lf : logFile) (readOnly : bool) (off : Z) (fn : logEntry S) (s : S) :
  (forall e vp s, snd (fn e vp s) <> Panic) ->
  snd (iterate lf readOnly off fn s) <> Panic.
Proof.
  intros Hfn. unfold iterate. apply loop_no_panic; [exact Hfn | reflexivity].
Qed.

Lemma iterate_never_panics_witness :
  snd (iterate (H:=Sample.collaborators) Sample.tornLog true 0 stopper []) <> Panic.
Proof.
  apply (iterate_never_panics (H:=Sample.collaborators) Sample.tornLog true 0 stopper []).
  intros e vp s. discriminate.
Defined.

(** X13: when [iterate] returns an error, the error is either one that a
    read of the log returned, other than the three that end the data
    ([io.EOF], [io.ErrUnexpectedEOF], [errTruncate]), passed on as it is,
    or an error other than [errStop] that the callback returned on some
    entry, wrapped by [errFile] with the path of the log file. *)
Theorem iterate_error_sources `{Collaborators} {S : Type}
    (lf : logFile) (readOnly : bool) (off : Z) (fn : logEntry S) (s s' : S) err :
  iterate lf readOnly off fn s = (s', Err err) ->
  (exists e o,
     In (e, Some err) (NewReader lf (start_offset off))
     /\ ends_data (stamp o (e, Some err)) = false)
  \/ exists cause e vp s0 s1,
       fn e vp s0 = (s1, Err cause) /\ error_eqb cause errStop = false
       /\ err = errFile cause (path lf) "Iteration function".
Proof.
  unfold iterate, start_offset. apply loop_error.
Qed.

Lemma iterate_error_sources_witness :
  let err := errFile (OtherError "refused") (path Sample.twoSingles)
               "Iteration function" in
  (exists e o,
     In (e, Some err) (NewReader (Collaborators:=Sample.collaborators)
                         Sample.twoSingles (start_offset 0))
     /\ ends_data (H:=Sample.collaborators) (stamp o (e, Some err)) = false)
  \/ exists cause e vp s0 s1,
       refuser e vp s0 = (s1, Err cause) /\ error_eqb cause errStop = false
       /\ err = errFile cause (path Sample.twoSingles) "Iteration function".
Proof.
  intros err.
  apply (iterate_error_sources (H:=Sample.collaborators) Sample.twoSingles true 0
           refuser []
           (fst (iterate (H:=Sample.collaborators) Sample.twoSingles true 0 refuser []))
           err).
  vm_compute. reflexivity.
Defined.

(** ** What the callback is given, whatever the log holds *)

Section Deliveries.
Context `{Collaborators}.
Variable lf : logFile.
Variable start : Z.

Lemma read_entries_app a b :
  read_entries (a ++ b) = read_entries a ++ read_entries b.
Proof. unfold read_entries. apply flat_map_app. Qed.

(** The place of the next record, after a record was read or an empty
    result was passed over. *)
Lemma next_offset done ro e0 :
  ro = advance start (read_entries done) ->
  uint32 (ro + recSize e0)
  = advance start (read_entries (done ++ [(Some e0, None)])).
Proof.
  intros ->. rewrite read_entries_app, advance_app. reflexivity.
Qed.

Lemma same_offset done ro (err : option error) :
  ro = advance start (read_entries done) ->
  ro = advance start (read_entries (done ++ [(None, err)])).
Proof.
  intros ->. rewrite read_entries_app. cbn [read_entries flat_map app].
  rewrite app_nil_r. reflexivity.
Qed.

Lemma read_at_app done more e :
  read_at done start e -> read_at (done ++ more) start e.
Proof.
  intros (pre & e0 & post & Hd & He). exists pre, e0, (post ++ more).
  split; [|exact He]. rewrite Hd, <- app_assoc. reflexivity.
Qed.

(** The entry read last. *)
Lemma read_at_last done ro e0 :
  ro = advance start (read_entries done) ->
  read_at (done ++ [(Some e0, None)]) start (with_offset e0 ro).
Proof. intros ->. exists done, e0, []. split; reflexivity. Qed.

Lemma closed_by_app done more e :
  closed_by done e -> closed_by (done ++ more) e.
Proof.
  intros (pre & e0 & off & mid & fin & post & ts & Hd & He & Hf & Hp & Hts).
  exists pre, e0, off, mid, fin, (post ++ more), ts.
  split; [|auto]. rewrite Hd, <- !app_assoc. cbn [app].
  rewrite <- !app_assoc. reflexivity.
Qed.

Lemma delivered_ok_app done more d :
  delivered_ok lf done start d -> delivered_ok lf (done ++ more) start d.
Proof.
  intros (Hr & Hp & He & Hc). split; [apply read_at_app; exact Hr|].
  split; [exact Hp|]. split; [exact He|].
  intros Hb. apply closed_by_app, Hc, Hb.
Qed.

Lemma staged_ok_app done more lc e :
  staged_ok done start lc e -> staged_ok (done ++ more) start lc e.
Proof.
  intros (Hb & Hts & Hr).
  split; [exact Hb|]. split; [exact Hts|]. apply read_at_app. exact Hr.
Qed.

Lemma replay_inv_app done more st :
  replay_inv lf done start st -> replay_inv lf (done ++ more) start st.
Proof.
  intros (Hv & Hs & Hd). split; [exact Hv|]. split.
  - eapply Forall_impl; [|exact Hs]. intros e. apply staged_ok_app.
  - eapply Forall_impl; [|exact Hd]. intros d. apply delivered_ok_app.
Qed.

(** The recorder is given every staged entry with its pointer. *)
Lemma deliver_recorder p : forall es ds,
  deliver recorder p es (map (pointer_of lf) es) ds
  = (ds ++ map (fun e => (e, pointer_of lf e)) es, Ok tt).
Proof.
  induction es as [|e es IH]; intros ds; cbn [deliver map].
  - rewrite app_nil_r. reflexivity.
  - unfold recorder at 1. rewrite IH, <- app_assoc. reflexivity.
Qed.

Lemma end_record_txn e : has_bit (meta e) bitTxn = true -> end_record e = false.
Proof. intros Hb. unfold end_record. rewrite Hb. reflexivity. Qed.

(** One pass through the loop, on the next result [r0] of the log: the
    offset of the next record is the place where the reading began advanced
    by the records read so far. *)
Lemma body_replay_inv done st r0 :
  recordOffset st = advance start (read_entries done) ->
  replay_inv lf done start st ->
  match iterate_body lf recorder st (stamp (recordOffset st) r0) with
  | Continue st' =>
      recordOffset st' = advance start (read_entries (done ++ [r0]))
      /\ replay_inv lf (done ++ [r0]) start st'
  | BreakLoop st' => Forall (delivered_ok lf (done ++ [r0]) start) (cbState st')
  | Return s _ => Forall (delivered_ok lf (done ++ [r0]) start) s
  end.
Proof.
  intros Hoff Hinv.
  pose proof (replay_inv_app done [r0] st Hinv) as Hinv'.
  destruct Hinv' as (Hv & Hs & Hd).
  destruct r0 as [e0 err0]. unfold stamp. cbn [fst snd].
  destruct (ends_data (option_map (fun e => with_offset e (recordOffset st)) e0, err0))
    eqn:Eend.
  { rewrite body_ends by exact Eend. exact Hd. }
  unfold ends_data in Eend. cbn [fst snd] in Eend.
  apply orb_false_elim in Eend. destruct Eend as [Eend E4].
  apply orb_false_elim in Eend. destruct Eend as [Eend E3].
  apply orb_false_elim in Eend. destruct Eend as [E1 E2].
  destruct err0 as [err0|].
  { unfold iterate_body. rewrite E1, E2, E3, E4. cbn [orb]. exact Hd. }
  destruct e0 as [e0|]; cbn [option_map] in *.
  2:{ unfold iterate_body. cbn [err_is isZero_ptr orb].
      split; [apply same_offset; exact Hoff|].
      split; [exact Hv|]. split; assumption. }
  pose proof (read_at_last done (recordOffset st) e0 Hoff) as Hread.
  pose proof (next_offset done (recordOffset st) e0 Hoff) as Hnext.
  set (e := with_offset e0 (recordOffset st)) in *.
  change (recSize e0) with (recSize e) in Hnext.
  cbn [isZero_ptr] in E2.
  destruct (has_bit (meta e) bitTxn) eqn:Eb.
  - (* an entry of a transaction *)
    rewrite body_txn by assumption. cbv zeta.
    destruct (negb ((if lastCommit st =? 0 then ParseTs (Key e) else lastCommit st)
                    =? ParseTs (Key e))) eqn:Ene.
    + exact Hd.
    + apply negb_false_iff, Z.eqb_eq in Ene.
      split; [exact Hnext|].
      split; [|split]; cbn [vptrs entries lastCommit cbState].
      * rewrite map_app, Hv. reflexivity.
      * apply Forall_app. split.
        -- eapply Forall_impl; [|exact Hs]. intros x (Hxb & Hxt & Hxf).
           split; [exact Hxb|]. split; [|exact Hxf].
           destruct (lastCommit st =? 0) eqn:E0.
           ++ apply Z.eqb_eq in E0. right. rewrite E0 in Hxt. tauto.
           ++ exact Hxt.
        -- constructor; [|constructor].
           split; [exact Eb|]. split; [left; symmetry; exact Ene | exact Hread].
      * exact Hd.
  - destruct (has_bit (meta e) bitFinTxn) eqn:Ef.
    + (* the end record of a transaction *)
      unfold iterate_body. cbn [err_is isZero_ptr orb]. rewrite E2, Eb, Ef.
      destruct (strconv.ParseUint (Value e)) as [ts|] eqn:Ep; [|exact Hd].
      destruct (negb (lastCommit st =? ts)) eqn:Ene; [exact Hd|].
      apply negb_false_iff, Z.eqb_eq in Ene.
      rewrite Hv, deliver_recorder.
      split; [exact Hnext|].
      split; [reflexivity|]. split; [constructor|]. cbn [cbState].
      apply Forall_app. split; [exact Hd|].
      apply Forall_map. eapply Forall_impl; [|exact Hs].
      intros x (Hxb & Hxt & pre & x0 & post & Hxd & Hx). cbn [fst snd].
      split; [exists pre, x0, post; split; assumption|].
      split; [reflexivity|]. split; [apply end_record_txn; exact Hxb|].
      intros _.
      assert (Hsplit : exists mid, post = mid ++ [(Some e0, @None error)]).
      { assert (Hl : done ++ [(Some e0, None)] = (pre ++ [(Some x0, None)]) ++ post)
          by (rewrite <- app_assoc; exact Hxd).
        destruct (rev post) as [|y rp] eqn:Er.
        - apply (f_equal (@rev _)) in Er. rewrite rev_involutive in Er.
          cbn [rev] in Er. subst post. rewrite app_nil_r in Hl.
          apply app_inj_tail in Hl. destruct Hl as [_ Hl]. injection Hl as Hl.
          (* the staged entry would be the end record itself *)
          exfalso. subst x. unfold e in Eb. rewrite Hl in Eb.
          cbn [meta with_offset] in Eb, Hxb. congruence.
        - apply (f_equal (@rev _)) in Er. rewrite rev_involutive in Er.
          cbn [rev] in Er. subst post. rewrite app_assoc in Hl.
          apply app_inj_tail in Hl. destruct Hl as [_ Hl]. subst y.
          exists (rev rp). reflexivity. }
      destruct Hsplit as [mid ->].
      exists pre, x0, (advance start (read_entries pre)), mid, e0, [], ts.
      split; [exact Hxd|]. split; [exact Hx|].
      split.
      { unfold end_record.
        change (meta e0) with (meta e). rewrite Eb, Ef. reflexivity. }
      split; [exact Ep|].
      rewrite Ene in Hxt. exact Hxt.
    + (* a record outside transactions *)
      unfold iterate_body. cbn [err_is isZero_ptr orb]. rewrite E2, Eb, Ef.
      destruct (negb (lastCommit st =? 0)); [exact Hd|].
      unfold recorder at 1.
      split; [exact Hnext|].
      split; [exact Hv|]. split; [exact Hs|]. cbn [cbState].
      apply Forall_app. split; [exact Hd|].
      constructor; [|constructor]. cbn [fst snd].
      split; [exact Hread|]. split; [reflexivity|].
      split.
      * cbn [fst]. unfold end_record. rewrite Ef. apply andb_false_r.
      * cbn [fst]. rewrite Eb. discriminate.
Qed.

Lemma loop_replay_inv : forall rest done st,
  recordOffset st = advance start (read_entries done) ->
  replay_inv lf done start st ->
  Forall (delivered_ok lf (done ++ rest) start)
         (fst (iterate_loop lf recorder rest st)).
Proof.
  induction rest as [|r rest IH]; intros done st Hoff Hinv.
  - rewrite loop_nil, app_nil_r. apply Hinv.
  - rewrite loop_cons.
    pose proof (body_replay_inv done st r Hoff Hinv) as Hb.
    replace (done ++ r :: rest) with ((done ++ [r]) ++ rest)
      by (rewrite <- app_assoc; reflexivity).
    destruct (iterate_body lf recorder st (stamp (recordOffset st) r)) as [st'|st'|s res].
    + destruct Hb as [Hoff' Hinv']. apply IH; assumption.
    + cbn [fst]. eapply Forall_impl; [|exact Hb]. intros d. apply delivered_ok_app.
    + cbn [fst]. eapply Forall_impl; [|exact Hb]. intros d. apply delivered_ok_app.
Qed.

End Deliveries.

Lemma iterate_delivered_ok `{Collaborators} (lf : logFile) readOnly off :
  Forall (delivered_ok lf (NewReader lf (start_offset off)) (start_offset off))
         (fst (iterate lf readOnly off recorder [])).
Proof.
  unfold iterate. fold (start_offset off).
  apply (loop_replay_inv lf (start_offset off) _ []).
  - reflexivity.
  - split; [reflexivity|]. split; constructor.
Qed.

(** X14: whatever the log holds, every entry that [iterate] hands to a
    callback that records its arguments and returns nil is an entry that
    was read from the log without error, and the offset filled in is the
    place of its record: the offset at which the reading began (20 when
    [iterate] is called with 0) advanced by the length of each record read
    before it, in 32 bits. The pointer that comes with it carries the file
    id of the log file, the length of the record and that offset; and it is
    never a bare end record of a transaction (end bit without transaction
    bit). *)
Theorem iterate_delivers_log_entries `{Collaborators}
    (lf : logFile) (readOnly : bool) (off : Z) (d : Entry * valuePointer.t) :
  In d (fst (iterate lf readOnly off recorder [])) ->
  read_at (NewReader lf (start_offset off)) (start_offset off) (fst d)
  /\ snd d = pointer_of lf (fst d)
  /\ end_record (fst d) = false.
Proof.
  intros Hin.
  pose proof (iterate_delivered_ok lf readOnly off) as Hall.
  rewrite Forall_forall in Hall.
  destruct (Hall d Hin) as (Hr & Hp & He & _). auto.
Qed.

Lemma iterate_delivers_log_entries_witness :
  let d := nth 1 (fst (iterate (H:=Sample.collaborators) Sample.tornLog true 0
                         recorder []))
             (Sample.rec_a, pointer_of Sample.tornLog Sample.rec_a) in
  read_at (NewReader (Collaborators:=Sample.collaborators) Sample.tornLog
             (start_offset 0)) (start_offset 0) (fst d)
  /\ snd d = pointer_of Sample.tornLog (fst d)
  /\ end_record (H:=Sample.collaborators) (fst d) = false.
Proof.
  intros d.
  apply (iterate_delivers_log_entries (H:=Sample.collaborators) Sample.tornLog
           true 0 d).
  vm_compute. right. left. reflexivity.
Defined.

(** X15: whatever the log holds, an entry with the transaction bit is
    handed to the callback only after an end record was read later in the
    log: a record with the end bit and without the transaction bit whose
    value is a decimal number. That number is the timestamp of the entry's
    key, unless that timestamp is 0: entries with timestamp 0 are staged
    without opening a transaction and go out with the next end record that
    is accepted. *)
Theorem iterate_delivers_closed_transactions `{Collaborators}
    (lf : logFile) (readOnly : bool) (off : Z) :
  Forall (fun d => has_bit (meta (fst d)) bitTxn = true ->
                   closed_by (NewReader lf (start_offset off)) (fst d))
         (fst (iterate lf readOnly off recorder [])).
Proof.
  eapply Forall_impl; [|apply iterate_delivered_ok].
  intros d (_ & _ & _ & Hc). exact Hc.
Qed.

(** The sample with a timestamp of 0: the entry [p], staged while no
    transaction was open, is delivered with the transaction of timestamp
    7. *)
Example iterate_timestamp_zero :
  map (fun d => Key (fst d))
      (fst (iterate (H:=Sample.collaborators) MoreSample.zeroTsLog true 0 recorder []))
  = [Sample.keyTs "p" 0; Sample.keyTs "q" 7].
Proof. vm_compute. reflexivity. Qed.

(** X16: on a log that holds no record after the offset to start from
    (nothing to read, or a first read that reports the end of the file, a
    zero entry or a truncated record), [iterate] does not call the callback
    and returns the offset it started from, which is 20, the size of the
    header, when it was asked to start from 0. *)
Theorem iterate_empty_log `{Collaborators} {S : Type}
    (lf : logFile) (readOnly : bool) (off : Z) (fn : logEntry S) (s : S) :
  tail_stops (NewReader lf (start_offset off)) ->
  iterate lf readOnly off fn s = (s, Ok (start_offset off))
  /\ start_offset 0 = vlogHeaderSize.
Proof.
  intros Htail. split; [|reflexivity]. unfold iterate. fold (start_offset off).
  apply (loop_torn lf fn [] (NewReader lf (start_offset off))).
  - constructor.
  - exact Htail.
Qed.

Lemma iterate_empty_log_witness :
  iterate (H:=Sample.collaborators) Sample.plainLog true 0 stopper []
  = ([], Ok (start_offset 0))
  /\ start_offset 0 = vlogHeaderSize.
Proof.
  apply (iterate_empty_log (H:=Sample.collaborators) Sample.plainLog true 0 stopper []).
  vm_compute. intros off. reflexivity.
Defined.

(** ** The offset [iterate] returns *)

Section Watermark.
Context `{Collaborators}.
Context {S : Type}.
Variable lf : logFile.
Variable fn : logEntry S.
Variable start : Z.

Lemma record_boundary_app done more n :
  record_boundary done start n -> record_boundary (done ++ more) start n.
Proof.
  intros [Hn | (e & Hr & Hb & Hn)]; [left; exact Hn|].
  right. exists e. split; [apply read_at_app; exact Hr|]. auto.
Qed.

(** One pass through the loop moves the watermark only to the end of the
    record it has just read, and only for a record without the transaction
    bit. *)
Lemma body_watermark done st r0 :
  recordOffset st = advance start (read_entries done) ->
  record_boundary done start (validEndOffset st) ->
  match iterate_body lf fn st (stamp (recordOffset st) r0) with
  | Continue st' =>
      recordOffset st' = advance start (read_entries (done ++ [r0]))
      /\ record_boundary (done ++ [r0]) start (validEndOffset st')
  | BreakLoop st' => record_boundary (done ++ [r0]) start (validEndOffset st')
  | Return _ res => forall n, res <> Ok n
  end.
Proof.
  intros Hoff Hinv. pose proof (record_boundary_app done [r0] _ Hinv) as Hinv'.
  destruct r0 as [e0 err0]. unfold stamp, iterate_body. cbn [fst snd].
  destruct (err_is err0 io_EOF
            || isZero_ptr (option_map (fun e => with_offset e (recordOffset st)) e0));
    [exact Hinv'|].
  destruct (err_is err0 io_ErrUnexpectedEOF || err_is err0 errTruncate); [exact Hinv'|].
  destruct err0 as [err0|]; [discriminate|].
  destruct e0 as [e0|]; cbn [option_map];
    [|split; [apply same_offset; exact Hoff | exact Hinv']].
  pose proof (read_at_last start done (recordOffset st) e0 Hoff) as Hread.
  pose proof (next_offset start done (recordOffset st) e0 Hoff) as Hnext.
  set (e := with_offset e0 (recordOffset st)) in *.
  change (recSize e0)
    with (uint32 (hlen e + len (Key e) + len (Value e) + crc32.Size)) in Hnext.
  assert (Hnew : forall b, has_bit (meta e) bitTxn = b -> b = false ->
            record_boundary (done ++ [(Some e0, None)]) start
              (uint32 (recordOffset st
                       + uint32 (hlen e + len (Key e) + len (Value e) + crc32.Size)))).
  { intros b Hb ->. right. exists e. split; [exact Hread|]. split; [exact Hb|].
    reflexivity. }
  destruct (has_bit (meta e) bitTxn) eqn:Eb.
  { match goal with |- context [if ?c then _ else _] => destruct c end;
      [exact Hinv' | split; [exact Hnext | exact Hinv']]. }
  destruct (has_bit (meta e) bitFinTxn).
  { destruct (strconv.ParseUint (Value e)) as [ts|]; [|exact Hinv'].
    destruct (negb (lastCommit st =? ts)); [exact Hinv'|].
    destruct (deliver fn (path lf) (entries st) (vptrs st) (cbState st))
      as [s1 [[]|err|]]; [|discriminate|discriminate].
    cbn [validEndOffset recordOffset].
    split; [exact Hnext | apply (Hnew false); reflexivity]. }
  destruct (negb (lastCommit st =? 0)); [exact Hinv'|].
  match goal with |- context [fn e ?vp (cbState st)] =>
    destruct (fn e vp (cbState st)) as [s1 [[]|err|]]
  end.
  - cbn [validEndOffset recordOffset].
    split; [exact Hnext | apply (Hnew false); reflexivity].
  - destruct (error_eqb err errStop); [|discriminate].
    cbn [validEndOffset recordOffset].
    split; [exact Hnext | apply (Hnew false); reflexivity].
  - discriminate.
Qed.

Lemma loop_watermark : forall rest done st s' n,
  recordOffset st = advance start (read_entries done) ->
  record_boundary done start (validEndOffset st) ->
  iterate_loop lf fn rest st = (s', Ok n) ->
  record_boundary (done ++ rest) start n.
Proof.
  induction rest as [|r rest IH]; intros done st s' n Hoff Hinv.
  - rewrite loop_nil, app_nil_r. intros [= _ <-]. exact Hinv.
  - rewrite loop_cons.
    pose proof (body_watermark done st r Hoff Hinv) as Hb.
    replace (done ++ r :: rest) with ((done ++ [r]) ++ rest)
      by (rewrite <- app_assoc; reflexivity).
    destruct (iterate_body lf fn st (stamp (recordOffset st) r)) as [st'|st'|s1 res].
    + destruct Hb as [Hoff' Hb]. apply IH; assumption.
    + intros [= _ <-]. apply record_boundary_app. exact Hb.
    + intros [= _ ->]. exfalso. apply (Hb n). reflexivity.
Qed.

End Watermark.

(** X29: whatever the log holds and whatever the callback does, the
    offset that [iterate] returns without error is the offset it started
    from or the end of a record that was read from the log and does not
    carry the transaction bit (an end record or a record outside
    transactions): the place of that record, which is the offset the
    reading began at advanced by the length of each record read before it,
    plus its own length, in 32 bits. The log is therefore only ever
    truncated at such a boundary. *)
Theorem iterate_returns_record_boundary `{Collaborators} {S : Type}
    (lf : logFile) (readOnly : bool) (off : Z) (fn : logEntry S) (s s' : S) (n : Z) :
  iterate lf readOnly off fn s = (s', Ok n) ->
  record_boundary (NewReader lf (start_offset off)) (start_offset off) n.
Proof.
  unfold iterate. fold (start_offset off). intros Hit.
  eapply (loop_watermark lf fn (start_offset off) _ []); [| |exact Hit].
  - reflexivity.
  - left. reflexivity.
Qed.

Lemma iterate_returns_record_boundary_witness :
  record_boundary (H:=Sample.collaborators)
    (NewReader (Collaborators:=Sample.collaborators) Sample.tornLog (start_offset 0))
    (start_offset 0) 99.
Proof.
  apply (iterate_returns_record_boundary (H:=Sample.collaborators) Sample.tornLog
           true 0 recorder []
           (fst (iterate (H:=Sample.collaborators) Sample.tornLog true 0 recorder []))
           99).
  vm_compute. reflexivity.
Defined.

(** The sample log: the entries are handed over with the offsets of their
    records, and the offset returned is the end of the last record that
    closed a transaction or stood alone. *)
Example iterate_offsets_sample :
  let out := iterate (H:=Sample.collaborators) Sample.tornLog true 0 recorder [] in
  map (fun d => (offset (fst d), recSize (fst d))) (fst out)
  = map (fun d => (valuePointer.Offset (snd d), valuePointer.Len (snd d))) (fst out)
  /\ map (fun d => offset (fst d)) (fst out) = [20; 39; 58]
  /\ snd out = Ok 99.
Proof. vm_compute. repeat split. Qed.

(** ** Opening a log file *)

Section OpenFacts.
Context `{Collaborators}.

(** The header [open] reads from a mapped region of at least 20 bytes. *)
Lemma copy_header d :
  vlogHeaderSize <= len d ->
  copy (repeat x00 (Z.to_nat vlogHeaderSize)) d = (firstn 20 d, vlogHeaderSize).
Proof.
  intros Hd. unfold copy. rewrite repeat_length.
  change (Z.to_nat vlogHeaderSize) with 20%nat.
  replace (Nat.min 20 (length d)) with 20%nat
    by (unfold len, vlogHeaderSize in Hd; lia).
  change (skipn 20 (repeat x00 20)) with (@nil byte). rewrite app_nil_r.
  reflexivity.
Qed.

Lemma copy_header_short d :
  len d < vlogHeaderSize ->
  snd (copy (repeat x00 (Z.to_nat vlogHeaderSize)) d) <> vlogHeaderSize.
Proof.
  intros Hd. unfold copy. cbn [snd]. rewrite repeat_length.
  unfold len, vlogHeaderSize in *. lia.
Qed.

Lemma header_iv (d : list byte) :
  vlogHeaderSize <= len d ->
  len (skipn 8 (firstn 20 d)) = 12 /\ skipn 8 (firstn 20 d) = firstn 12 (skipn 8 d).
Proof.
  intros Hd. split.
  - unfold len, vlogHeaderSize in *. rewrite length_skipn, length_firstn. lia.
  - rewrite skipn_firstn_comm. reflexivity.
Qed.

(** What a successful [bootstrap] is. *)
Lemma bootstrap_run lf r dk :
  KeyRegistry.latestDataKey (registry lf) = Ok dk ->
  len r = 12 ->
  vlogHeaderSize <= len (lfData lf) ->
  bootstrap lf (Ok r)
  = (set_Data (set_key (set_key lf dk (baseIV lf)) dk r)
       (binary.PutUint64 (match dk with Some k => DataKey.KeyId k | None => 0 end)
          ++ r ++ skipn 20 (lfData lf)),
     Ok tt).
Proof.
  intros Hk Hr Hd. unfold bootstrap. rewrite Hk.
  set (k := keyID (set_key lf dk (baseIV lf))).
  assert (Hkid : k = match dk with Some k => DataKey.KeyId k | None => 0 end)
    by (unfold k, keyID; destruct dk; reflexivity).
  change (skipn 8 (repeat x00 (Z.to_nat vlogHeaderSize))) with (repeat x00 12).
  change (firstn 8 (binary.PutUint64 k ++ repeat x00 12)) with (binary.PutUint64 k).
  change (skipn 8 (binary.PutUint64 k ++ repeat x00 12)) with (repeat x00 12).
  assert (Hiv : fst (copy (repeat x00 12) r) = r).
  { unfold copy. cbn [fst]. rewrite repeat_length.
    replace (Nat.min 12 (length r)) with (length r) by (unfold len in Hr; lia).
    rewrite firstn_all.
    replace (length r) with 12%nat by (unfold len in Hr; lia).
    change (skipn 12 (repeat x00 12)) with (@nil byte). apply app_nil_r. }
  rewrite Hiv.
  change (skipn 8 (binary.PutUint64 k ++ r)) with r.
  cbn [baseIV set_key]. rewrite Hr. cbn [Z.eqb Pos.eqb].
  change (lfData (set_key (set_key lf dk (baseIV lf)) dk r)) with (lfData lf).
  assert (Hlen : length (binary.PutUint64 k ++ r) = 20%nat).
  { rewrite length_app. change (length (binary.PutUint64 k)) with 8%nat.
    unfold len in Hr. lia. }
  assert (Hcopy : copy (lfData lf) (binary.PutUint64 k ++ r)
                  = ((binary.PutUint64 k ++ r) ++ skipn 20 (lfData lf), 20)).
  { unfold copy. rewrite Hlen.
    replace (Nat.min (length (lfData lf)) 20) with 20%nat
      by (unfold len, vlogHeaderSize in Hd; lia).
    rewrite firstn_all2 by lia. reflexivity. }
  rewrite Hcopy. change (vlogHeaderSize =? 20) with true. cbv iota.
  rewrite <- app_assoc, Hkid. reflexivity.
Qed.

(** When the registry has answered, the random bytes are drawn. *)
Lemma bootstrap_random_ok lf w dk :
  KeyRegistry.latestDataKey (registry lf) = Ok dk ->
  bootstrap_random lf w = cryptorand_Read w.
Proof. intros Hk. unfold bootstrap_random. rewrite Hk. reflexivity. Qed.

(** [bootstrap] and [open] change the mapped file, the data key and the base
    IV of a log file, and nothing else of it. *)
Lemma bootstrap_frame lf rnd :
  let lf' := fst (bootstrap lf rnd) in
  fid lf' = fid lf /\ path lf' = path lf /\ loadingMode lf' = loadingMode lf
  /\ writeAt lf' = writeAt lf /\ registry lf' = registry lf
  /\ MmapFile.calls (mf lf') = MmapFile.calls (mf lf).
Proof.
  unfold bootstrap.
  destruct (KeyRegistry.latestDataKey (registry lf)) as [dk|err|];
    [|repeat split|repeat split].
  destruct rnd as [r|err|]; [|repeat split|repeat split].
  match goal with |- context [if ?c then _ else _] => destruct c end;
    [|repeat split].
  match goal with |- context [copy ?a ?b] => destruct (copy a b) as [d n] end.
  destruct (vlogHeaderSize =? n); repeat split.
Qed.

Lemma open_frame lf w p o :
  let lf' := snd (fst (open lf w p o)) in
  fid lf' = fid lf /\ path lf' = path lf /\ loadingMode lf' = loadingMode lf
  /\ writeAt lf' = writeAt lf /\ registry lf' = registry lf.
Proof.
  unfold open.
  destruct (OpenMmapFile w p (int64 (2 * int64 (ValueLogFileSize o))))
    as [w1 [m ferr]].
  destruct (err_is ferr z_NewFile).
  - destruct (bootstrap_random (set_mf lf m) w1) as [w2 rnd].
    pose proof (bootstrap_frame (set_mf lf m) rnd) as Hb. cbv zeta in Hb.
    destruct Hb as (H1 & H2 & H3 & H4 & H5 & _).
    destruct (bootstrap (set_mf lf m) rnd) as [lfb [[]|err|]]; cbn [fst] in *;
      [|cbn [fst snd]; auto|cbn [fst snd]; auto].
    destruct (copy (repeat x00 (Z.to_nat vlogHeaderSize)) (lfData lfb)) as [b n].
    destruct (vlogHeaderSize =? n); [|cbn [fst snd]; auto].
    destruct (KeyRegistry.dataKey (registry lfb) (binary.be_value (firstn 8 b)))
      as [dk|err|]; [|cbn [fst snd]; auto|cbn [fst snd]; auto].
    destruct (len (baseIV (set_key lfb dk (skipn 8 b))) =? 12);
      [destruct ferr|]; cbn [fst snd]; auto.
  - destruct ferr as [err|]; [cbn [fst snd]; repeat split|].
    destruct (copy (repeat x00 (Z.to_nat vlogHeaderSize)) (lfData (set_mf lf m)))
      as [b n].
    destruct (vlogHeaderSize =? n); [|cbn [fst snd]; repeat split].
    destruct (KeyRegistry.dataKey (registry (set_mf lf m)) (binary.be_value (firstn 8 b)))
      as [dk|err|]; [|cbn [fst snd]; repeat split|cbn [fst snd]; repeat split].
    destruct (len (baseIV (set_key (set_mf lf m) dk (skipn 8 b))) =? 12);
      cbn [fst snd]; repeat split.
Qed.

End OpenFacts.

(** X17: on a file that existed, [open] reads the first 20 mapped bytes:
    it asks the registry for the data key whose id is the first 8 bytes,
    big endian, makes that key the data key of the log file and bytes 8 to
    20 its base IV, and returns nil; an error of the registry is returned
    wrapped. When fewer than 20 bytes are mapped the assertion on [copy]
    fails. *)
Theorem open_reads_header `{Collaborators} lf w p o w1 m :
  OpenMmapFile w p (int64 (2 * int64 (ValueLogFileSize o))) = (w1, (m, None)) ->
  let d := MmapFile.Data m in
  (vlogHeaderSize <= len d ->
   match KeyRegistry.dataKey (registry lf) (binary.be_value (firstn 8 d)) with
   | Ok dk =>
       open lf w p o
       = (w1, set_key (set_mf lf m) dk (firstn 12 (skipn 8 d)), Ok tt)
   | Err err =>
       open lf w p o = (w1, set_mf lf m, Err (Wrapf err "While opening vlog file"))
   | Panic => snd (open lf w p o) = Panic
   end)
  /\ (len d < vlogHeaderSize -> snd (open lf w p o) = Panic).
Proof.
  intros Ho d. unfold open. rewrite Ho. cbn [err_is].
  change (lfData (set_mf lf m)) with d.
  change (registry (set_mf lf m)) with (registry lf).
  split.
  - intros Hd. rewrite copy_header by exact Hd. rewrite Z.eqb_refl.
    rewrite firstn_firstn. change (Nat.min 8 20) with 8%nat.
    destruct (KeyRegistry.dataKey (registry lf) (binary.be_value (firstn 8 d)))
      as [dk|err|]; try reflexivity.
    cbn [baseIV set_key].
    destruct (header_iv d Hd) as [Hl Hiv]. rewrite Hl, Hiv. reflexivity.
  - intros Hd. pose proof (copy_header_short d Hd) as Hn.
    destruct (copy (repeat x00 (Z.to_nat vlogHeaderSize)) d) as [b n].
    cbn [snd] in Hn.
    replace (vlogHeaderSize =? n) with false by (symmetry; apply Z.eqb_neq; lia).
    reflexivity.
Qed.

Lemma open_reads_header_witness :
  let lf0 := Sample.logFile_of Sample.plainRegistry None 0 in
  let d := lfData Sample.tornLog in
  (vlogHeaderSize <= len d ->
   match KeyRegistry.dataKey (registry lf0) (binary.be_value (firstn 8 d)) with
   | Ok dk =>
       open (H:=Sample.collaborators) lf0 Sample.files "dir/00001.mem" Sample.options
       = (Sample.files,
          set_key (set_mf lf0 {| MmapFile.Data := d; MmapFile.Name := "dir/00001.mem";
                                 MmapFile.calls := [] |})
                  dk (firstn 12 (skipn 8 d)), Ok tt)
   | Err err =>
       open (H:=Sample.collaborators) lf0 Sample.files "dir/00001.mem" Sample.options
       = (Sample.files,
          set_mf lf0 {| MmapFile.Data := d; MmapFile.Name := "dir/00001.mem";
                        MmapFile.calls := [] |},
          Err (Wrapf err "While opening vlog file"))
   | Panic =>
       snd (open (H:=Sample.collaborators) lf0 Sample.files "dir/00001.mem"
              Sample.options) = Panic
   end)
  /\ (len d < vlogHeaderSize ->
      snd (open (H:=Sample.collaborators) lf0 Sample.files "dir/00001.mem"
             Sample.options) = Panic).
Proof.
  intros lf0 d.
  apply (open_reads_header (H:=Sample.collaborators) lf0 Sample.files
           "dir/00001.mem" Sample.options Sample.files
           {| MmapFile.Data := d; MmapFile.Name := "dir/00001.mem";
              MmapFile.calls := [] |}).
  vm_compute. reflexivity.
Defined.

(** X18: on a file that was just created, [open] bootstraps it and then
    reads back the header it wrote: with the latest data key of the
    registry and 12 random bytes, the mapped bytes begin with the id of
    that key in 8 bytes, big endian (0 without a key), and the random
    bytes; the data key of the log file is the one the registry returns
    for that id, its base IV the random bytes; and the result is the
    sentinel [z.NewFile], passed through. *)
Theorem open_bootstraps_new_file `{Collaborators} lf w p o w1 m w2 r dk dk' :
  OpenMmapFile w p (int64 (2 * int64 (ValueLogFileSize o)))
    = (w1, (m, Some z_NewFile)) ->
  cryptorand_Read w1 = (w2, Ok r) -> len r = 12 ->
  vlogHeaderSize <= len (MmapFile.Data m) ->
  KeyRegistry.latestDataKey (registry lf) = Ok dk ->
  let id := match dk with Some k => DataKey.KeyId k | None => 0 end in
  KeyRegistry.dataKey (registry lf) (uint64 id) = Ok dk' ->
  exists lf',
    open lf w p o = (w2, lf', Err z_NewFile)
    /\ lfData lf' = binary.PutUint64 id ++ r ++ skipn 20 (MmapFile.Data m)
    /\ dataKey lf' = dk' /\ baseIV lf' = r /\ writeAt lf' = writeAt lf.
Proof.
  intros Ho Hr Hlen Hd Hk id Hk'.
  unfold open. rewrite Ho. cbn [err_is error_eqb].
  rewrite (bootstrap_random_ok (set_mf lf m) w1 dk Hk), Hr.
  rewrite (bootstrap_run (set_mf lf m) r dk Hk Hlen Hd). fold id.
  change (lfData (set_mf lf m)) with (MmapFile.Data m).
  set (d' := binary.PutUint64 id ++ r ++ skipn 20 (MmapFile.Data m)).
  set (lfb := set_Data (set_key (set_key (set_mf lf m) dk (baseIV (set_mf lf m))) dk r) d').
  change (lfData lfb) with d'.
  change (registry lfb) with (registry lf).
  assert (Hd' : vlogHeaderSize <= len d').
  { unfold d'. rewrite !len_app, PutUint64_len, Hlen. unfold len, vlogHeaderSize. lia. }
  assert (Hhead : firstn 20 d' = binary.PutUint64 id ++ r).
  { unfold d'. rewrite app_assoc.
    assert (Hl : length (binary.PutUint64 id ++ r) = 20%nat).
    { rewrite length_app. change (length (binary.PutUint64 id)) with 8%nat.
      unfold len in Hlen. lia. }
    rewrite <- Hl at 1. rewrite firstn_app, firstn_all, Nat.sub_diag.
    cbn [firstn]. apply app_nil_r. }
  rewrite copy_header by exact Hd'. rewrite Z.eqb_refl, Hhead.
  change (firstn 8 (binary.PutUint64 id ++ r)) with (binary.PutUint64 id).
  change (skipn 8 (binary.PutUint64 id ++ r)) with r.
  rewrite Uint64_PutUint64, Hk'. cbn [baseIV set_key]. rewrite Hlen.
  cbn [Z.eqb Pos.eqb].
  eexists. split; [reflexivity|]. repeat split.
Qed.

Lemma open_bootstraps_new_file_witness :
  let lf0 := Sample.logFile_of Sample.keyRegistry None 0 in
  let m := {| MmapFile.Data := repeat x00 200; MmapFile.Name := "dir/00009.mem";
              MmapFile.calls := [] |} in
  exists lf',
    open (H:=Sample.collaborators) lf0 Sample.files "dir/00009.mem" Sample.options
    = (("dir/00009.mem"%string, repeat x00 200) :: Sample.files, lf', Err z_NewFile)
    /\ lfData lf' = binary.PutUint64 7 ++ Sample.base_iv ++ skipn 20 (MmapFile.Data m)
    /\ dataKey lf' = Some Sample.dataKey7 /\ baseIV lf' = Sample.base_iv
    /\ writeAt lf' = writeAt lf0.
Proof.
  intros lf0 m.
  apply (open_bootstraps_new_file (H:=Sample.collaborators) lf0 Sample.files
           "dir/00009.mem" Sample.options
           (("dir/00009.mem"%string, repeat x00 200) :: Sample.files) m
           (("dir/00009.mem"%string, repeat x00 200) :: Sample.files)
           Sample.base_iv (Some Sample.dataKey7) (Some Sample.dataKey7)).
  - vm_compute. reflexivity.
  - reflexivity.
  - reflexivity.
  - vm_compute. discriminate.
  - reflexivity.
  - reflexivity.
Defined.

(** X19: when the file cannot be opened (an error other than
    [z.NewFile]), [open] returns that error wrapped, without bootstrapping
    and without asking the registry. When the file was just created and
    the random source fails, [open] removes the file and returns the error
    of [bootstrap], the mapped bytes not yet written; when the registry
    has no latest data key to give, the error of [bootstrap] is returned
    likewise and the mapped bytes are as they were. *)
Theorem open_failures `{Collaborators} lf w p o w1 m :
  (forall ferr,
     OpenMmapFile w p (int64 (2 * int64 (ValueLogFileSize o))) = (w1, (m, Some ferr)) ->
     error_eqb ferr z_NewFile = false ->
     open lf w p o
     = (w1, set_mf lf m, Err (Wrapf ferr ("while opening file: " ++ p))))
  /\ (forall w2 err dk,
        OpenMmapFile w p (int64 (2 * int64 (ValueLogFileSize o)))
          = (w1, (m, Some z_NewFile)) ->
        cryptorand_Read w1 = (w2, Err err) ->
        KeyRegistry.latestDataKey (registry lf) = Ok dk ->
        open lf w p o
        = (os_Remove w2 p, set_key (set_mf lf m) dk (baseIV lf),
           Err (Wrapf err "Error while creating base IV, while creating logfile")))
  /\ (forall err,
        OpenMmapFile w p (int64 (2 * int64 (ValueLogFileSize o)))
          = (w1, (m, Some z_NewFile)) ->
        KeyRegistry.latestDataKey (registry lf) = Err err ->
        snd (open lf w p o)
        = Err (Wrapf err "Error while retrieving datakey in logFile.bootstarp")
        /\ snd (fst (open lf w p o)) = set_mf lf m).
Proof.
  split; [|split].
  - intros ferr Ho Hne. unfold open. rewrite Ho. cbn [err_is]. rewrite Hne.
    reflexivity.
  - intros w2 err dk Ho Hr Hk. unfold open. rewrite Ho. cbn [err_is error_eqb].
    rewrite (bootstrap_random_ok (set_mf lf m) w1 dk Hk), Hr. unfold bootstrap.
    change (registry (set_mf lf m)) with (registry lf). rewrite Hk. reflexivity.
  - intros err Ho Hk. unfold open. rewrite Ho. cbn [err_is error_eqb].
    unfold bootstrap_random, bootstrap.
    change (registry (set_mf lf m)) with (registry lf). rewrite Hk.
    split; reflexivity.
Qed.

Lemma open_failures_witness :
  let lf0 := Sample.logFile_of Sample.plainRegistry None 0 in
  open (H:=MoreSample.failing) lf0 Sample.files "dir/locked.mem" Sample.options
  = (Sample.files,
     set_mf lf0 {| MmapFile.Data := []; MmapFile.Name := "dir/locked.mem";
                   MmapFile.calls := [] |},
     Err (Wrapf (OtherError "permission denied") "while opening file: dir/locked.mem"))
  /\ open (H:=MoreSample.failing) lf0 Sample.files "dir/00009.mem" Sample.options
     = (Sample.files,
        set_key (set_mf lf0 {| MmapFile.Data := repeat x00 200;
                               MmapFile.Name := "dir/00009.mem";
                               MmapFile.calls := [] |}) None (baseIV lf0),
        Err (Wrapf (OtherError "no entropy")
                   "Error while creating base IV, while creating logfile")).
Proof.
  intros lf0. split.
  - apply (proj1 (open_failures (H:=MoreSample.failing) lf0 Sample.files
                    "dir/locked.mem" Sample.options Sample.files
                    {| MmapFile.Data := []; MmapFile.Name := "dir/locked.mem";
                       MmapFile.calls := [] |})
                 (OtherError "permission denied")).
    + vm_compute. reflexivity.
    + reflexivity.
  - apply (proj1 (proj2 (open_failures (H:=MoreSample.failing) lf0 Sample.files
                           "dir/00009.mem" Sample.options
                           (("dir/00009.mem"%string, repeat x00 200) :: Sample.files)
                           {| MmapFile.Data := repeat x00 200;
                              MmapFile.Name := "dir/00009.mem";
                              MmapFile.calls := [] |}))
                 (("dir/00009.mem"%string, repeat x00 200) :: Sample.files)
                 (OtherError "no entropy") None).
    + vm_compute. reflexivity.
    + reflexivity.
    + reflexivity.
Defined.

Section OpenMemTableFacts.
Context `{Collaborators}.

(** [UpdateSkipList] changes the sorted map, the timestamp and the mapped
    file of the log, and nothing else of the memtable. *)
Lemma UpdateSkipList_frame mt lf s0 :
  wal mt = Some lf -> sl mt = Some s0 ->
  let mt' := fst (UpdateSkipList mt) in
  ref mt' = ref mt /\ opt mt' = opt mt /\ buf mt' = buf mt
  /\ (exists s, sl mt' = Some s)
  /\ exists lf', wal mt' = Some lf'
       /\ fid lf' = fid lf /\ path lf' = path lf
       /\ loadingMode lf' = loadingMode lf /\ writeAt lf' = writeAt lf
       /\ dataKey lf' = dataKey lf /\ baseIV lf' = baseIV lf.
Proof.
  intros Hw Hs. rewrite (UpdateSkipList_run mt lf s0 Hw Hs). cbv zeta.
  set (ds := fst (iterate lf true 0 recorder [])).
  destruct (replay_state_frame ds mt) as (Hfw & Hfr & Hfo & Hfb).
  destruct (replay_state_sl ds mt s0 Hs) as [s1 Hs1].
  destruct (snd (iterate lf true 0 recorder [])) as [endOff|err|]; cbn [fst].
  - cbn [ref opt buf sl wal set_wal]. rewrite Hfr, Hfo, Hfb, Hs1.
    repeat split; eauto. eexists. split; [reflexivity|]. repeat split.
  - rewrite Hfr, Hfo, Hfb, Hs1, Hfw, Hw.
    repeat split; eauto. eexists. split; [reflexivity|]. repeat split.
  - rewrite Hfr, Hfo, Hfb, Hs1, Hfw, Hw.
    repeat split; eauto. eexists. split; [reflexivity|]. repeat split.
Qed.

(** The memtable [openMemTable] returns. *)
Lemma openMemTable_shape db w fid0 w' mt r :
  openMemTable db w fid0 = (w', (Some mt, r)) ->
  ref mt = 1 /\ opt mt = db_opt db /\ buf mt = None
  /\ (exists s, sl mt = Some s)
  /\ exists lf, wal mt = Some lf
       /\ fid lf = uint32 fid0 /\ path lf = mtFilePath db fid0
       /\ loadingMode lf = MemoryMap /\ writeAt lf = vlogHeaderSize.
Proof.
  unfold openMemTable.
  set (lf0 := {| mf := {| MmapFile.Data := []; MmapFile.Name := mtFilePath db fid0;
                          MmapFile.calls := [] |};
                 path := mtFilePath db fid0; fid := uint32 fid0; size := 0;
                 loadingMode := MemoryMap; dataKey := None; baseIV := [];
                 registry := db_registry db; writeAt := vlogHeaderSize |}).
  pose proof (open_frame lf0 w (mtFilePath db fid0) (db_opt db)) as Hf.
  cbv zeta in Hf.
  destruct (open lf0 w (mtFilePath db fid0) (db_opt db)) as [[w1 lf1] lerr].
  cbn [fst snd] in Hf. destruct Hf as (H1 & H2 & H3 & H4 & _).
  destruct lerr as [[]|err|].
  - set (mt0 := {| sl := Some skl.NewSkiplist; wal := Some lf1; ref := 1;
                   nextTxnTs := 0; opt := db_opt db; buf := None |}).
    pose proof (UpdateSkipList_frame mt0 lf1 skl.NewSkiplist eq_refl eq_refl) as Hu.
    cbv zeta in Hu.
    destruct (UpdateSkipList mt0) as [mt1 r1]. cbn [fst] in Hu.
    intros [= _ <- _].
    destruct Hu as (Hr & Ho & Hb & Hs & lf' & Hw & G1 & G2 & G3 & G4 & _).
    split; [exact Hr|]. split; [exact Ho|]. split; [exact Hb|]. split; [exact Hs|].
    exists lf'. split; [exact Hw|].
    rewrite G1, G2, G3, G4, H1, H2, H3, H4. repeat split.
  - destruct (error_eqb err z_NewFile); [|discriminate].
    intros [= _ <- _]. cbn [ref opt buf sl wal].
    repeat split; eauto. exists lf1. rewrite H1, H2, H3, H4. repeat split.
  - discriminate.
Qed.

End OpenMemTableFacts.

(** X20: every memtable that [openMemTable] returns, for a file that was
    just created or for one whose log was replayed, has a reference count
    of 1, the options of the database, a sorted map, and a log file with
    the id and the path of the file, in memory-mapped mode, whose [writeAt]
    is 20: the replay does not move [writeAt] to the end of what it read.
    [openMemTable] does not allocate the scratch buffer, so a [Put] on the
    memtable as returned dereferences a nil buffer and panics. *)
Theorem openMemTable_result `{Collaborators} db w fid0 w' mt r :
  openMemTable db w fid0 = (w', (Some mt, r)) ->
  ref mt = 1 /\ opt mt = db_opt db /\ buf mt = None
  /\ (exists s, sl mt = Some s)
  /\ (exists lf, wal mt = Some lf
        /\ fid lf = uint32 fid0 /\ path lf = mtFilePath db fid0
        /\ loadingMode lf = MemoryMap /\ writeAt lf = vlogHeaderSize)
  /\ forall key value, Put mt key value = (mt, Panic).
Proof.
  intros Ho.
  destruct (openMemTable_shape _ _ _ _ _ _ Ho) as (Hr & Hop & Hb & Hs & Hw).
  repeat (split; [assumption|]).
  intros key value. unfold Put. rewrite Hb. reflexivity.
Qed.

Lemma openMemTable_result_witness :
  exists w' mt r,
    openMemTable (H:=Sample.collaborators) Sample.freshDB Sample.files 1
    = (w', (Some mt, r))
    /\ ref mt = 1 /\ opt mt = db_opt Sample.freshDB /\ buf mt = None
    /\ (exists s, sl mt = Some s)
    /\ (exists lf, wal mt = Some lf
          /\ fid lf = uint32 1 /\ path lf = mtFilePath Sample.freshDB 1
          /\ loadingMode lf = MemoryMap /\ writeAt lf = vlogHeaderSize)
    /\ forall key value, Put (H:=Sample.collaborators) mt key value = (mt, Panic).
Proof.
  destruct (openMemTable (H:=Sample.collaborators) Sample.freshDB Sample.files 1)
    as [w' [[mt|] r]] eqn:E.
  - exists w', mt, r. split; [reflexivity|].
    apply (openMemTable_result (H:=Sample.collaborators) Sample.freshDB Sample.files 1
             w' mt r E).
  - exfalso. vm_compute in E. discriminate E.
Defined.

(** ** Names of log files *)

Lemma length_append (s1 s2 : string) :
  String.length (s1 ++ s2) = (String.length s1 + String.length s2)%nat.
Proof.
  induction s1 as [|c s1 IH]; cbn [String.append String.length].
  - reflexivity.
  - rewrite IH. reflexivity.
Qed.

Lemma substring_all (s : string) : substring 0 (String.length s) s = s.
Proof.
  induction s as [|c s IH]; cbn [substring String.length].
  - reflexivity.
  - rewrite IH. reflexivity.
Qed.

Lemma substring_append_l (s1 s2 : string) :
  substring 0 (String.length s1) (s1 ++ s2) = s1.
Proof.
  induction s1 as [|c s1 IH]; cbn [String.append substring String.length].
  - destruct s2; reflexivity.
  - rewrite IH. reflexivity.
Qed.

Lemma substring_append_r (s1 s2 : string) :
  substring (String.length s1) (String.length s2) (s1 ++ s2) = s2.
Proof.
  induction s1 as [|c s1 IH]; cbn [String.append substring String.length].
  - apply substring_all.
  - exact IH.
Qed.

Lemma HasSuffix_append (s ext : string) : HasSuffix (s ++ ext) ext = true.
Proof.
  unfold HasSuffix. rewrite length_append.
  replace (String.length s + String.length ext - String.length ext)%nat
    with (String.length s) by lia.
  rewrite substring_append_r, String.eqb_refl.
  replace (String.length ext <=? String.length s + String.length ext)%nat with true
    by (symmetry; apply Nat.leb_le; lia).
  reflexivity.
Qed.

Lemma stem_append (s ext : string) :
  substring 0 (String.length (s ++ ext) - String.length ext) (s ++ ext) = s.
Proof.
  rewrite length_append.
  replace (String.length s + String.length ext - String.length ext)%nat
    with (String.length s) by lia.
  apply substring_append_l.
Qed.

(** Decimal digits. *)
Lemma digit_byte d : 0 <= d <= 9 ->
  48 <= byte_to_Z (byte_of_Z (48 + d)) <= 57.
Proof. intros Hd. rewrite byte_to_of_Z, Z.mod_small by lia. lia. Qed.

Lemma format_digits_digits fuel : forall n acc,
  0 <= n ->
  Forall (fun c => 48 <= byte_to_Z c <= 57) acc ->
  Forall (fun c => 48 <= byte_to_Z c <= 57) (strconv.format_digits fuel n acc).
Proof.
  induction fuel as [|fuel IH]; intros n acc Hn Hacc; cbn [strconv.format_digits].
  - exact Hacc.
  - pose proof (Z.mod_pos_bound n 10 ltac:(lia)) as Hm.
    assert (Hc : Forall (fun c => 48 <= byte_to_Z c <= 57)
                        (byte_of_Z (48 + n mod 10) :: acc))
      by (constructor; [apply digit_byte; lia | exact Hacc]).
    destruct (n <? 10); [exact Hc|].
    apply IH; [apply Z.div_pos; lia | exact Hc].
Qed.

Lemma parse_zeros k : strconv.parse_digits (repeat x30 k) 0 = Some 0.
Proof.
  induction k as [|k IH]; [reflexivity|].
  change (repeat x30 (Datatypes.S k)) with ([x30] ++ repeat x30 k).
  rewrite parse_digits_app. change (strconv.parse_digits [x30] 0) with (Some 0).
  exact IH.
Qed.

(** Parsing the zero-padded decimal text of a number. *)
Lemma ParseInt_padded n k :
  0 <= n <= MaxInt64 ->
  strconv.ParseInt (repeat x30 k ++ strconv.FormatUint n) = Some n.
Proof.
  intros Hn. unfold MaxInt64 in Hn.
  assert (Hdig : Forall (fun c => 48 <= byte_to_Z c <= 57)
                        (repeat x30 k ++ strconv.FormatUint n)).
  { apply Forall_app. split.
    - apply Forall_forall. intros c Hc. apply repeat_spec in Hc. subst c.
      vm_compute. split; discriminate.
    - apply format_digits_digits; [lia | constructor]. }
  assert (Hne : strconv.FormatUint n <> [])
    by (apply (format_digits_nonempty 19)).
  assert (Hp : strconv.ParseUint (repeat x30 k ++ strconv.FormatUint n) = Some n).
  { unfold strconv.ParseUint.
    destruct (repeat x30 k ++ strconv.FormatUint n) as [|c l] eqn:E.
    - apply app_eq_nil in E. destruct E as [_ E]. contradiction.
    - rewrite <- E, parse_digits_app, parse_zeros.
      pose proof (ParseUint_FormatUint n ltac:(lia)) as Hpf.
      unfold strconv.ParseUint in Hpf.
      destruct (strconv.FormatUint n); [contradiction | exact Hpf]. }
  unfold strconv.ParseInt.
  destruct (repeat x30 k ++ strconv.FormatUint n) as [|c l] eqn:E.
  - apply app_eq_nil in E. destruct E as [_ E]. contradiction.
  - inversion Hdig as [|? ? Hc _]; subst.
    assert (Hm : Byte.eqb c x2d = false).
    { destruct (Byte.eqb c x2d) eqn:Em; [|reflexivity].
      apply Byte.byte_dec_bl in Em. subst c. vm_compute in Hc.
      destruct Hc as [Hc _]. exfalso. apply Hc. reflexivity. }
    assert (Hpl : Byte.eqb c x2b = false).
    { destruct (Byte.eqb c x2b) eqn:Em; [|reflexivity].
      apply Byte.byte_dec_bl in Em. subst c. vm_compute in Hc.
      destruct Hc as [Hc _]. exfalso. apply Hc. reflexivity. }
    rewrite Hm, Hpl. cbn [orb]. rewrite Hp. cbn [negb andb].
    replace (2 ^ 63 <=? n) with false by (symmetry; apply Z.leb_gt; lia).
    rewrite int64_small by (unfold MinInt64, MaxInt64; lia). reflexivity.
Qed.

(** ** Paths *)

Lemma split_nonempty p : path.split p <> [].
Proof.
  destruct p as [|c p]; cbn [path.split]; [discriminate|].
  destruct (Ascii.eqb c "/"); [discriminate|].
  destruct (path.split p); discriminate.
Qed.

(** A path splits at each of its slashes. *)
Lemma split_slash a b :
  path.split (a ++ String "/" b) = path.split a ++ path.split b.
Proof.
  induction a as [|c a IH]; cbn [String.append path.split].
  - reflexivity.
  - rewrite IH. destruct (Ascii.eqb c "/"); [reflexivity|].
    pose proof (split_nonempty a) as Hne.
    destruct (path.split a) as [|h t]; [contradiction | reflexivity].
Qed.

Lemma split_cons c s :
  Ascii.eqb c "/" = false -> path.split s = [s] ->
  path.split (String c s) = [String c s].
Proof. intros Hc Hs. cbn [path.split]. rewrite Hc, Hs. reflexivity. Qed.

(** Decimal digits hold no slash. *)
Lemma split_digits s : forall l,
  Forall (fun c => 48 <= byte_to_Z c <= 57) l ->
  path.split s = [s] ->
  path.split (string_of_list_byte l ++ s) = [(string_of_list_byte l ++ s)%string].
Proof.
  induction l as [|b l IH]; intros Hl Hs.
  - exact Hs.
  - inversion Hl as [|? ? Hb Hl']; subst.
    change (string_of_list_byte (b :: l) ++ s)%string
      with (String (ascii_of_byte b) (string_of_list_byte l ++ s)).
    apply split_cons; [|apply IH; assumption].
    destruct (Ascii.eqb (ascii_of_byte b) "/") eqn:E; [|reflexivity].
    apply Ascii.eqb_eq in E.
    assert (Hb' : b = x2f).
    { rewrite <- (byte_of_ascii_of_byte b), E. reflexivity. }
    subst b. vm_compute in Hb. destruct Hb as [Hb _]. exfalso. apply Hb. reflexivity.
Qed.

Lemma string_app_assoc (a b c : string) :
  ((a ++ b) ++ c = a ++ (b ++ c))%string.
Proof.
  induction a as [|x a IH]; cbn [String.append]; [reflexivity|].
  rewrite IH. reflexivity.
Qed.

Lemma concat_snoc (l : list string) (name : string) :
  String.concat "/" (l ++ [name])
  = match l with
    | [] => name
    | _ => (String.concat "/" l ++ String "/" name)%string
    end.
Proof.
  induction l as [|x l IH]; [reflexivity|].
  destruct l as [|y l].
  - reflexivity.
  - change (String.concat "/" ((x :: y :: l) ++ [name]))
      with (x ++ "/" ++ String.concat "/" ((y :: l) ++ [name]))%string.
    rewrite IH.
    change (String.concat "/" (x :: y :: l))
      with (x ++ "/" ++ String.concat "/" (y :: l))%string.
    rewrite !string_app_assoc. reflexivity.
Qed.

Lemma append_slash_nonempty (a b : string) :
  String.eqb (a ++ String "/" b) EmptyString = false.
Proof. destruct a; reflexivity. Qed.

Lemma last_snoc {A} (l : list A) (x d : A) : last (l ++ [x]) d = x.
Proof. apply last_last. Qed.

(** The last element of a cleaned path that ends in the element
    [name]. *)
Lemma Clean_last_aux (rooted : bool) (kept : list string) (name : string) :
  path.split name = [name] ->
  String.eqb name EmptyString = false ->
  let out := ((if rooted then "/" else EmptyString)
                ++ String.concat "/" (rev (name :: kept)))%string in
  String.eqb out EmptyString = false /\ last (path.split out) EmptyString = name.
Proof.
  intros Hs Hne out. unfold out. cbn [rev]. rewrite concat_snoc.
  destruct (rev kept) as [|x l] eqn:Ek.
  - destruct rooted.
    + split; [reflexivity|].
      change ("/" ++ name)%string with (EmptyString ++ String "/" name)%string.
      rewrite split_slash, Hs. reflexivity.
    + cbn [String.append]. rewrite Hs. split; [exact Hne | reflexivity].
  - rewrite <- string_app_assoc. split; [apply append_slash_nonempty|].
    rewrite split_slash, Hs. apply last_snoc.
Qed.

Lemma clean_step_name rooted kept name :
  String.eqb name EmptyString = false -> String.eqb name "." = false ->
  String.eqb name ".." = false ->
  path.clean_step rooted kept name = name :: kept.
Proof. intros H1 H2 H3. unfold path.clean_step. rewrite H1, H2, H3. reflexivity. Qed.

(** The path [path.Join] makes of a directory and a file name ends in the
    file name, whatever the directory is. *)
Lemma Join_last (dir name : string) :
  path.split name = [name] ->
  String.eqb name EmptyString = false -> String.eqb name "." = false ->
  String.eqb name ".." = false ->
  last (path.split (path.Join [dir; name])) EmptyString = name.
Proof.
  intros Hs H1 H2 H3. unfold path.Join. cbn [filter]. rewrite H1. cbn [negb].
  destruct (String.eqb dir EmptyString) eqn:Ed; cbn [negb].
  - change (String.concat "/" [name]) with name. unfold path.Clean.
    rewrite Hs. cbn [fold_left]. rewrite clean_step_name by assumption.
    match goal with |- context [rev [name]] =>
      destruct (Clean_last_aux
                  (match name with String c _ => Ascii.eqb c "/" | EmptyString => false end)
                  [] name Hs H1) as [Ha Hb] end.
    rewrite Ha. exact Hb.
  - change (String.concat "/" [dir; name]) with (dir ++ String "/" name)%string.
    unfold path.Clean. rewrite split_slash, Hs, fold_left_app. cbn [fold_left].
    rewrite clean_step_name by assumption.
    match goal with |- context [rev (name :: ?k)] =>
      match goal with |- context [if ?r then "/"%string else EmptyString] =>
        destruct (Clean_last_aux r k name Hs H1) as [Ha Hb] end end.
    rewrite Ha. exact Hb.
Qed.

Lemma padded_digits n k :
  0 <= n ->
  Forall (fun c => 48 <= byte_to_Z c <= 57) (repeat x30 k ++ strconv.FormatUint n).
Proof.
  intros Hn. apply Forall_app. split.
  - apply Forall_forall. intros c Hc. apply repeat_spec in Hc. subst c.
    vm_compute. split; discriminate.
  - apply format_digits_digits; [lia | constructor].
Qed.

Lemma eqb_longer (s ext x : string) :
  (String.length x < String.length ext)%nat ->
  String.eqb (s ++ ext) x = false.
Proof.
  intros Hl. apply String.eqb_neq. intros E.
  apply (f_equal String.length) in E. rewrite length_append in E. lia.
Qed.

(** The name of a log file is one element of a path. *)
Lemma memFileName_element fid :
  0 <= fid ->
  path.split (memFileName fid) = [memFileName fid]
  /\ String.eqb (memFileName fid) EmptyString = false
  /\ String.eqb (memFileName fid) "." = false
  /\ String.eqb (memFileName fid) ".." = false.
Proof.
  intros Hfid. split.
  - unfold memFileName, Sprintf_05d.
    replace (fid <? 0) with false by (symmetry; apply Z.ltb_ge; lia).
    cbn [app]. rewrite Z.abs_eq by lia.
    apply split_digits; [apply padded_digits; lia | reflexivity].
  - unfold memFileName. repeat split; apply eqb_longer; cbn; lia.
Qed.

(** X21: the name [mtFilePath] gives the log file of a memtable, the id
    in decimal padded with zeros to five digits followed by [.mem], is one
    that [openMemTables] takes for a log file and parses back to the same
    id, for every id from 0 to the largest [int]; and whatever the
    directory of the database is, also one that [path.Join] cleans, that
    name is the last element of the path [mtFilePath] returns. *)
Theorem memFileName_parses_back fid acc :
  0 <= fid <= MaxInt64 ->
  HasSuffix (memFileName fid) memFileExt = true
  /\ parse_fids [memFileName fid] acc = Ok (acc ++ [fid])
  /\ forall db,
       mtFilePath db fid = path.Join [Dir (db_opt db); memFileName fid]
       /\ last (path.split (mtFilePath db fid)) EmptyString = memFileName fid.
Proof.
  intros Hfid. split; [apply HasSuffix_append|]. split.
  - cbn [parse_fids]. unfold memFileName.
    rewrite HasSuffix_append. cbn [negb].
    rewrite stem_append. unfold Sprintf_05d, ascii_bytes.
    replace (fid <? 0) with false by (symmetry; apply Z.ltb_ge; lia).
    rewrite list_byte_of_string_of_list_byte. cbn [app].
    rewrite Z.abs_eq by lia.
    rewrite ParseInt_padded by exact Hfid.
    rewrite int64_small by (unfold MinInt64, MaxInt64 in *; lia). reflexivity.
  - intros db. split; [reflexivity|].
    destruct (memFileName_element fid) as (Hs & H1 & H2 & H3); [lia|].
    change (mtFilePath db fid) with (path.Join [Dir (db_opt db); memFileName fid]).
    apply Join_last; assumption.
Qed.

Lemma memFileName_parses_back_witness :
  HasSuffix (memFileName 42) memFileExt = true
  /\ parse_fids [memFileName 42] [] = Ok ([] ++ [42])
  /\ forall db,
       mtFilePath db 42 = path.Join [Dir (db_opt db); memFileName 42]
       /\ last (path.split (mtFilePath db 42)) EmptyString = memFileName 42.
Proof.
  apply (memFileName_parses_back 42 []). vm_compute. split; discriminate.
Defined.

(** The path of the log file of id 42 in the directory [dir], in the
    directory [dir/], in the working directory given as the empty string,
    and in a directory that is named the long way round. *)
Example mtFilePath_sample :
  path.Join ["dir"%string; memFileName 42] = "dir/00042.mem"%string
  /\ path.Join ["dir/"%string; memFileName 42] = "dir/00042.mem"%string
  /\ path.Join [EmptyString; memFileName 42] = "00042.mem"%string
  /\ path.Join ["/var//db/./tmp/.."%string; memFileName 42] = "/var/db/00042.mem"%string.
Proof. vm_compute. repeat split. Qed.

(** [path.Clean] on paths with doubled slashes, dots and parent
    elements, rooted and not. *)
Example Clean_sample :
  map path.Clean
      ["abc//def//ghi"%string; "abc/./def"%string; "abc/def/../ghi/../jkl"%string;
       "abc/def/../../.."%string; "/abc/def/../../.."%string; "//abc//"%string;
       "abc/../../././../def"%string; "./"%string; EmptyString]
  = ["abc/def/ghi"%string; "abc/def"%string; "abc/jkl"%string;
     ".."%string; "/"%string; "/abc"%string;
     "../../def"%string; "."%string; "."%string].
Proof. vm_compute. reflexivity. Qed.

(** The sample: the name of the log file of id 42. *)
Example memFileName_sample : memFileName 42 = "00042.mem"%string.
Proof. vm_compute. reflexivity. Qed.

(** ** Recovery of the directory *)

(** The first loop of [openMemTables] fails on the first name that ends in
    [.mem] and is not a number: the names before it end otherwise or
    parse. *)
Lemma parse_fids_bad bad post : forall pre acc,
  Forall (fun n => HasSuffix n memFileExt = true ->
                   strconv.ParseInt
                     (ascii_bytes
                        (substring 0 (String.length n - String.length memFileExt) n))
                   <> None) pre ->
  HasSuffix bad memFileExt = true ->
  strconv.ParseInt
    (ascii_bytes (substring 0 (String.length bad - String.length memFileExt) bad))
  = None ->
  parse_fids (pre ++ bad :: post) acc
  = Err (errFile (OtherError "strconv.ParseInt") bad "Unable to parse log id.").
Proof.
  induction pre as [|f pre IH]; intros acc Hpre Hs Hp.
  - cbn [app parse_fids]. rewrite Hs, Hp. reflexivity.
  - inversion Hpre as [|? ? Hf Hpre']; subst.
    cbn [app parse_fids].
    destruct (HasSuffix f memFileExt) eqn:Ef; cbn [negb].
    + destruct (strconv.ParseInt
                  (ascii_bytes (substring 0 (String.length f - String.length memFileExt) f)))
        as [fid|] eqn:Epf.
      * apply IH; assumption.
      * exfalso. apply Hf; reflexivity.
    + apply IH; assumption.
Qed.

(** Names that do not end in [.mem] do not count. *)
Lemma parse_fids_filter : forall files acc,
  parse_fids files acc
  = parse_fids (filter (fun n => HasSuffix n memFileExt) files) acc.
Proof.
  induction files as [|f files IH]; intros acc; [reflexivity|].
  cbn [parse_fids filter].
  destruct (HasSuffix f memFileExt) eqn:Ef; cbn [negb].
  - cbn [parse_fids]. rewrite Ef. cbn [negb].
    destruct (strconv.ParseInt _); [apply IH | reflexivity].
  - apply IH.
Qed.

(** X22: [openMemTables] looks only at the names of the directory that
    end in [.mem]; when one of them is not a decimal 64-bit integer before
    the suffix, it returns the error "Unable to parse log id." for the
    first such name, the one before which every name either ends otherwise
    or parses, and it does so before any log file is opened: the database
    is as it was. *)
Theorem openMemTables_stray_file `{Collaborators} db w o pre bad post :
  ReadDir w (Dir (db_opt db)) = Ok (pre ++ bad :: post) ->
  Forall (fun n => HasSuffix n memFileExt = true ->
                   strconv.ParseInt
                     (ascii_bytes
                        (substring 0 (String.length n - String.length memFileExt) n))
                   <> None) pre ->
  HasSuffix bad memFileExt = true ->
  strconv.ParseInt
    (ascii_bytes (substring 0 (String.length bad - String.length memFileExt) bad))
  = None ->
  openMemTables db w o
  = (w, db, Err (errFile (OtherError "strconv.ParseInt") bad
                   "Unable to parse log id."))
  /\ parse_fids (pre ++ bad :: post) []
     = parse_fids (filter (fun n => HasSuffix n memFileExt) (pre ++ bad :: post)) [].
Proof.
  intros Hr Hpre Hs Hp. split; [|apply parse_fids_filter].
  unfold openMemTables. rewrite Hr.
  rewrite (parse_fids_bad bad post pre [] Hpre Hs Hp). reflexivity.
Qed.

Lemma openMemTables_stray_file_witness :
  let pre := ["00003.mem"%string; "MANIFEST"%string; "00001.mem"%string] in
  let post := ["zz.mem"%string] in
  openMemTables (H:=Sample.collaborators) Sample.freshDB MoreSample.strayLater
    Sample.options
  = (MoreSample.strayLater, Sample.freshDB,
     Err (errFile (OtherError "strconv.ParseInt") "notes.mem"
            "Unable to parse log id."))
  /\ parse_fids (pre ++ "notes.mem"%string :: post) []
     = parse_fids (filter (fun n => HasSuffix n memFileExt)
                     (pre ++ "notes.mem"%string :: post)) [].
Proof.
  intros pre post.
  apply (openMemTables_stray_file (H:=Sample.collaborators) Sample.freshDB
           MoreSample.strayLater Sample.options pre "notes.mem"%string post).
  - vm_compute. reflexivity.
  - unfold pre.
    repeat (apply Forall_cons;
            [first [ intros _; vm_compute; discriminate
                   | intros Hh; vm_compute in Hh; discriminate Hh ]|]).
    apply Forall_nil.
  - vm_compute. reflexivity.
  - vm_compute. reflexivity.
Defined.



Section ImmOrder.
Context `{Collaborators}.

(** The second loop of [openMemTables] appends one memtable per id, in
    the order of the ids. *)
Lemma open_all_imm : forall fids db w w' db',
  open_all db w fids = (w', db', Ok tt) ->
  exists mts,
    imm db' = imm db ++ mts
    /\ map wal_fid mts = map (fun f => Some (uint32 f)) fids
    /\ Forall (fun mt => ref mt = 1 /\ buf mt = None) mts.
Proof.
  induction fids as [|f fids IH]; intros db w w' db'; cbn [open_all].
  - intros [= _ <-]. exists []. rewrite app_nil_r. repeat split. constructor.
  - destruct (openMemTable db w f) as [w1 [[mt|] [[]|err|]]] eqn:Eo;
      try discriminate.
    intros Ho. destruct (IH _ _ _ _ Ho) as (mts & Hi & Hm & Hf).
    destruct (openMemTable_shape _ _ _ _ _ _ Eo)
      as (Hr & _ & Hb & _ & lf & Hw & Hfid & _).
    exists (mt :: mts). cbn [imm set_imm] in Hi.
    split; [rewrite Hi, <- app_assoc; reflexivity|].
    split.
    + cbn [map]. rewrite Hm. f_equal. unfold wal_fid. rewrite Hw. cbn [option_map].
      rewrite Hfid. reflexivity.
    + constructor; [split; assumption | exact Hf].
Qed.

End ImmOrder.



(** The sample directory: the ids are found as 3 and 1 and the memtables
    are appended as 1 and 3. *)
Example openMemTables_order_sample :
  parse_fids ["00003.mem"%string; "MANIFEST"%string; "00001.mem"%string] [] = Ok [3; 1]
  /\ map wal_fid (imm (snd (fst (openMemTables (H:=Sample.collaborators)
                                   Sample.freshDB Sample.files Sample.options))))
     = [Some 1; Some 3].
Proof. vm_compute. split; reflexivity. Qed.

Section PartialRecovery.
Context `{Collaborators}.

(** The second loop of [openMemTables] stops at the first memtable that
    does not open: the ids before it were opened one after the other, the
    database is the one they left, and the error is the one [openMemTable]
    returned for that id. *)
Lemma open_all_err : forall fids db w w' db' err,
  open_all db w fids = (w', db', Err err) ->
  exists pre f post w1 omt,
    fids = pre ++ f :: post
    /\ open_all db w pre = (w1, db', Ok tt)
    /\ openMemTable db' w1 f = (w', (omt, Err err)).
Proof.
  induction fids as [|f fids IH]; intros db w w' db' err; cbn [open_all].
  - discriminate.
  - destruct (openMemTable db w f) as [w1 [[mt|] [[]|e|]]] eqn:Eo;
      try discriminate.
    + intros Ho.
      destruct (IH _ _ _ _ _ Ho) as (pre & f' & post & w2 & omt & Hf & Hpre & Hbad).
      exists (f :: pre), f', post, w2, omt. split; [rewrite Hf; reflexivity|].
      split; [|exact Hbad]. cbn [open_all]. rewrite Eo. exact Hpre.
    + intros [= <- <- <-]. exists [], f, fids, w, (Some mt).
      split; [reflexivity|]. split; [reflexivity | exact Eo].
    + intros [= <- <- <-]. exists [], f, fids, w, None.
      split; [reflexivity|]. split; [reflexivity | exact Eo].
Qed.

End PartialRecovery.

(** X28: when [openMemTables] returns an error, the counter [nextMemFid]
    is as it was; and when the ids were read from the directory, the error
    is the one [openMemTable] returned for the first id, in ascending
    order, that did not open: the ids before it were opened one after the
    other, and their memtables, one for each, are the ones appended to the
    immutable memtables of the database that is left. The work done so far
    is not undone. *)
Theorem openMemTables_stops_at_failure `{Collaborators} db w o w' db' err :
  openMemTables db w o = (w', db', Err err) ->
  nextMemFid db' = nextMemFid db
  /\ forall files fids,
       ReadDir w (Dir (db_opt db)) = Ok files ->
       parse_fids files [] = Ok fids ->
       exists pre f post w1 omt mts,
         sort_ints fids = pre ++ f :: post
         /\ open_all db w pre = (w1, db', Ok tt)
         /\ openMemTable db' w1 f = (w', (omt, Err err))
         /\ imm db' = imm db ++ mts
         /\ map wal_fid mts = map (fun f => Some (uint32 f)) pre.
Proof.
  unfold openMemTables.
  destruct (ReadDir w (Dir (db_opt db))) as [files|e|].
  2:{ intros [= _ <- _]. split; [reflexivity|]. intros ? ? [=]. }
  2:{ discriminate. }
  destruct (parse_fids files []) as [fids|e|] eqn:Hp.
  2:{ intros [= _ <- _]. split; [reflexivity|]. intros ? ? [= <-]. congruence. }
  2:{ discriminate. }
  destruct (open_all db w (sort_ints fids)) as [[w1 db1] r] eqn:Ho.
  destruct r as [[]|e|]; [discriminate| |discriminate].
  intros [= <- <- <-].
  split; [eapply open_all_nextMemFid; exact Ho|].
  intros files' fids' [= <-] Hp'. rewrite Hp in Hp'. injection Hp' as <-.
  destruct (open_all_err _ _ _ _ _ _ Ho) as (pre & f & post & w2 & omt & Hf & Hpre & Hbad).
  destruct (open_all_imm _ _ _ _ _ Hpre) as (mts & Hi & Hm & _).
  exists pre, f, post, w2, omt, mts. repeat split; assumption.
Qed.

Lemma openMemTables_stops_at_failure_witness :
  let out := openMemTables (H:=MoreSample.failing) Sample.freshDB Sample.files
               Sample.options in
  nextMemFid (snd (fst out)) = nextMemFid Sample.freshDB
  /\ forall files fids,
       ReadDir (Collaborators:=MoreSample.failing) Sample.files
         (Dir (db_opt Sample.freshDB)) = Ok files ->
       parse_fids files [] = Ok fids ->
       exists pre f post w1 omt mts,
         sort_ints fids = pre ++ f :: post
         /\ open_all (H:=MoreSample.failing) Sample.freshDB Sample.files pre
            = (w1, snd (fst out), Ok tt)
         /\ openMemTable (H:=MoreSample.failing) (snd (fst out)) w1 f
            = (fst (fst out),
               (omt, Err (Wrapf (Wrapf (OtherError "permission denied")
                                   "while opening file: dir/00003.mem")
                            "While opening mem table")))
         /\ imm (snd (fst out)) = imm Sample.freshDB ++ mts
         /\ map wal_fid mts = map (fun f => Some (uint32 f)) pre.
Proof.
  intros out.
  apply (openMemTables_stops_at_failure (H:=MoreSample.failing) Sample.freshDB
           Sample.files Sample.options (fst (fst out)) (snd (fst out))
           (Wrapf (Wrapf (OtherError "permission denied")
                         "while opening file: dir/00003.mem")
                  "While opening mem table")).
  vm_compute. reflexivity.
Defined.

(** The sample directory when the file of id 3 does not open: the
    memtable of id 1 is in the list and the counter is still 0. *)
Example openMemTables_failure_sample :
  let out := openMemTables (H:=MoreSample.failing) Sample.freshDB Sample.files
               Sample.options in
  map wal_fid (imm (snd (fst out))) = [Some 1]
  /\ nextMemFid (snd (fst out)) = 0
  /\ snd out = Err (Wrapf (Wrapf (OtherError "permission denied")
                                 "while opening file: dir/00003.mem")
                          "While opening mem table").
Proof. vm_compute. repeat split. Qed.

(** ** Further properties of the memtable *)

Lemma fold_max_ge : forall l a, a <= fold_left Z.max l a.
Proof.
  induction l as [|x l IH]; intros a; cbn [fold_left]; [lia|].
  specialize (IH (Z.max a x)). lia.
Qed.

Lemma fold_max_upper : forall l a, Forall (fun x => x <= fold_left Z.max l a) l.
Proof.
  induction l as [|x l IH]; intros a; cbn [fold_left]; constructor.
  - pose proof (fold_max_ge l (Z.max a x)). lia.
  - apply IH.
Qed.

Section ReplayResult.
Context `{Collaborators}.

(** The sorted map and the timestamp after the replay of a list of
    deliveries. *)
Lemma replay_state_result : forall ds mt s0,
  sl mt = Some s0 ->
  sl (replay_state mt ds)
  = Some (s0 ++ map (fun d => SklPut (Key (fst d)) (valueOf (fst d))) ds)
  /\ nextTxnTs (replay_state mt ds)
     = fold_left Z.max (map (fun d => ParseTs (Key (fst d))) ds) (nextTxnTs mt).
Proof.
  induction ds as [|d ds IH]; intros mt s0 Hs.
  - cbn [map fold_left]. rewrite app_nil_r. split; [exact Hs | reflexivity].
  - change (replay_state mt (d :: ds)) with (replay_state (replay_one mt (fst d)) ds).
    destruct (IH (replay_one mt (fst d)) (skl.Put s0 (Key (fst d)) (valueOf (fst d))))
      as [Hsl Hts].
    { unfold replay_one. cbn [sl set_sl]. rewrite Hs. reflexivity. }
    rewrite Hsl, Hts. cbn [map fold_left]. unfold skl.Put.
    rewrite <- app_assoc. split; reflexivity.
Qed.

End ReplayResult.

(** X24: after [UpdateSkipList] on a memtable with a log file and a
    sorted map, whatever it returns, the sorted map has received one [Put]
    for each entry [iterate] delivered, in the order of delivery, with the
    key and the value, meta, user-meta and expires-at of the entry; the
    timestamp [nextTxnTs] is the largest of its old value and the
    timestamps of the delivered keys, so it is not lowered; and the
    reference count and the scratch buffer are as they were. *)
Theorem UpdateSkipList_result `{Collaborators} mt lf s0 :
  wal mt = Some lf -> sl mt = Some s0 ->
  let ds := fst (iterate lf true 0 recorder []) in
  let mt' := fst (UpdateSkipList mt) in
  sl mt' = Some (s0 ++ map (fun d => SklPut (Key (fst d)) (valueOf (fst d))) ds)
  /\ nextTxnTs mt'
     = fold_left Z.max (map (fun d => ParseTs (Key (fst d))) ds) (nextTxnTs mt)
  /\ nextTxnTs mt <= nextTxnTs mt'
  /\ Forall (fun d => ParseTs (Key (fst d)) <= nextTxnTs mt') ds
  /\ ref mt' = ref mt /\ buf mt' = buf mt.
Proof.
  intros Hw Hs ds mt'.
  destruct (replay_state_result ds mt s0 Hs) as [Hsl Hts].
  destruct (replay_state_frame ds mt) as (_ & Hr & _ & Hb).
  assert (Hmt : sl mt' = sl (replay_state mt ds)
                /\ nextTxnTs mt' = nextTxnTs (replay_state mt ds)
                /\ ref mt' = ref (replay_state mt ds)
                /\ buf mt' = buf (replay_state mt ds)).
  { unfold mt'. rewrite (UpdateSkipList_run mt lf s0 Hw Hs). cbv zeta. fold ds.
    destruct (snd (iterate lf true 0 recorder [])) as [endOff|err|];
      repeat split. }
  destruct Hmt as (E1 & E2 & E3 & E4).
  rewrite E1, E2, E3, E4, Hsl, Hts, Hr, Hb.
  split; [reflexivity|]. split; [reflexivity|].
  split; [apply fold_max_ge|].
  split; [|split; reflexivity].
  pose proof (fold_max_upper (map (fun d => ParseTs (Key (fst d))) ds) (nextTxnTs mt))
    as Hu.
  rewrite Forall_map in Hu. exact Hu.
Qed.

Lemma UpdateSkipList_result_witness :
  let mt := Sample.memTable_of Sample.tornLog in
  let ds := fst (iterate (H:=Sample.collaborators) Sample.tornLog true 0 recorder []) in
  let mt' := fst (UpdateSkipList (H:=Sample.collaborators) mt) in
  sl mt' = Some (skl.NewSkiplist
                   ++ map (fun d => SklPut (Key (fst d)) (valueOf (fst d))) ds)
  /\ nextTxnTs mt'
     = fold_left Z.max
         (map (fun d => ParseTs (Collaborators:=Sample.collaborators) (Key (fst d))) ds)
         (nextTxnTs mt)
  /\ nextTxnTs mt <= nextTxnTs mt'
  /\ Forall (fun d => ParseTs (Collaborators:=Sample.collaborators) (Key (fst d))
                      <= nextTxnTs mt') ds
  /\ ref mt' = ref mt /\ buf mt' = buf mt.
Proof.
  intros mt.
  apply (UpdateSkipList_result (H:=Sample.collaborators) mt Sample.tornLog
           skl.NewSkiplist); reflexivity.
Defined.

Lemma int32_range x : - 2 ^ 31 <= int32 x < 2 ^ 31.
Proof.
  unfold int32, sint. change (2 ^ (32 - 1)) with (2 ^ 31).
  pose proof (Z.mod_pos_bound (x + 2 ^ 31) (2 ^ 32) ltac:(lia)). lia.
Qed.

Lemma int32_incr_decr r : - 2 ^ 31 <= r < 2 ^ 31 -> int32 (int32 (r + 1) - 1) = r.
Proof.
  intros Hr. unfold int32, sint. change (2 ^ (32 - 1)) with (2 ^ 31).
  destruct (Z.eq_dec r (2 ^ 31 - 1)) as [-> | Hne].
  - reflexivity.
  - rewrite (Z.mod_small (r + 1 + 2 ^ 31)) by lia.
    replace (r + 1 + 2 ^ 31 - 2 ^ 31 - 1 + 2 ^ 31) with (r + 2 ^ 31) by lia.
    rewrite Z.mod_small by lia. lia.
Qed.

(** X25: [IncrRef] followed by [DecrRef] on a memtable whose reference
    count is positive gives the memtable back as it was and releases
    nothing, for every positive 32-bit count, the largest included (the
    count wraps to the smallest and back). *)
Theorem IncrRef_then_DecrRef `{Collaborators} mt :
  0 < ref mt < 2 ^ 31 ->
  DecrRef (IncrRef mt) = (mt, Ok tt).
Proof.
  intros Hr. unfold DecrRef, IncrRef. cbn [ref set_ref].
  rewrite int32_incr_decr by lia.
  replace (ref mt >? 0) with true by (symmetry; apply Z.gtb_lt; lia).
  destruct mt. reflexivity.
Qed.

Lemma IncrRef_then_DecrRef_witness :
  DecrRef (H:=Sample.collaborators) (IncrRef (Sample.memTable_of Sample.plainLog))
  = (Sample.memTable_of Sample.plainLog, Ok tt).
Proof.
  apply (IncrRef_then_DecrRef (H:=Sample.collaborators)
           (Sample.memTable_of Sample.plainLog)).
  vm_compute. split; reflexivity.
Defined.

Section PutRun.
Context `{Collaborators}.

Lemma putAll_cons mt k v rest :
  putAll mt ((k, v) :: rest)
  = match Put mt k v with
    | (mt', Ok _) => putAll mt' rest
    | r => r
    end.
Proof. reflexivity. Qed.

(** A run of successful [Put] calls is a run of appends to the log and
    as many insertions into the sorted map, in the same order. *)
Lemma putAll_in_step : forall kvs mt mt' lf b s,
  putAll mt kvs = (mt', Ok tt) ->
  wal mt = Some lf -> buf mt = Some b -> sl mt = Some s ->
  exists lf' b',
    writeAll lf b (map (fun kv => entryOf (fst kv) (snd kv)) kvs) = (lf', b', Ok tt)
    /\ wal mt' = Some lf' /\ buf mt' = Some b'
    /\ sl mt' = Some (s ++ map (fun kv => SklPut (fst kv) (snd kv)) kvs)
    /\ nextTxnTs mt' = nextTxnTs mt /\ ref mt' = ref mt.
Proof.
  induction kvs as [|[k v] kvs IH]; intros mt mt' lf b s Hp Hw Hb Hs.
  - cbn [putAll] in Hp. injection Hp as <-. exists lf, b. cbn [map writeAll].
    rewrite app_nil_r. repeat split; assumption.
  - rewrite putAll_cons in Hp.
    destruct (Put mt k v) as [mt1 r1] eqn:Eput.
    destruct r1 as [[]|err|]; [|discriminate|discriminate].
    revert Eput. unfold Put. rewrite Hb, Hw. fold (entryOf k v).
    destruct (writeEntry lf b (entryOf k v)) as [[lf1 b1] [[]|err|]] eqn:Ew;
      try discriminate.
    cbn [sl set_buf set_wal]. rewrite Hs. intros [= <-].
    destruct (IH _ mt' lf1 b1 (skl.Put s k v) Hp eq_refl eq_refl eq_refl)
      as (lf' & b' & Hwa & Hw' & Hb' & Hs' & Ht' & Hr').
    exists lf', b'. cbn [map writeAll fst snd]. rewrite Ew.
    split; [exact Hwa|]. split; [exact Hw'|]. split; [exact Hb'|].
    split; [|split; assumption].
    rewrite Hs'. unfold skl.Put. rewrite <- app_assoc. reflexivity.
Qed.

End PutRun.

(** X26: a run of [Put] calls that all succeed keeps the log and the
    sorted map in step: the sorted map has received the keys and values in
    the order of the calls, and the log file holds their records in the
    same order, one right after the other from the [writeAt] the run
    started at (on a mapped region shorter than 4 GiB); [Put] does not
    touch [nextTxnTs] or the reference count. *)
Theorem putAll_log_and_map_in_step `{Collaborators} kvs mt mt' lf b s :
  putAll mt kvs = (mt', Ok tt) ->
  wal mt = Some lf -> buf mt = Some b -> sl mt = Some s ->
  len (lfData lf) < 2 ^ 32 -> 0 <= writeAt lf ->
  let recs := encodeAll lf (writeAt lf)
                (map (fun kv => entryOf (fst kv) (snd kv)) kvs) in
  sl mt' = Some (s ++ map (fun kv => SklPut (fst kv) (snd kv)) kvs)
  /\ (exists lf',
        wal mt' = Some lf'
        /\ writeAt lf' = writeAt lf + len recs
        /\ lfData lf'
           = firstn (Z.to_nat (writeAt lf)) (lfData lf) ++ recs
               ++ skipn (Z.to_nat (writeAt lf + len recs)) (lfData lf))
  /\ nextTxnTs mt' = nextTxnTs mt /\ ref mt' = ref mt.
Proof.
  intros Hp Hw Hb Hs Hlt Hge recs.
  destruct (putAll_in_step kvs mt mt' lf b s Hp Hw Hb Hs)
    as (lf' & b' & Hwa & Hw' & _ & Hs' & Ht & Hr).
  destruct (writeAll_layout _ _ _ _ _ Hwa Hlt Hge) as (Hat & Hd & _).
  split; [exact Hs'|]. split; [|split; assumption].
  exists lf'. split; [exact Hw'|]. split; assumption.
Qed.

Lemma putAll_log_and_map_in_step_witness :
  let kvs := [(Sample.keyTs "a" 5, Sample.value_A); (Sample.keyTs "b" 6, Sample.value_A)] in
  let mt := Sample.memTable_of Sample.plainLog in
  let mt' := fst (putAll (H:=Sample.collaborators) mt kvs) in
  let recs := encodeAll (H:=Sample.collaborators) Sample.plainLog
                (writeAt Sample.plainLog)
                (map (fun kv => entryOf (fst kv) (snd kv)) kvs) in
  sl mt' = Some (skl.NewSkiplist ++ map (fun kv => SklPut (fst kv) (snd kv)) kvs)
  /\ (exists lf',
        wal mt' = Some lf'
        /\ writeAt lf' = writeAt Sample.plainLog + len recs
        /\ lfData lf'
           = firstn (Z.to_nat (writeAt Sample.plainLog)) (lfData Sample.plainLog) ++ recs
               ++ skipn (Z.to_nat (writeAt Sample.plainLog + len recs))
                    (lfData Sample.plainLog))
  /\ nextTxnTs mt' = nextTxnTs mt /\ ref mt' = ref mt.
Proof.
  intros kvs mt mt'.
  apply (putAll_log_and_map_in_step (H:=Sample.collaborators) kvs mt mt'
           Sample.plainLog [] skl.NewSkiplist).
  - vm_compute. reflexivity.
  - reflexivity.
  - reflexivity.
  - reflexivity.
  - vm_compute. reflexivity.
  - vm_compute. discriminate.
Defined.

(** X27: the record [encodeEntry] writes for the entry of a [Put],
    decoded again at the same offset and handed to the replay callback,
    puts into the sorted map the very key and value that the [Put] put
    there, on a plaintext and on an encrypted file alike (key and value
    lengths together within 32 bits), and raises [nextTxnTs] to the
    timestamp of the key when that is larger. *)
Theorem replay_restores_put `{Collaborators} lf key value off out n o vp mt s :
  len key + len (ValueStruct.Value value) < 2 ^ 32 ->
  0 <= ValueStruct.ExpiresAt value < 2 ^ 64 ->
  encodeEntry lf [] (entryOf key value) off = (out, Ok n) ->
  sl mt = Some s ->
  exists e',
    decodeEntry lf (firstn (Z.to_nat (n - crc32.Size)) out) off = Ok e'
    /\ replayFunction o e' vp mt
       = (set_sl (set_nextTxnTs mt (Z.max (nextTxnTs mt) (ParseTs key)))
                 (Some (skl.Put s key value)),
          Ok tt).
Proof.
  intros Hsum He Henc Hs.
  pose proof (len_nonneg key). pose proof (len_nonneg (ValueStruct.Value value)).
  destruct (encodeEntry_ok_inv _ _ _ _ _ _ Henc) as (kv & Hkv & -> & -> & Hok).
  assert (Hpay : firstn (Z.to_nat (len (header_Encode (entryHeader (entryOf key value)) ++ kv)
                                   + 4 - crc32.Size))
                   ([] ++ (header_Encode (entryHeader (entryOf key value)) ++ kv)
                       ++ binary.PutUint32
                            (crc32.Checksum
                               (header_Encode (entryHeader (entryOf key value)) ++ kv)
                               crc32.CastagnoliCrcTable))
                 = header_Encode (entryHeader (entryOf key value)) ++ kv).
  { apply (produced_payload [] _ _ _ eq_refl). apply PutUint32_len. }
  rewrite Hpay.
  assert (Hdec : decodeEntry lf (header_Encode (entryHeader (entryOf key value)) ++ kv) off
                 = Ok {| meta := ValueStruct.Meta value;
                         UserMeta := ValueStruct.UserMeta value;
                         ExpiresAt := ValueStruct.ExpiresAt value;
                         offset := off; Key := key;
                         Value := ValueStruct.Value value; hlen := 0 |}).
  { destruct (dataKey lf) as [dk|] eqn:Edk.
    - rewrite (decodeEntry_written lf dk (entryOf key value) off kv);
        try assumption; cbn [Key Value ExpiresAt entryOf]; try lia.
      + rewrite slice_app_l, uint32_small by lia. rewrite slice_app_r. reflexivity.
      + apply Hok. reflexivity.
    - unfold writtenKV in Hkv. rewrite Edk in Hkv. injection Hkv as <-.
      apply (decodeEntry_written_plain lf (entryOf key value) off Edk); assumption. }
  rewrite Hdec. eexists. split; [reflexivity|].
  rewrite (replayFunction_step o _ vp mt s Hs). unfold replay_one.
  cbn [Key]. rewrite Hs. cbn [option_map]. unfold valueOf.
  cbn [Value meta UserMeta ExpiresAt]. destruct value. reflexivity.
Qed.

Lemma replay_restores_put_witness :
  let lf := Sample.encryptedLog in
  let key := Sample.keyTs "a" 5 in
  let mt := Sample.memTable_of lf in
  let vp := {| valuePointer.Fid := 1; valuePointer.Len := 19; valuePointer.Offset := 20 |} in
  exists e',
    decodeEntry (H:=Sample.collaborators) lf
      (firstn (Z.to_nat (19 - crc32.Size))
         (fst (encodeEntry (H:=Sample.collaborators) lf [] (entryOf key Sample.value_A) 20)))
      20 = Ok e'
    /\ replayFunction (H:=Sample.collaborators) Sample.options e' vp mt
       = (set_sl (set_nextTxnTs mt
                    (Z.max (nextTxnTs mt)
                           (ParseTs (Collaborators:=Sample.collaborators) key)))
                 (Some (skl.Put skl.NewSkiplist key Sample.value_A)),
          Ok tt).
Proof.
  intros lf key mt vp.
  apply (replay_restores_put (H:=Sample.collaborators) lf key Sample.value_A 20
           (fst (encodeEntry (H:=Sample.collaborators) lf [] (entryOf key Sample.value_A) 20))
           19 Sample.options vp mt skl.NewSkiplist).
  - vm_compute. reflexivity.
  - vm_compute. split; [discriminate | reflexivity].
  - vm_compute. reflexivity.
  - reflexivity.
Defined.

(** ** The header over the life of a log file *)

Section HeaderInvariant.
Context `{Collaborators}.

(** [writeEntry] never changes the number of mapped bytes. *)
Lemma writeEntry_length lf buf e :
  length (lfData (fst (fst (writeEntry lf buf e)))) = length (lfData lf).
Proof.
  unfold writeEntry.
  destruct (encodeEntry lf [] e (writeAt lf)) as [b [plen|err|]]; try reflexivity.
  destruct (slice_from (lfData lf) (writeAt lf)) as [dst|] eqn:Hs; [|reflexivity].
  apply slice_from_Some in Hs. destruct Hs as [Hr ->].
  pose proof (copy_length (skipn (Z.to_nat (writeAt lf)) (lfData lf)) b) as Hc.
  destruct (copy (skipn (Z.to_nat (writeAt lf)) (lfData lf)) b) as [dst' n].
  cbn [fst] in Hc.
  assert (Hl : length (firstn (Z.to_nat (writeAt lf)) (lfData lf) ++ dst')
               = length (lfData lf)).
  { rewrite length_app, length_firstn, Hc, length_skipn. unfold len in Hr. lia. }
  destruct (plen =? n); exact Hl.
Qed.

(** A [writeEntry] that does not succeed leaves [writeAt] where it was. *)
Lemma writeEntry_writeAt_keep lf buf e lf' buf' r :
  writeEntry lf buf e = (lf', buf', r) -> r <> Ok tt -> writeAt lf' = writeAt lf.
Proof.
  unfold writeEntry.
  destruct (encodeEntry lf [] e (writeAt lf)) as [b [plen|err|]];
    try (intros [= <- _ _] _; reflexivity).
  destruct (slice_from (lfData lf) (writeAt lf)) as [dst|];
    [|intros [= <- _ _] _; reflexivity].
  destruct (copy dst b) as [dst' n].
  destruct (plen =? n).
  - intros [= _ _ <-] Hr. exfalso. apply Hr. reflexivity.
  - intros [= <- _ _] _. reflexivity.
Qed.

(** One append or reset on a file whose [writeAt] is at or after the
    header, the mapped region being shorter than 4 GiB. *)
Lemma apply_fileOp_header lf op :
  vlogHeaderSize <= writeAt lf -> len (lfData lf) < 2 ^ 32 ->
  firstn (Z.to_nat vlogHeaderSize) (lfData (apply_fileOp lf op))
  = firstn (Z.to_nat vlogHeaderSize) (lfData lf)
  /\ vlogHeaderSize <= writeAt (apply_fileOp lf op)
  /\ len (lfData (apply_fileOp lf op)) = len (lfData lf).
Proof.
  intros Hge Hlt. destruct op as [buf e|]; cbn [apply_fileOp].
  - pose proof (writeEntry_length lf buf e) as Hl.
    destruct (writeEntry lf buf e) as [[lf' buf'] r] eqn:Hw. cbn [fst] in Hl |- *.
    split; [apply (writeEntry_prefix lf buf e lf' buf' r 20 Hw); exact Hge|].
    split; [|unfold len; rewrite Hl; reflexivity].
    destruct r as [[]|err|].
    + apply (writeEntry_writeAt_ge lf buf e lf' buf' Hw Hge Hlt).
    + rewrite (writeEntry_writeAt_keep _ _ _ _ _ _ Hw) by discriminate. exact Hge.
    + rewrite (writeEntry_writeAt_keep _ _ _ _ _ _ Hw) by discriminate. exact Hge.
  - destruct (reset_spec lf) as (lf' & Hr & Hat & Hlen & Hhead & _).
    rewrite Hr. split; [exact Hhead|]. split; [rewrite Hat; lia|].
    unfold len. rewrite Hlen. reflexivity.
Qed.

(** Any run of appends and resets. *)
Lemma run_fileOps_header : forall ops lf,
  vlogHeaderSize <= writeAt lf -> len (lfData lf) < 2 ^ 32 ->
  firstn (Z.to_nat vlogHeaderSize) (lfData (run_fileOps ops lf))
  = firstn (Z.to_nat vlogHeaderSize) (lfData lf)
  /\ vlogHeaderSize <= writeAt (run_fileOps ops lf)
  /\ len (lfData (run_fileOps ops lf)) = len (lfData lf).
Proof.
  induction ops as [|op ops IH]; intros lf Hge Hlt.
  - cbn. repeat split. exact Hge.
  - change (run_fileOps (op :: ops) lf) with (run_fileOps ops (apply_fileOp lf op)).
    destruct (apply_fileOp_header lf op Hge Hlt) as (Hh & Hw & Hl).
    destruct (IH (apply_fileOp lf op)) as (Hh' & Hw' & Hl'); [exact Hw | lia |].
    rewrite Hh', Hl', Hh, Hl. repeat split. exact Hw'.
Qed.

(** On a file that was just created, the mapped bytes [open] leaves are
    those [bootstrap] left: what follows only reads them. *)
Lemma open_new_data lf w p o w1 m w2 rnd :
  OpenMmapFile w p (int64 (2 * int64 (ValueLogFileSize o)))
    = (w1, (m, Some z_NewFile)) ->
  bootstrap_random (set_mf lf m) w1 = (w2, rnd) ->
  lfData (snd (fst (open lf w p o))) = lfData (fst (bootstrap (set_mf lf m) rnd)).
Proof.
  intros Ho Hr. unfold open. rewrite Ho. cbn [err_is error_eqb]. rewrite Hr.
  destruct (bootstrap (set_mf lf m) rnd) as [lfb [[]|err|]]; cbn [fst];
    [|reflexivity|reflexivity].
  destruct (copy (repeat x00 (Z.to_nat vlogHeaderSize)) (lfData lfb)) as [b n].
  destruct (vlogHeaderSize =? n); [|reflexivity].
  destruct (KeyRegistry.dataKey (registry lfb) (binary.be_value (firstn 8 b)))
    as [dk|err|]; try reflexivity.
  match goal with |- context [if ?c then _ else _] => destruct c end; reflexivity.
Qed.

(** What a successful [bootstrap] writes. *)
Lemma bootstrap_writes lf r dk :
  KeyRegistry.latestDataKey (registry lf) = Ok dk ->
  len r = 12 ->
  vlogHeaderSize <= len (lfData lf) ->
  exists lf',
    bootstrap lf (Ok r) = (lf', Ok tt)
    /\ lfData lf' = binary.PutUint64 (keyID lf') ++ r ++ skipn 20 (lfData lf)
    /\ keyID lf' = match dk with Some k => DataKey.KeyId k | None => 0 end
    /\ dataKey lf' = dk /\ baseIV lf' = r /\ writeAt lf' = writeAt lf.
Proof.
  intros Hk Hr Hd. rewrite (bootstrap_run lf r dk Hk Hr Hd).
  eexists. split; [reflexivity|].
  unfold keyID. cbn [dataKey baseIV writeAt lfData mf set_Data set_key MmapFile.Data].
  destruct dk; repeat split.
Qed.

End HeaderInvariant.

(** C9, amended: the first 20 bytes of the mapped file are written by
    [bootstrap]: with the latest data key of the registry and 12 random
    bytes it succeeds on a mapped region of at least 20 bytes and leaves
    there the id of the key in 8 bytes, big endian, and the random bytes as
    the base IV, the bytes after them as they were. [open] runs [bootstrap]
    on a file that was just created and writes nothing into a file that
    existed. From then on, while the mapped region is shorter than 4 GiB,
    so that the 32-bit [writeAt] cannot wrap around, the header stays as it
    is: [openMemTable] starts [writeAt] at 20, and any run of [writeEntry]
    and [reset] calls, whatever their outcomes, leaves the first 20 bytes
    and the mapped length as they are and [writeAt] at or after 20. One
    [writeEntry] from a [writeAt] of at least 20 leaves the 20 bytes as
    they are whatever the size of the file; [reset] zeroes the bytes from
    20 up to [writeAt] and no other and sets [writeAt] to 20; and the
    replay by [iterate] leaves the whole log file as it is. *)
Theorem header_bytes_written_once `{Collaborators} :
  (forall lf r dk,
     KeyRegistry.latestDataKey (registry lf) = Ok dk ->
     len r = 12 ->
     vlogHeaderSize <= len (lfData lf) ->
     exists lf',
       bootstrap lf (Ok r) = (lf', Ok tt)
       /\ lfData lf' = binary.PutUint64 (keyID lf') ++ r ++ skipn 20 (lfData lf)
       /\ keyID lf' = match dk with Some k => DataKey.KeyId k | None => 0 end
       /\ dataKey lf' = dk /\ baseIV lf' = r /\ writeAt lf' = writeAt lf)
  /\ (forall lf rnd lf',
        bootstrap lf rnd = (lf', Ok tt) ->
        firstn (Z.to_nat vlogHeaderSize) (lfData lf')
          = binary.PutUint64 (keyID lf') ++ baseIV lf'
        /\ len (baseIV lf') = 12
        /\ skipn (Z.to_nat vlogHeaderSize) (lfData lf')
           = skipn (Z.to_nat vlogHeaderSize) (lfData lf))
  /\ (forall lf w p o w1 m w2 rnd,
        OpenMmapFile w p (int64 (2 * int64 (ValueLogFileSize o)))
          = (w1, (m, Some z_NewFile)) ->
        bootstrap_random (set_mf lf m) w1 = (w2, rnd) ->
        lfData (snd (fst (open lf w p o)))
        = lfData (fst (bootstrap (set_mf lf m) rnd)))
  /\ (forall lf w p o w1 m ferr,
        OpenMmapFile w p (int64 (2 * int64 (ValueLogFileSize o))) = (w1, (m, ferr)) ->
        err_is ferr z_NewFile = false ->
        lfData (snd (fst (open lf w p o))) = MmapFile.Data m)
  /\ (forall db w fid0 w' mt r lf ops,
        openMemTable db w fid0 = (w', (Some mt, r)) ->
        wal mt = Some lf ->
        len (lfData lf) < 2 ^ 32 ->
        writeAt lf = vlogHeaderSize
        /\ firstn (Z.to_nat vlogHeaderSize) (lfData (run_fileOps ops lf))
           = firstn (Z.to_nat vlogHeaderSize) (lfData lf)
        /\ vlogHeaderSize <= writeAt (run_fileOps ops lf))
  /\ (forall lf ops,
        vlogHeaderSize <= writeAt lf ->
        len (lfData lf) < 2 ^ 32 ->
        firstn (Z.to_nat vlogHeaderSize) (lfData (run_fileOps ops lf))
        = firstn (Z.to_nat vlogHeaderSize) (lfData lf)
        /\ vlogHeaderSize <= writeAt (run_fileOps ops lf)
        /\ len (lfData (run_fileOps ops lf)) = len (lfData lf))
  /\ (forall lf buf e lf' buf' r,
        vlogHeaderSize <= writeAt lf ->
        writeEntry lf buf e = (lf', buf', r) ->
        firstn (Z.to_nat vlogHeaderSize) (lfData lf')
          = firstn (Z.to_nat vlogHeaderSize) (lfData lf)
        /\ (r = Ok tt -> len (lfData lf) < 2 ^ 32 -> vlogHeaderSize <= writeAt lf'))
  /\ (forall lf,
        exists lf',
          reset (Some lf) = Some lf'
          /\ writeAt lf' = vlogHeaderSize
          /\ length (lfData lf') = length (lfData lf)
          /\ firstn (Z.to_nat vlogHeaderSize) (lfData lf')
             = firstn (Z.to_nat vlogHeaderSize) (lfData lf)
          /\ (vlogHeaderSize <= writeAt lf ->
              skipn (Z.to_nat (writeAt lf)) (lfData lf')
              = skipn (Z.to_nat (writeAt lf)) (lfData lf))
          /\ (forall i : nat,
                vlogHeaderSize <= Z.of_nat i < writeAt lf ->
                (i < length (lfData lf))%nat ->
                nth_error (lfData lf') i = Some x00))
  /\ (forall lf o mt s,
        sl mt = Some s ->
        wal (fst (iterate lf true 0 (replayFunction o) mt)) = wal mt).
Proof.
  split; [apply bootstrap_writes|].
  split; [apply bootstrap_header|].
  split; [apply open_new_data|].
  split; [apply open_existing|].
  split.
  { intros db w fid0 w' mt r lf ops Ho Hw Hlt.
    destruct (openMemTable_shape _ _ _ _ _ _ Ho)
      as (_ & _ & _ & _ & lf0 & Hw0 & _ & _ & _ & Hat).
    rewrite Hw in Hw0. injection Hw0 as <-.
    split; [exact Hat|].
    destruct (run_fileOps_header ops lf) as (Hh & Hge & _); [rewrite Hat; lia | exact Hlt |].
    split; assumption. }
  split; [intros lf ops; apply run_fileOps_header|].
  split.
  { intros lf buf e lf' buf' r Hge Hw. split.
    - apply (writeEntry_prefix lf buf e lf' buf' r 20 Hw). exact Hge.
    - intros -> Hlt. apply (writeEntry_writeAt_ge lf buf e lf' buf' Hw Hge Hlt). }
  split; [apply reset_spec|].
  apply iterate_replay_wal.
Qed.

Lemma header_bytes_written_once_witness :
  let lf0 := MoreSample.freshLog in
  let lf1 := fst (bootstrap lf0 (Ok Sample.base_iv)) in
  let e := Sample.entry "k" "v" x00 in
  let lf2 := run_fileOps (H:=Sample.collaborators)
               [OpWrite [] e; OpReset; OpWrite [] e; OpWrite [] e] lf1 in
  (bootstrap lf0 (Ok Sample.base_iv) = (lf1, Ok tt)
   /\ firstn 20 (lfData lf0) = repeat x00 20
   /\ firstn 20 (lfData lf1)
      = [x00; x00; x00; x00; x00; x00; x00; x07;
         x01; x02; x03; x04; x05; x06; x07; x08; x09; x0a; x0b; x0c]
   /\ skipn 20 (lfData lf1) = skipn 20 (lfData lf0))
  /\ (firstn (Z.to_nat vlogHeaderSize) (lfData lf2)
      = firstn (Z.to_nat vlogHeaderSize) (lfData lf1)
      /\ vlogHeaderSize <= writeAt lf2
      /\ len (lfData lf2) = len (lfData lf1)).
Proof.
  intros lf0 lf1 e lf2.
  pose proof (header_bytes_written_once (H:=Sample.collaborators))
    as (Hboot & _ & _ & _ & _ & Hrun & _).
  split.
  - destruct (Hboot lf0 Sample.base_iv (Some Sample.dataKey7))
      as (lf' & Hb & Hd & Hid & _); [reflexivity | reflexivity | |].
    { vm_compute. discriminate. }
    assert (Hl : lf1 = lf') by (unfold lf1; rewrite Hb; reflexivity).
    rewrite Hl. split; [exact Hb|]. split; [reflexivity|].
    rewrite Hd, Hid. split; reflexivity.
  - apply (Hrun lf1 [OpWrite [] e; OpReset; OpWrite [] e; OpWrite [] e]).
    + vm_compute. discriminate.
    + vm_compute. reflexivity.
Defined.

(** ** A mapped region of 4 GiB *)

Lemma len_four_GiB : len MoreSample.four_GiB = 2 ^ 32.
Proof.
  unfold MoreSample.four_GiB, len. rewrite repeat_length. apply Z2Nat.id. lia.
Qed.

Lemma len_huge_value : len MoreSample.huge_value = 2 ^ 32 - 34.
Proof.
  unfold MoreSample.huge_value, len. rewrite repeat_length. apply Z2Nat.id. lia.
Qed.

(** The record of the huge entry takes the file from the header to its
    end. *)
Lemma encodedLen_hugeEntry : encodedLen MoreSample.hugeEntry = 2 ^ 32 - 20.
Proof.
  unfold encodedLen, entryHeader, header_Encode.
  cbn [header.klen header.vlen header.expiresAt header.meta header.userMeta].
  change (Key MoreSample.hugeEntry) with [x6b].
  change (Value MoreSample.hugeEntry) with MoreSample.huge_value.
  change (ExpiresAt MoreSample.hugeEntry) with 0.
  change (meta MoreSample.hugeEntry) with x00.
  change (UserMeta MoreSample.hugeEntry) with x00.
  rewrite len_huge_value. vm_compute. reflexivity.
Qed.

(** C9 as stated fails on a mapped region of 4 GiB. On a file with
    nothing appended, [writeAt] being 20, the append of an entry whose key
    and value lengths fit in 32 bits and whose record fills the file to its
    end succeeds and leaves [writeAt], a 32-bit offset, at 0; the next
    [writeEntry] starts there, below 20, and overwrites the header. *)
Lemma header_overwritten_after_wrap :
  let lf := MoreSample.hugeLog in
  let ops := [OpWrite [] MoreSample.hugeEntry;
              OpWrite [] (Sample.entry "k" "v" x00)] in
  writeAt lf = vlogHeaderSize
  /\ len (Key MoreSample.hugeEntry) < 2 ^ 32
  /\ len (Value MoreSample.hugeEntry) < 2 ^ 32
  /\ snd (writeEntry (H:=Sample.collaborators) lf [] MoreSample.hugeEntry) = Ok tt
  /\ writeAt (fst (fst (writeEntry (H:=Sample.collaborators) lf []
                          MoreSample.hugeEntry))) = 0
  /\ firstn 20 (lfData (run_fileOps (H:=Sample.collaborators) ops lf))
     <> firstn 20 (lfData lf).
Proof.
  intros lf ops.
  set (e := Sample.entry "k" "v" x00) in *.
  assert (Hdk : dataKey lf = None) by reflexivity.
  assert (Hiv : baseIV lf = baseIV Sample.plainLog) by reflexivity.
  assert (Hat : writeAt lf = 20) by reflexivity.
  assert (Hlen : len (lfData lf) = 2 ^ 32) by exact len_four_GiB.
  assert (He : encodedLen e = 11) by (vm_compute; reflexivity).
  pose proof encodedLen_hugeEntry as Hbig.
  destruct (writeEntry_fits (H:=Sample.collaborators) lf [] MoreSample.hugeEntry)
    as (lf1 & b1 & Hw1 & Hb1 & Hl1).
  { intros dk Hd. rewrite Hdk in Hd. discriminate Hd. }
  { rewrite Hlen, Hat. lia. }
  { rewrite Hlen, Hat, Hbig. lia. }
  destruct (writeEntry_ok _ _ _ _ _ Hw1) as (_ & _ & _ & _ & Hat1 & Hdk1 & Hiv1).
  assert (Hz : writeAt lf1 = 0).
  { rewrite Hat1, Hb1, Hbig, Hat. vm_compute. reflexivity. }
  destruct (writeEntry_fits (H:=Sample.collaborators) lf1 [] e)
    as (lf2 & b2 & Hw2 & Hb2 & Hl2).
  { intros dk Hd. rewrite Hdk1, Hdk in Hd. discriminate Hd. }
  { rewrite Hz, Hl1, Hlen. lia. }
  { rewrite Hz, Hl1, Hlen, He. lia. }
  destruct (writeEntry_ok _ _ _ _ _ Hw2) as (Henc2 & _ & _ & Hd2 & _).
  split; [reflexivity|].
  split; [change (len (Key MoreSample.hugeEntry)) with 1; lia|].
  split; [change (Value MoreSample.hugeEntry) with MoreSample.huge_value;
          rewrite len_huge_value; lia|].
  split; [rewrite Hw1; reflexivity|].
  split; [rewrite Hw1; exact Hz|].
  (* the header before the appends: the zeros of the file *)
  assert (Hh0 : exists t, firstn 20 (lfData lf) = x00 :: t).
  { change (lfData lf) with MoreSample.four_GiB. unfold MoreSample.four_GiB.
    destruct (Z.to_nat (2 ^ 32)) as [|n] eqn:En; [lia|].
    cbn [repeat firstn]. eexists. reflexivity. }
  (* and after them: the second record *)
  assert (Hh2 : exists t, firstn 20 (lfData lf2) = x01 :: t).
  { rewrite Hz in Henc2, Hd2.
    rewrite (encodeEntry_ext lf1 Sample.plainLog) in Henc2
      by (rewrite ?Hdk1, ?Hiv1; assumption).
    assert (Hout : exists t, fst (encodeEntry (H:=Sample.collaborators)
                                    Sample.plainLog [] e 0) = x01 :: t)
      by (vm_compute; eexists; reflexivity).
    rewrite Henc2 in Hout. cbn [fst] in Hout. destruct Hout as [t Ht].
    rewrite Hd2, Ht. change (Z.to_nat 0) with 0%nat.
    cbn [firstn app]. eexists. reflexivity. }
  assert (Hrun : run_fileOps (H:=Sample.collaborators) ops lf = lf2).
  { unfold ops, run_fileOps. cbn [fold_left apply_fileOp].
    rewrite Hw1. cbn [fst]. rewrite Hw2. reflexivity. }
  destruct Hh0 as [t0 Ht0]. destruct Hh2 as [t2 Ht2].
  rewrite Hrun, Ht0, Ht2. intros Heq. injection Heq as Hx _. discriminate Hx.
Qed.
